(** * mediasocial-backend: ingestion and aggregation engine

    A shallow embedding of [src/index.ts] (a Hono worker that pulls YouTube
    channel metadata and video statistics, stores them as append-only
    snapshots and answers ranking and rollup queries), together with the
    properties of the engine that its specification states and with
    further properties of the code: what the writes keep, how the
    handlers fail, how the queries order and cut their rows.

    Conventions of the embedding:
    - JavaScript strings are [string]; the regular expression of
      [extractUsername] works on their character lists;
    - counters are [Z]; a value that JavaScript has as [number | null] is an
      [option Z], a [string | null] an [option string];
    - the upstream API, the database and the key-value cache are explicit:
      the API is an oracle of replies, the database three tables as lists of
      rows, the cache an optional entry with its expiry;
    - the handlers are programs of a small state-and-exception monad over
      the [World] (quota counter, clock, database, cache, console);
    - a request is run from its start to its answer before the next one
      starts, and the clock stands still while it runs. *)

From Stdlib Require Import List String Ascii ZArith Bool Arith Lia DecimalString.
From Stdlib Require Import Sorted Permutation.
From Stdlib Require DecimalN OrderedTypeEx.
Import ListNotations.

Local Open Scope list_scope.

(** ** Regular expressions, as far as [extractUsername] needs them *)

Module Regex.

Definition word := list ascii.

Inductive re : Type :=
| Void : re
| Eps : re
| Class (p : ascii -> bool) : re
| Cat (r s : re) : re
| Alt (r s : re) : re
| Star (r : re) : re.

Fixpoint nullable (r : re) : bool :=
  match r with
  | Void => false
  | Eps => true
  | Class _ => false
  | Cat r s => nullable r && nullable s
  | Alt r s => nullable r || nullable s
  | Star _ => true
  end.

Fixpoint deriv (c : ascii) (r : re) : re :=
  match r with
  | Void => Void
  | Eps => Void
  | Class p => if p c then Eps else Void
  | Cat r s =>
      if nullable r then Alt (Cat (deriv c r) s) (deriv c s)
      else Cat (deriv c r) s
  | Alt r s => Alt (deriv c r) (deriv c s)
  | Star r => Cat (deriv c r) (Star r)
  end.

(** [matches r w]: the whole of [w] is in the language of [r] (the pattern
    anchored by [^] and [$]). *)
Fixpoint matches (r : re) (w : word) : bool :=
  match w with
  | [] => nullable r
  | c :: w' => matches (deriv c r) w'
  end.

(** The language of a pattern. *)
Inductive lang : re -> word -> Prop :=
| lang_eps : lang Eps []
| lang_class p c : p c = true -> lang (Class p) [c]
| lang_cat r s u v : lang r u -> lang s v -> lang (Cat r s) (u ++ v)
| lang_alt_l r s u : lang r u -> lang (Alt r s) u
| lang_alt_r r s u : lang s u -> lang (Alt r s) u
| lang_star_nil r : lang (Star r) []
| lang_star_cons r u v : lang r u -> lang (Star r) v -> lang (Star r) (u ++ v).

(** Derived forms. *)
Definition Opt (r : re) : re := Alt r Eps.
Definition Plus (r : re) : re := Cat r (Star r).

Fixpoint Rep (n : nat) (r : re) : re :=
  match n with
  | O => Eps
  | S n' => Cat r (Rep n' r)
  end.

Fixpoint LitW (w : word) : re :=
  match w with
  | [] => Eps
  | c :: w' => Cat (Class (Ascii.eqb c)) (LitW w')
  end.

Definition Lit (s : string) : re := LitW (list_ascii_of_string s).

(** [find_split h g w]: the part of [w] that [g] matches when [w] is a word
    of [h] followed by a word of [g], trying the shortest [h]-prefix first.
    It gives the text of a capture group [g] that ends the pattern [^h(g)$]. *)
Fixpoint find_split (h g : re) (w : word) : option word :=
  if nullable h && matches g w then Some w
  else match w with
       | [] => None
       | c :: w' => find_split (deriv c h) g w'
       end.

End Regex.

(** ** [extractUsername]: the identifier parser *)

Module Handle.
Import Regex.

Definition in_range (lo hi c : ascii) : bool :=
  (nat_of_ascii lo <=? nat_of_ascii c) && (nat_of_ascii c <=? nat_of_ascii hi).

(** [\w] *)
Definition is_word (c : ascii) : bool :=
  in_range "a" "z" c || in_range "A" "Z" c || in_range "0" "9" c
  || Ascii.eqb c "_".

(** [[\w-]] *)
Definition is_word_dash (c : ascii) : bool := is_word c || Ascii.eqb c "-".

(** [[AQgw]] *)
Definition is_AQgw (c : ascii) : bool :=
  Ascii.eqb c "A" || Ascii.eqb c "Q" || Ascii.eqb c "g" || Ascii.eqb c "w".

(** [[\w@-]] *)
Definition is_word_at_dash (c : ascii) : bool :=
  is_word c || Ascii.eqb c "@" || Ascii.eqb c "-".

(** [https?:\/\/(www\.)?youtube\.com\/], the part of [urlRegex] before its
    second group. *)
Definition urlHead : re :=
  Cat (Lit "http") (Cat (Opt (Lit "s")) (Cat (Lit "://")
    (Cat (Opt (Lit "www.")) (Lit "youtube.com/")))).

(** [(channel\/UC[\w-]{21}[AQgw]|(c\/|user\/)?[\w@-]+)], the second group. *)
Definition urlGroup2 : re :=
  Alt (Cat (Lit "channel/UC")
         (Cat (Rep 21 (Class is_word_dash)) (Class is_AQgw)))
      (Cat (Opt (Alt (Lit "c/") (Lit "user/"))) (Plus (Class is_word_at_dash))).

Definition startsWith (s p : string) : bool := String.prefix p s.

(** [input.match(urlRegex)?.[2]] *)
Definition match_group2 (input : string) : option string :=
  option_map string_of_list_ascii
    (find_split urlHead urlGroup2 (list_ascii_of_string input)).

(** The empty string is falsy: [x || null]. *)
Definition or_null (x : option string) : option string :=
  match x with
  | Some s => if String.eqb s EmptyString then None else Some s
  | None => None
  end.

Definition extractUsername (input : string) : option string :=
  if startsWith input "@" then Some input
  else or_null (match_group2 input).

(** The grammar in words: the four URL prefixes and the forms of the path. *)
Definition url_prefixes : list string :=
  ["http://youtube.com/"; "http://www.youtube.com/";
   "https://youtube.com/"; "https://www.youtube.com/"]%string.

Definition all_chars (p : ascii -> bool) (s : string) : bool :=
  forallb p (list_ascii_of_string s).

Inductive url_path : string -> Prop :=
| path_channel (body : string) (last : ascii) :
    String.length body = 21 -> all_chars is_word_dash body = true ->
    is_AQgw last = true ->
    url_path ("channel/UC" ++ body ++ String last EmptyString)%string
| path_c (name : string) :
    name <> EmptyString -> all_chars is_word_at_dash name = true ->
    url_path ("c/" ++ name)%string
| path_user (name : string) :
    name <> EmptyString -> all_chars is_word_at_dash name = true ->
    url_path ("user/" ++ name)%string
| path_bare (name : string) :
    name <> EmptyString -> all_chars is_word_at_dash name = true ->
    url_path name.

Definition recognized_url (input path : string) : Prop :=
  exists prefix, In prefix url_prefixes /\ url_path path /\
                 input = (prefix ++ path)%string.

End Handle.

(** ** Numbers read from text

    Upstream counters arrive as text.  The code reads them in three ways:
    [Number(s)] for the channel counters, [parseInt(s)] in the channel
    rollup, and SQL's [CAST(... AS INTEGER)] in the ranking queries.  The
    models cover signed decimal integers and, for [parseInt], the [0x]
    prefix; other numeric syntaxes (fractions, exponents) do not occur in
    the counters of the API and read as not-a-number here.

    A number of JavaScript is a double, and the integers of the models are
    those of [Z]: [parseInt] and [Number] below are the built-ins on texts
    whose value is at most 2^53 in absolute value, and round nothing
    above.  A statement that reads a count out of a text with them
    carries that bound where it needs it ([Counters.exact_up_to]). *)

Module Num.

Local Open Scope Z_scope.

Definition is_space (c : ascii) : bool :=
  let n := nat_of_ascii c in
  (Nat.eqb n 32 || Nat.eqb n 9 || Nat.eqb n 10 || Nat.eqb n 11
   || Nat.eqb n 12 || Nat.eqb n 13)%bool.

Fixpoint skip_spaces (w : list ascii) : list ascii :=
  match w with
  | c :: w' => if is_space c then skip_spaces w' else w
  | [] => []
  end.

Definition trim (w : list ascii) : list ascii :=
  rev (skip_spaces (rev (skip_spaces w))).

Definition digit (radix : Z) (c : ascii) : option Z :=
  let n := Z.of_nat (nat_of_ascii c) in
  let v := if (48 <=? n) && (n <=? 57) then Some (n - 48)
           else if (97 <=? n) && (n <=? 122) then Some (n - 87)
           else if (65 <=? n) && (n <=? 90) then Some (n - 55)
           else None in
  match v with
  | Some d => if d <? radix then Some d else None
  | None => None
  end.

(** The longest prefix of digits, read in [radix]; [None] when there is no
    digit at all. *)
Fixpoint digits_prefix (radix : Z) (acc : option Z) (w : list ascii) : option Z :=
  match w with
  | c :: w' =>
      match digit radix c with
      | Some d =>
          digits_prefix radix
            (Some (match acc with Some a => a * radix + d | None => d end)) w'
      | None => acc
      end
  | [] => acc
  end.

(** All of [w] is digits (and there is at least one). *)
Fixpoint digits_all (radix : Z) (acc : option Z) (w : list ascii) : option Z :=
  match w with
  | c :: w' =>
      match digit radix c with
      | Some d =>
          digits_all radix
            (Some (match acc with Some a => a * radix + d | None => d end)) w'
      | None => None
      end
  | [] => acc
  end.

Definition signed (f : list ascii -> option Z) (w : list ascii) : option Z :=
  match w with
  | "-"%char :: w' => option_map Z.opp (f w')
  | "+"%char :: w' => f w'
  | _ => f w
  end.

Definition is_x (c : ascii) : bool := Ascii.eqb c "x" || Ascii.eqb c "X".

(** [parseInt(s)] without a radix; [None] is [NaN]. *)
Definition parseInt (s : string) : option Z :=
  signed (fun w =>
            match w with
            | "0"%char :: x :: w' =>
                if is_x x then digits_prefix 16 None w'
                else digits_prefix 10 None w
            | _ => digits_prefix 10 None w
            end)
         (skip_spaces (list_ascii_of_string s)).

(** [parseInt(x)] of a field that may be missing: [undefined] reads as the
    text "undefined", which is [NaN]. *)
Definition parseInt_field (x : option string) : option Z :=
  match x with
  | Some s => parseInt s
  | None => None
  end.

(** [n || 0]: [NaN] and [0] are falsy. *)
Definition or_zero (n : option Z) : Z :=
  match n with
  | Some z => z
  | None => 0
  end.

(** [Number(s)]; [None] is [NaN].  The empty (or blank) text is [0]. *)
Definition Number (s : string) : option Z :=
  match trim (list_ascii_of_string s) with
  | [] => Some 0
  | w => signed (digits_all 10 None) w
  end.

Definition Number_field (x : option string) : option Z :=
  match x with
  | Some s => Number s
  | None => None
  end.

(** [n || null]: [NaN] and [0] become [null]. *)
Definition or_null (n : option Z) : option Z :=
  match n with
  | Some 0 => None
  | Some z => Some z
  | None => None
  end.

(** [CAST(t AS INTEGER)] on a text that is not NULL: an error ([None]) when
    the text is not a decimal integer or does not fit 32 bits. *)
Definition cast_integer (s : string) : option Z :=
  match signed (digits_all 10 None) (trim (list_ascii_of_string s)) with
  | Some z => if (-2147483648 <=? z) && (z <=? 2147483647) then Some z else None
  | None => None
  end.

End Num.

(** ** Data: API replies, descriptors, table rows *)

Module Data.

(** [fetch] followed by [response.json()]: a body, or a thrown error. *)
Inductive Fetched (A : Type) : Type :=
| NetworkError : Fetched A
| Body (a : A) : Fetched A.
Arguments NetworkError {A}.
Arguments Body {A} a.

(** The [statistics] object of a video, stored as [jsonb] as it came. *)
Record Statistics : Type := mkStatistics {
  viewCount : option string;
  likeCount : option string;
  favoriteCount : option string;
  commentCount : option string
}.

(** [interface ChannelDetails] *)
Record ChannelDetails : Type := mkChannelDetails {
  uploads : option string;
  id : option string;
  customName : option string;
  followersCount : option Z;
  viewsCount : option Z;
  videoCount : option Z;
  thumbnailHighUrl : option string
}.

Definition nullChannelDetails : ChannelDetails :=
  mkChannelDetails None None None None None None None.

(** [interface VideoDetails] *)
Record VideoDetails : Type := mkVideoDetails {
  videoId : string;
  videoTitle : string;
  thumbnailUrl : option string
}.

(** What [fetchVideoStatisticsBatch] makes of an item of the reply.  Its
    [recordedAt: new Date()] is left out: the row that is stored takes the
    database's [CURRENT_TIMESTAMP]. *)
Record VideoStatistics : Type := mkVideoStatistics {
  vs_videoId : string;
  vs_statistics : Statistics
}.

(** An item of [YouTubeChannelResponse], the fields the code reads. *)
Record ChannelItem : Type := mkChannelItem {
  item_id : option string;
  item_customUrl : option string;
  item_thumbnailHighUrl : option string;
  item_uploads : option string;
  item_subscriberCount : option string;
  item_viewCount : option string;
  item_videoCount : option string
}.

(** [YouTubeChannelResponse]: [items] may be missing. *)
Definition ChannelResponse : Type := option (list ChannelItem).

(** [PlaylistItemResponse] *)
Record PlaylistPage : Type := mkPlaylistPage {
  page_items : option (list VideoDetails);
  nextPageToken : option string
}.

(** [VideoStatisticsResponse]: [items] may be missing. *)
Definition VideoStatisticsResponse : Type := option (list VideoStatistics).

(** Rows of the three tables ([db/schema.ts] and the migrations). *)
Record ChannelRow : Type := mkChannelRow {
  c_id : string;
  c_channelName : string;
  c_thumbnail : option string;
  c_channelUploadID : string;
  c_followersCount : Z;
  c_viewsCount : Z;
  c_videoCount : Z;
  c_createdAt : Z;
  c_updatedAt : Z
}.

Record VideoRow : Type := mkVideoRow {
  v_id : string;
  v_channelId : string;
  v_title : string;
  v_url : string;
  v_thumbnailUrl : string;
  v_createdAt : Z;
  v_updatedAt : Z
}.

Record StatRow : Type := mkStatRow {
  s_id : nat;
  s_videoId : string;
  s_statistics : Statistics;
  s_recordedAt : Z
}.

Record DB : Type := mkDB {
  channels : list ChannelRow;
  videos : list VideoRow;
  videoStatistics : list StatRow
}.

(** A row of the channel rollup. *)
Record ChannelStat : Type := mkChannelStat {
  cs_channelId : string;
  cs_channelName : string;
  cs_followersCount : Z;
  cs_viewsCount : Z;
  totalLikes : Z;
  totalComments : Z
}.

End Data.

(** ** The world of a request and the monad of the handlers *)

Module Effects.
Import Data.

Local Open Scope Z_scope.

Inductive Error : Type :=
| FetchFailed      (* [fetch] or [response.json()] threw *)
| TypeError        (* a property of [undefined] was read *)
| DatabaseError    (* a statement was refused by the database *)
| EmptyValues      (* [values([])]: the query builder threw *)
| CacheError.      (* the key-value store rejected an operation *)

(** The statements the handlers send to the database. *)
Inductive Statement : Type :=
| SelectRows
| InsertChannel
| InsertVideos
| InsertVideoStatistics
| UpdateChannel (channelId : string).

(** What is outside the program: the replies of the API, whether the
    database accepts a statement, and whether the key-value store rejects
    the deletion of the cached rollup (the store is out of reach, or the
    key was written within the second). *)
Record Env : Type := mkEnv {
  channelsForHandle : string -> Fetched ChannelResponse;
  channelsById : string -> Fetched ChannelResponse;
  playlistItems : string -> option string -> Fetched PlaylistPage;
  videosList : list string -> Fetched VideoStatisticsResponse;
  refused : Statement -> bool;
  delete_rejected : bool
}.

(** An entry of the key-value cache under the key [channelStatistics]: the
    value and the time it expires. *)
Record CacheEntry : Type := mkCacheEntry {
  cached : list ChannelStat;
  expires : Z
}.

Record World : Type := mkWorld {
  totalQuotaUsed : Z;
  clock : Z;
  db : DB;
  youtube_cache : option CacheEntry;
  console : list string;
  next_statistic_id : nat
}.

Definition with_quota (q : Z) (w : World) : World :=
  mkWorld q (clock w) (db w) (youtube_cache w) (console w) (next_statistic_id w).
Definition with_db (d : DB) (w : World) : World :=
  mkWorld (totalQuotaUsed w) (clock w) d (youtube_cache w) (console w)
          (next_statistic_id w).
Definition with_cache (c : option CacheEntry) (w : World) : World :=
  mkWorld (totalQuotaUsed w) (clock w) (db w) c (console w) (next_statistic_id w).
Definition with_console (l : list string) (w : World) : World :=
  mkWorld (totalQuotaUsed w) (clock w) (db w) (youtube_cache w) l
          (next_statistic_id w).
Definition with_next_id (n : nat) (w : World) : World :=
  mkWorld (totalQuotaUsed w) (clock w) (db w) (youtube_cache w) (console w) n.

(** How a computation ends: with a value, with an exception, or not within
    the steps allowed to its loops ([Unfinished]; only the pagination loop
    of [getPlaylistVideos] can go on for ever, no handler catches that). *)
Inductive Outcome (A : Type) : Type :=
| Returned (a : A) : Outcome A
| Thrown (e : Error) : Outcome A
| Unfinished : Outcome A.
Arguments Returned {A} a.
Arguments Thrown {A} e.
Arguments Unfinished {A}.

Definition M (A : Type) : Type := World -> Outcome A * World.

Definition ret {A} (a : A) : M A := fun w => (Returned a, w).

Definition bind {A B} (m : M A) (k : A -> M B) : M B :=
  fun w => match m w with
           | (Returned a, w') => k a w'
           | (Thrown e, w') => (Thrown e, w')
           | (Unfinished, w') => (Unfinished, w')
           end.

Definition throw {A} (e : Error) : M A := fun w => (Thrown e, w).

(** [try { m } catch (error) { h error }] *)
Definition try_catch {A} (m : M A) (h : Error -> M A) : M A :=
  fun w => match m w with
           | (Returned a, w') => (Returned a, w')
           | (Thrown e, w') => h e w'
           | (Unfinished, w') => (Unfinished, w')
           end.

Definition unfinished {A} : M A := fun w => (Unfinished, w).

Definition gets {A} (f : World -> A) : M A := fun w => (Returned (f w), w).
Definition modify (f : World -> World) : M unit := fun w => (Returned tt, f w).

(** [await fetch(url)] then [await response.json()] *)
Definition fetch {A} (reply : Fetched A) : M A :=
  match reply with
  | Body a => ret a
  | NetworkError => throw FetchFailed
  end.

(** [console.error], [console.warn], [console.log] *)
Definition log (line : string) : M unit :=
  modify (fun w => with_console (console w ++ [line]) w).

(** A statement is sent; the database may refuse it (a constraint that is
    violated, a row that one statement would write twice, a connection
    that is lost). *)
Definition execute (env : Env) (st : Statement) : M unit :=
  if refused env st then throw DatabaseError else ret tt.

(** [db.insert(table).values(rows)]: on an empty list the query builder
    throws, and no statement is sent. *)
Definition values {A} (rows : list A) : M unit :=
  match rows with
  | [] => throw EmptyValues
  | _ :: _ => ret tt
  end.

(** [Promise.all] over tasks that are all started: every task runs to its
    end, and the whole is rejected when one of them is.  (The tasks are
    run here in the order of the array; with several rejections the reason
    kept is the first of the array.)

    The world that comes with a rejection is the one in which every task
    has settled.  The promise itself is rejected at the first rejection,
    and the caller may answer while other tasks are still running: what a
    statement says of the tables after a rejected [Promise.all] has to
    hold for the tasks of any list, not for the whole array only. *)
Fixpoint promise_all {A} (tasks : list (M A)) : M (list A) :=
  match tasks with
  | [] => ret []
  | t :: rest =>
      fun w =>
        let (r, w1) := t w in
        let (rs, w2) := promise_all rest w1 in
        (match r, rs with
         | Returned a, Returned l => Returned (a :: l)
         | Unfinished, _ => Unfinished
         | _, Unfinished => Unfinished
         | Thrown e, _ => Thrown e
         | Returned _, Thrown e => Thrown e
         end, w2)
  end.

(** How [Promise.all] ends, from how its tasks end. *)
Definition settle {A} (outcomes : list (Outcome A)) : Outcome (list A) :=
  fold_right (fun r rs =>
                match r, rs with
                | Returned a, Returned l => Returned (a :: l)
                | Unfinished, _ => Unfinished
                | _, Unfinished => Unfinished
                | Thrown e, _ => Thrown e
                | Returned _, Thrown e => Thrown e
                end)
             (Returned []) outcomes.

End Effects.

Declare Scope js_scope.
Delimit Scope js_scope with js.
Notation "x <- m ;; k" := (Effects.bind m (fun x => k))
  (at level 100, m at next level, right associativity) : js_scope.
Notation "m ;;; k" := (Effects.bind m (fun _ => k))
  (at level 100, right associativity) : js_scope.

(** ** The quota accountant and the upstream client *)

Module Upstream.
Import Data Effects.

Local Open Scope Z_scope.
Local Open Scope js_scope.

(** [QUOTA_COSTS] *)
Record QuotaCosts : Type := mkQuotaCosts {
  channels_list : Z; channels_update : Z;
  playlistItems_list : Z; playlistItems_insert : Z;
  playlistItems_update : Z; playlistItems_delete : Z;
  videos_list : Z; videos_insert : Z; videos_update : Z; videos_rate : Z;
  videos_getRating : Z; videos_reportAbuse : Z; videos_delete : Z;
  search_list : Z
}.

Definition QUOTA_COSTS : QuotaCosts :=
  mkQuotaCosts 1 50 1 50 50 50 1 1600 50 50 1 50 50 100.

Definition trackQuotaUsage (cost : Z) (endpoint : string) : M unit :=
  modify (fun w => with_quota (totalQuotaUsed w + cost) w).

(** A text is truthy when it is there and not empty. *)
Definition truthy (x : option string) : bool :=
  match x with
  | Some s => negb (String.eqb s EmptyString)
  | None => false
  end.

(** The [do ... while (nextPageToken)] loop of [getPlaylistVideos]; [fuel]
    bounds the number of pages. *)
Fixpoint playlist_loop (env : Env) (fuel : nat) (playlistId : string)
    (videos : list VideoDetails) (nextPageToken : option string)
    : M (list VideoDetails) :=
  match fuel with
  | O => unfinished
  | S fuel' =>
      data <- fetch (playlistItems env playlistId
                       (if truthy nextPageToken then nextPageToken else None)) ;;
      trackQuotaUsage (playlistItems_list QUOTA_COSTS) "playlistItems.list" ;;;
      items <- match page_items data with
               | Some items => ret items
               | None => throw TypeError
               end ;;
      let videos' := videos ++ items in
      if truthy (Data.nextPageToken data)
      then playlist_loop env fuel' playlistId videos' (Data.nextPageToken data)
      else ret videos'
  end.

Definition getPlaylistVideos (env : Env) (fuel : nat) (playlistId : string)
    : M (list VideoDetails) :=
  playlist_loop env fuel playlistId [] None.

Definition getChannelDetailsFromDB (env : Env) (channelId : string)
    : M (option ChannelDetails) :=
  execute env SelectRows ;;;
  rows <- gets (fun w => filter (fun r => String.eqb (c_id r) channelId)
                                (channels (db w))) ;;
  ret (match rows with
       | existingChannel :: _ =>
           Some (mkChannelDetails
                   (Some (c_channelUploadID existingChannel))
                   (Some (c_id existingChannel))
                   (Some (c_channelName existingChannel))
                   (Some (c_followersCount existingChannel))
                   (Some (c_viewsCount existingChannel))
                   (Some (c_videoCount existingChannel))
                   (c_thumbnail existingChannel))
       | [] => None
       end).

Definition channelDetailsOfItem (item : ChannelItem) : ChannelDetails :=
  mkChannelDetails
    (Handle.or_null (item_uploads item))
    (Handle.or_null (item_id item))
    (Handle.or_null (item_customUrl item))
    (Num.or_null (Num.Number_field (item_subscriberCount item)))
    (Num.or_null (Num.Number_field (item_viewCount item)))
    (Num.or_null (Num.Number_field (item_videoCount item)))
    (Handle.or_null (item_thumbnailHighUrl item)).

Definition getUploadsChannelDetail (env : Env) (username : string)
    : M ChannelDetails :=
  channelDetailsFromDB <- getChannelDetailsFromDB env username ;;
  match channelDetailsFromDB with
  | Some details => ret details
  | None =>
      try_catch
        (data <- fetch (channelsForHandle env username) ;;
         trackQuotaUsage (channels_list QUOTA_COSTS) "channels.list" ;;;
         ret (match data with
              | Some (item :: _) => channelDetailsOfItem item
              | _ => nullChannelDetails
              end))
        (fun _ =>
           log "Error fetching uploads channel ID:" ;;;
           ret nullChannelDetails)
  end.

Definition fetchVideoStatisticsBatch (env : Env) (videoIds : list string)
    : M (list VideoStatistics) :=
  try_catch
    (data <- fetch (videosList env videoIds) ;;
     trackQuotaUsage (videos_list QUOTA_COSTS) "videos.list" ;;;
     ret (match data with
          | Some items => items
          | None => []
          end))
    (fun _ =>
       log "Error fetching video statistics:" ;;;
       ret []).

Definition batchSize : nat := 50.

(** [videoIds.slice(i, j)] *)
Definition slice {A} (i j : nat) (l : list A) : list A :=
  firstn (j - i) (skipn i l).

(** The [for (let i = 0; i < videoIds.length; i += batchSize)] loop: the
    slices it pushes.  [fuel] bounds the iterations. *)
Fixpoint batch_loop (fuel i : nat) (videoIds : list string)
    : list (list string) :=
  match fuel with
  | O => []
  | S fuel' =>
      if (i <? List.length videoIds)%nat
      then slice i (i + batchSize) videoIds
             :: batch_loop fuel' (i + batchSize) videoIds
      else []
  end.

Definition batches (videoIds : list string) : list (list string) :=
  batch_loop (List.length videoIds) 0 videoIds.

Definition getVideoStatistics (env : Env) (videoIds : list string)
    : M (list VideoStatistics) :=
  results <- promise_all
               (map (fetchVideoStatisticsBatch env) (batches videoIds)) ;;
  ret (List.concat results).

(** What one batch contributes, and what it leaves in the world. *)
Definition batch_result (env : Env) (videoIds : list string)
    : list VideoStatistics :=
  match videosList env videoIds with
  | Body (Some items) => items
  | Body None => []
  | NetworkError => []
  end.

Definition batch_failed (env : Env) (videoIds : list string) : bool :=
  match videosList env videoIds with
  | Body _ => false
  | NetworkError => true
  end.

Definition batch_world (env : Env) (w : World) (videoIds : list string) : World :=
  if batch_failed env videoIds
  then with_console (console w ++ ["Error fetching video statistics:"%string]) w
  else with_quota (totalQuotaUsed w + 1) w.

End Upstream.

(** ** The snapshot store: refresh and upserts *)

Module Store.
Import Data Effects Upstream.

Local Open Scope Z_scope.
Local Open Scope js_scope.

Definition with_channels (l : list ChannelRow) (d : DB) : DB :=
  mkDB l (videos d) (videoStatistics d).
Definition with_videos (l : list VideoRow) (d : DB) : DB :=
  mkDB (channels d) l (videoStatistics d).
Definition with_videoStatistics (l : list StatRow) (d : DB) : DB :=
  mkDB (channels d) (videos d) l.

Definition or_keep {A} (new : option A) (old : A) : A :=
  match new with
  | Some a => a
  | None => old
  end.

(** [db.update(channels).set({...}).where(eq(channels.id, channelId))]; a
    value that is [undefined] is left out of the [SET].

    A table is a list of rows, and a row that is rewritten stays in its
    place.  The database promises no such thing: an update writes a new
    version of the row, and a query without [ORDER BY] may list it
    anywhere.  The place of a row is a convention of this model, here and
    in [upsert_channel] and [upsert_video], and statements about a table
    that a statement has rewritten are made up to [Permutation]. *)
Definition update_channel (now : Z) (channelId : string) (channel : ChannelItem)
    (r : ChannelRow) : ChannelRow :=
  if String.eqb (c_id r) channelId
  then mkChannelRow (c_id r)
         (or_keep (item_customUrl channel) (c_channelName r))
         (match item_thumbnailHighUrl channel with
          | Some t => Some t
          | None => c_thumbnail r
          end)
         (or_keep (item_uploads channel) (c_channelUploadID r))
         (c_followersCount r) (c_viewsCount r) (c_videoCount r)
         (c_createdAt r) now
  else r.

Definition refreshChannelDetails (env : Env) (channelId : string) : M unit :=
  try_catch
    (data <- fetch (channelsById env channelId) ;;
     trackQuotaUsage (channels_list QUOTA_COSTS) "channels.list" ;;;
     match data with
     | Some (channel :: _) =>
         execute env (UpdateChannel channelId) ;;;
         modify (fun w =>
                   with_db (with_channels
                              (map (update_channel (clock w) channelId channel)
                                   (channels (db w)))
                              (db w)) w) ;;;
         log ("Updated channel details for channel ID: " ++ channelId)
     | _ => log ("No channel found with ID: " ++ channelId)
     end)
    (fun error =>
       log ("Error refreshing channel details for channel ID: " ++ channelId) ;;;
       throw error).

(** [refreshAllChannelDetails]; [pLimit(5)] only delays the start of a
    task, every task is run. *)
Definition refreshAllChannelDetails (env : Env) : M (list (string * string)) :=
  execute env SelectRows ;;;
  allChannels <- gets (fun w => map (fun r => (c_id r, c_channelName r))
                                    (channels (db w))) ;;
  promise_all (map (fun channel => refreshChannelDetails env (fst channel))
                   allChannels) ;;;
  log "Refreshed details for all channels." ;;;
  ret allChannels.

Definition has_channel (channelId : string) (l : list ChannelRow) : bool :=
  existsb (fun r => String.eqb (c_id r) channelId) l.

(** [insert ... onConflictDoUpdate({ target: channels.id, set: ... })];
    the row that is in conflict is rewritten in its place (a convention,
    see [update_channel]). *)
Definition upsert_channel (now : Z) (new : ChannelRow) (l : list ChannelRow)
    : list ChannelRow :=
  if has_channel (c_id new) l
  then map (fun r =>
              if String.eqb (c_id r) (c_id new)
              then mkChannelRow (c_id r) (c_channelName new) (c_thumbnail new)
                     (c_channelUploadID new)
                     (c_followersCount r) (c_viewsCount r) (c_videoCount r)
                     (c_createdAt r) now
              else r) l
  else l ++ [new].

Definition insertChannel (env : Env) (channelId channelThumbnail
    channelUpload : string) (followers_count views_count video_count : Z)
    (channelName : string) : M (option ChannelRow) :=
  execute env InsertChannel ;;;
  now <- gets clock ;;
  modify (fun w =>
            with_db (with_channels
                       (upsert_channel now
                          (mkChannelRow channelId channelName
                             (Some channelThumbnail) channelUpload
                             followers_count views_count video_count now now)
                          (channels (db w)))
                       (db w)) w) ;;;
  gets (fun w => find (fun r => String.eqb (c_id r) channelId)
                      (channels (db w))).

Definition has_video (videoId : string) (l : list VideoRow) : bool :=
  existsb (fun r => String.eqb (v_id r) videoId) l.

(** [insert ... onConflictDoUpdate({ target: videos.id, set: ... })] for
    one row of the [values]; the row that is in conflict is rewritten in
    its place (a convention, see [update_channel]). *)
Definition upsert_video (now : Z) (l : list VideoRow) (new : VideoRow)
    : list VideoRow :=
  if has_video (v_id new) l
  then map (fun r =>
              if String.eqb (v_id r) (v_id new)
              then mkVideoRow (v_id r) (v_channelId r) (v_title new) (v_url r)
                     (v_thumbnailUrl new) (v_createdAt r) now
              else r) l
  else l ++ [new].

Definition videoRow (now : Z) (channelId : string) (video : VideoDetails)
    : VideoRow :=
  mkVideoRow (videoId video) channelId (videoTitle video)
    ("https://www.youtube.com/watch?v=" ++ videoId video)
    (match Handle.or_null (thumbnailUrl video) with
     | Some t => t
     | None => EmptyString
     end)
    now now.

Definition insertVideos (env : Env) (videoDetails : list VideoDetails)
    (channelId : string) : M unit :=
  values videoDetails ;;;
  execute env InsertVideos ;;;
  modify (fun w =>
            with_db (with_videos
                       (fold_left (upsert_video (clock w))
                          (map (videoRow (clock w) channelId) videoDetails)
                          (videos (db w)))
                       (db w)) w).

(** The rows appended for [videoStats], numbered from [n]. *)
Fixpoint statRows (now : Z) (n : nat) (videoStats : list VideoStatistics)
    : list StatRow :=
  match videoStats with
  | [] => []
  | stat :: rest =>
      mkStatRow n (vs_videoId stat) (vs_statistics stat) now
        :: statRows now (S n) rest
  end.

Definition insertVideoStatistics (env : Env) (videoStats : list VideoStatistics)
    : M Z :=
  try_catch
    (values videoStats ;;;
     execute env InsertVideoStatistics ;;;
     modify (fun w =>
               with_next_id (next_statistic_id w + List.length videoStats)%nat
                 (with_db (with_videoStatistics
                             (videoStatistics (db w)
                                ++ statRows (clock w) (next_statistic_id w)
                                     videoStats)
                             (db w)) w)) ;;;
     ret (Z.of_nat (List.length videoStats)))
    (fun error =>
       log "Error inserting video statistics:" ;;;
       throw error).

(** How the refresh of one channel ends; it does not depend on the world. *)
Definition refresh_outcome (env : Env) (channelId : string) : Outcome unit :=
  match channelsById env channelId with
  | NetworkError => Thrown FetchFailed
  | Body (Some (_ :: _)) =>
      if refused env (UpdateChannel channelId) then Thrown DatabaseError
      else Returned tt
  | Body _ => Returned tt
  end.

(** What [refreshAllChannelDetails] selects. *)
Definition allChannels (w : World) : list (string * string) :=
  map (fun r => (c_id r, c_channelName r)) (channels (db w)).

End Store.

(** ** Queries: joins, latest snapshot, rankings, rollup *)

Module Queries.
Import Data Effects.

Local Open Scope Z_scope.

(** [l LEFT JOIN r ON on]: every row of [l] with each row of [r] that
    matches it, or once with NULLs when none does. *)
Definition leftJoin {A B} (on : A -> B -> bool) (l : list A) (r : list B)
    : list (A * option B) :=
  flat_map (fun a =>
              match filter (on a) r with
              | [] => [(a, None)]
              | bs => map (fun b => (a, Some b)) bs
              end) l.

Fixpoint maximum (x : Z) (l : list Z) : Z :=
  match l with
  | [] => x
  | y :: l' => maximum (Z.max x y) l'
  end.

Definition snapshots_of (vid : string) (stats : list StatRow) : list StatRow :=
  filter (fun s => String.eqb (s_videoId s) vid) stats.

(** A row of the subquery
    [SELECT video_id, MAX(recorded_at) ... GROUP BY video_id]. *)
Record Latest : Type := mkLatest {
  l_videoId : string;
  latestRecordedAt : Z
}.

Definition latestVideoStatistics (stats : list StatRow) : list Latest :=
  flat_map (fun vid =>
              match map s_recordedAt (snapshots_of vid stats) with
              | [] => []
              | t :: ts => [mkLatest vid (maximum t ts)]
              end)
           (nodup string_dec (map s_videoId stats)).

(** [eq(videoStatistics.videoId, latest.videoId) AND
     eq(videoStatistics.recordedAt, latest.latestRecordedAt)]: with a NULL on
    either side the condition is not true. *)
Definition is_latest (s : option StatRow) (l : option Latest) : bool :=
  match s, l with
  | Some s, Some l =>
      String.eqb (s_videoId s) (l_videoId l)
      && (s_recordedAt s =? latestRecordedAt l)
  | _, _ => false
  end.

Definition JoinedRow : Type :=
  (((VideoRow * option StatRow) * option Latest) * option ChannelRow)%type.

Definition jr_video (r : JoinedRow) : VideoRow := fst (fst (fst r)).
Definition jr_stat (r : JoinedRow) : option StatRow := snd (fst (fst r)).
Definition jr_latest (r : JoinedRow) : option Latest := snd (fst r).
Definition jr_channel (r : JoinedRow) : option ChannelRow := snd r.

(** The [FROM ... LEFT JOIN ... WHERE ...] that the four ranking queries
    share. *)
Definition latest_rows (d : DB) : list JoinedRow :=
  filter (fun r => is_latest (jr_stat r) (jr_latest r))
    (leftJoin (fun r c => String.eqb (v_channelId (fst (fst r))) (c_id c))
       (leftJoin (fun r l => is_latest (snd r) (Some l))
          (leftJoin (fun v s => String.eqb (v_id v) (s_videoId s))
             (videos d) (videoStatistics d))
          (latestVideoStatistics (videoStatistics d)))
       (channels d)).

(** The part of [latest_rows] that comes from one row of [videos]. *)
Definition rows_for (d : DB) (v : VideoRow) : list JoinedRow :=
  filter (fun r => is_latest (jr_stat r) (jr_latest r))
    (leftJoin (fun r c => String.eqb (v_channelId (fst (fst r))) (c_id c))
       (leftJoin (fun r l => is_latest (snd r) (Some l))
          (leftJoin (fun v s => String.eqb (v_id v) (s_videoId s))
             [v] (videoStatistics d))
          (latestVideoStatistics (videoStatistics d)))
       (channels d)).

(** The rows of the ranking queries that belong to one video. *)
Definition rows_of (v : VideoRow) (d : DB) : list JoinedRow :=
  filter (fun r => String.eqb (v_id (jr_video r)) (v_id v)) (latest_rows d).

(** The snapshots of a video whose [recordedAt] is the greatest. *)
Definition newest (vid : string) (stats : list StatRow) : list StatRow :=
  match snapshots_of vid stats with
  | [] => []
  | s :: rest =>
      filter (fun x => s_recordedAt x
                       =? maximum (s_recordedAt s) (map s_recordedAt rest))
             (s :: rest)
  end.


(** [COALESCE(CAST(statistics->>'field' AS INTEGER), 0)]; [None] when the
    cast is an error, which fails the whole query. *)
Definition metric (field : Statistics -> option string) (s : option StatRow)
    : option Z :=
  match s with
  | Some s =>
      match field (s_statistics s) with
      | Some text => Num.cast_integer text
      | None => Some 0
      end
  | None => Some 0
  end.

(** A row of a ranking; [/videos/top-channel-views] alone selects the
    [channelId]. *)
Record RankedVideo : Type := mkRankedVideo {
  r_channelId : string;
  r_channelName : option string;
  r_videoId : string;
  r_title : string;
  r_value : Z
}.

Definition select_row (field : Statistics -> option string) (r : JoinedRow)
    : option RankedVideo :=
  option_map (mkRankedVideo (v_channelId (jr_video r))
                (option_map c_channelName (jr_channel r))
                (v_id (jr_video r)) (v_title (jr_video r)))
             (metric field (jr_stat r)).

Fixpoint select_all {A B} (f : A -> option B) (l : list A) : option (list B) :=
  match l with
  | [] => Some []
  | a :: l' =>
      match f a, select_all f l' with
      | Some b, Some bs => Some (b :: bs)
      | _, _ => None
      end
  end.

(** [ORDER BY]: a stable insertion sort; the order of rows that compare
    equal is the engine's business, here they keep their order. *)
Fixpoint insert_by {A} (le : A -> A -> bool) (a : A) (l : list A) : list A :=
  match l with
  | [] => [a]
  | b :: l' => if le a b then a :: l else b :: insert_by le a l'
  end.

Definition order_by {A} (le : A -> A -> bool) (l : list A) : list A :=
  fold_right (insert_by le) [] l.

Definition by_value_desc (a b : RankedVideo) : bool := r_value b <=? r_value a.

(** [ORDER BY videos.channelId, views DESC], texts compared by code. *)
Definition by_channel_then_value_desc (a b : RankedVideo) : bool :=
  match String.compare (r_channelId a) (r_channelId b) with
  | Lt => true
  | Eq => r_value b <=? r_value a
  | Gt => false
  end.

(** The query of [/videos/top-views], [/videos/top-likes] and
    [/videos/top-comments], for the field each of them reads. *)
Definition top_query (field : Statistics -> option string) (limit : nat)
    (d : DB) : option (list RankedVideo) :=
  option_map (fun rows => firstn limit (order_by by_value_desc rows))
             (select_all (select_row field) (latest_rows d)).

(** The [reduce] of [/videos/top-channel-views]: the first row of each
    channel, in the order the channels are met ([Object.values] of an
    object whose keys are not numbers). *)
Definition first_per_channel (rows : list RankedVideo) : list RankedVideo :=
  fold_left (fun acc video =>
               if existsb (fun a => String.eqb (r_channelId a) (r_channelId video)) acc
               then acc else acc ++ [video])
            rows [].

Definition top_channel_query (d : DB) : option (list RankedVideo) :=
  option_map (fun rows =>
                first_per_channel (order_by by_channel_then_value_desc rows))
             (select_all (select_row viewCount) (latest_rows d)).

(** [/channels/:id]: the videos of the channel, each with its snapshots. *)
Record VideoWithStatistics : Type := mkVideoWithStatistics {
  vws_video : VideoRow;
  vws_statistics : list StatRow
}.

Definition channel_videos_query (channelId : string) (d : DB)
    : list VideoWithStatistics :=
  let allVideos :=
    filter (fun v => String.eqb (v_channelId v) channelId) (videos d) in
  let videoIds := map v_id allVideos in
  let allVideoStatistics :=
    filter (fun s => existsb (String.eqb (s_videoId s)) videoIds)
           (videoStatistics d) in
  map (fun video =>
         mkVideoWithStatistics video
           (filter (fun stat => String.eqb (s_videoId stat) (v_id video))
                   allVideoStatistics))
      allVideos.

(** The rows of [/statistics]:
    [channels LEFT JOIN videos LEFT JOIN videoStatistics].  The query has
    no [ORDER BY]: the order of the rows below, channel by channel and
    video by video, is one of those that the database may choose, and
    statements about the rollup are made for every permutation of them. *)
Definition StatisticsRow : Type :=
  ((ChannelRow * option VideoRow) * option StatRow)%type.

Definition statistics_rows (d : DB) : list StatisticsRow :=
  leftJoin (fun r s => match snd r with
                       | Some v => String.eqb (s_videoId s) (v_id v)
                       | None => false
                       end)
    (leftJoin (fun c v => String.eqb (v_channelId v) (c_id c))
       (channels d) (videos d))
    (videoStatistics d).

(** [channelStatisticsMap]: a [Map], in the order of insertion. *)
Definition has_key (k : string) (m : list ChannelStat) : bool :=
  existsb (fun e => String.eqb (cs_channelId e) k) m.

Definition add_counts (k : string) (likes comments : Z) (m : list ChannelStat)
    : list ChannelStat :=
  map (fun e =>
         if String.eqb (cs_channelId e) k
         then mkChannelStat (cs_channelId e) (cs_channelName e)
                (cs_followersCount e) (cs_viewsCount e)
                (totalLikes e + likes) (totalComments e + comments)
         else e) m.

(** The body of [allData.forEach]. *)
Definition aggregate_row (m : list ChannelStat) (row : StatisticsRow)
    : list ChannelStat :=
  let channel := fst (fst row) in
  if String.eqb (c_id channel) EmptyString then m
  else
    let m1 := if has_key (c_id channel) m then m
              else m ++ [mkChannelStat (c_id channel) (c_channelName channel)
                           (c_followersCount channel) (c_viewsCount channel)
                           0 0] in
    match snd row with
    | Some stat =>
        add_counts (c_id channel)
          (Num.or_zero (Num.parseInt_field (likeCount (s_statistics stat))))
          (Num.or_zero (Num.parseInt_field (commentCount (s_statistics stat))))
          m1
    | None => m1
    end.

Definition channelStatistics (d : DB) : list ChannelStat :=
  fold_left aggregate_row (statistics_rows d) [].

(** *** What the rollup amounts to *)

(** What the rollup adds for a snapshot: [parseInt(field) || 0]. *)
Definition snapshot_value (field : Statistics -> option string) (s : StatRow) : Z :=
  Num.or_zero (Num.parseInt_field (field (s_statistics s))).

Definition sumZ (l : list Z) : Z := fold_right Z.add 0 l.

(** The sum of a field over every snapshot of every video of a channel. *)
Definition history_total (field : Statistics -> option string)
    (channelId : string) (d : DB) : Z :=
  sumZ (map (fun v => sumZ (map (snapshot_value field)
                            (snapshots_of (v_id v) (videoStatistics d))))
           (filter (fun v => String.eqb (v_channelId v) channelId) (videos d))).

(** [channelStatisticsMap.get(key)] *)
Definition lookup (k : string) (m : list ChannelStat) : option ChannelStat :=
  find (fun e => String.eqb (cs_channelId e) k) m.

(** [channelStats.totalLikes += likes; channelStats.totalComments +=
    comments] *)
Definition bump (e : ChannelStat) (likes comments : Z) : ChannelStat :=
  mkChannelStat (cs_channelId e) (cs_channelName e) (cs_followersCount e)
    (cs_viewsCount e) (totalLikes e + likes) (totalComments e + comments).

(** What a row of [/statistics] adds to its channel. *)
Definition row_value (field : Statistics -> option string) (row : StatisticsRow) : Z :=
  match snd row with
  | Some stat => snapshot_value field stat
  | None => 0
  end.

(** [row.channelId === k] *)
Definition of_channel (k : string) (row : StatisticsRow) : bool :=
  String.eqb (c_id (fst (fst row))) k.

(** The rows of [/statistics] that come from one channel. *)
Definition channel_rows (d : DB) (c : ChannelRow) : list StatisticsRow :=
  leftJoin (fun r s => match snd r with
                       | Some v => String.eqb (s_videoId s) (v_id v)
                       | None => false
                       end)
    (leftJoin (fun c v => String.eqb (v_channelId v) (c_id c)) [c] (videos d))
    (videoStatistics d).

End Queries.

(** ** The routes *)

Module Routes.
Import Data Effects Upstream Store Queries.

Local Open Scope Z_scope.
Local Open Scope js_scope.

(** The cache holds one key, [channelStatistics]. *)
Definition cache_get : M (option (list ChannelStat)) :=
  gets (fun w => match youtube_cache w with
                 | Some e => if clock w <? expires e then Some (cached e) else None
                 | None => None
                 end).

Definition cache_put (value : list ChannelStat) (expirationTtl : Z) : M unit :=
  modify (fun w => with_cache (Some (mkCacheEntry value (clock w + expirationTtl))) w).

(** [youtube_cache.delete('channelStatistics')]; the store may reject it,
    and then the entry is taken to be still there. *)
Definition cache_delete (env : Env) : M unit :=
  if delete_rejected env then throw CacheError else modify (with_cache None).

(** *** [GET /statistics] *)

Inductive StatisticsResponse : Type :=
| StatisticsOk (data : list ChannelStat) (source : string)
| StatisticsError.   (* 500 *)

Definition get_statistics (env : Env) : M StatisticsResponse :=
  try_catch
    (cachedData <- cache_get ;;
     match cachedData with
     | Some data => ret (StatisticsOk data "cache")
     | None =>
         execute env SelectRows ;;;
         d <- gets db ;;
         cache_put (channelStatistics d) 3600 ;;;
         ret (StatisticsOk (channelStatistics d) "database")
     end)
    (fun _ =>
       log "Error fetching channel statistics:" ;;;
       ret StatisticsError).

(** *** [POST /channels/refresh] *)

Inductive RefreshResponse : Type :=
| RefreshOk (quotaUsed : Z) (updatedChannels : list (string * string))
| RefreshError (quotaUsed : Z).   (* 500 *)

Definition post_channels_refresh (env : Env) : M RefreshResponse :=
  modify (with_quota 0) ;;;
  try_catch
    (updatedChannels <- refreshAllChannelDetails env ;;
     quotaUsed <- gets totalQuotaUsed ;;
     ret (RefreshOk quotaUsed updatedChannels))
    (fun _ =>
       log "Error refreshing all channels:" ;;;
       quotaUsed <- gets totalQuotaUsed ;;
       ret (RefreshError quotaUsed)).

(** *** The rankings *)

Inductive RankingResponse : Type :=
| RankingOk (data : list RankedVideo)
| RankingError.   (* 500 *)

Definition ranking (env : Env) (query : DB -> option (list RankedVideo))
    (complaint : string) : M RankingResponse :=
  try_catch
    (execute env SelectRows ;;;
     d <- gets db ;;
     match query d with
     | Some rows => ret (RankingOk rows)
     | None => throw DatabaseError
     end)
    (fun _ => log complaint ;;; ret RankingError).

(** [limit] is [parseInt(c.req.query('limit') || '5', 10)], taken here as
    the number it yields. *)
Definition get_videos_top_views (env : Env) (limit : nat) : M RankingResponse :=
  ranking env (top_query viewCount limit) "Error fetching top viewed videos:".

Definition get_videos_top_likes (env : Env) (limit : nat) : M RankingResponse :=
  ranking env (top_query likeCount limit) "Error fetching top liked videos:".

Definition get_videos_top_comments (env : Env) (limit : nat) : M RankingResponse :=
  ranking env (top_query commentCount limit)
    "Error fetching top commented videos:".

Definition get_videos_top_channel_views (env : Env) : M RankingResponse :=
  ranking env top_channel_query "Error fetching top viewed videos per channel:".

(** *** [GET /channels/:id] *)

Inductive ChannelVideosResponse : Type :=
| ChannelVideosOk (data : list VideoWithStatistics)
| ChannelVideosBadRequest      (* 400 *)
| ChannelVideosNotFound        (* 404 *)
| ChannelVideosError.          (* 500 *)

Definition get_channels_id (env : Env) (channelId : string)
    : M ChannelVideosResponse :=
  try_catch
    (if String.eqb channelId EmptyString then ret ChannelVideosBadRequest
     else
       execute env SelectRows ;;;
       d <- gets db ;;
       if has_channel channelId (channels d)
       then execute env SelectRows ;;;
            execute env SelectRows ;;;
            ret (ChannelVideosOk (channel_videos_query channelId d))
       else ret ChannelVideosNotFound)
    (fun _ =>
       log "Error fetching videos with statistics:" ;;;
       ret ChannelVideosError).

(** *** [GET /], the ingestion *)

(** The answers of the route; [elapsedTime] and [Date] of the JSON report,
    read from the wall clock, are left out. *)
Inductive IngestResponse : Type :=
| IngestText (status : Z) (body : string)
| IngestJson (insertedCount : Z) (quotaUsed : Z) (channel : option ChannelRow)
    (video : list VideoStatistics).   (* 200 *)

Definition status (r : IngestResponse) : Z :=
  match r with
  | IngestText s _ => s
  | IngestJson _ _ _ _ => 200
  end.

Definition invalid_input : string :=
  "Invalid input (either a YouTube URL or a username is required)".

Definition truthy_number (x : option Z) : bool :=
  match x with
  | Some z => negb (z =? 0)
  | None => false
  end.

(** The test of line 1026, negated: every field of the descriptor is
    truthy. *)
Definition complete (d : ChannelDetails) : bool :=
  truthy (id d) && truthy (customName d) && truthy (thumbnailHighUrl d)
  && truthy (uploads d) && truthy_number (followersCount d)
  && truthy_number (videoCount d) && truthy_number (viewsCount d).

Definition text (x : option string) : string :=
  match x with
  | Some s => s
  | None => EmptyString
  end.

Definition number (x : option Z) : Z :=
  match x with
  | Some z => z
  | None => 0
  end.

Definition get_root (env : Env) (fuel : nat) (url : option string)
    : M IngestResponse :=
  modify (with_quota 0) ;;;
  try_catch
    (if negb (truthy url) then ret (IngestText 400 "URL or username is missing")
     else
       match Handle.extractUsername (text url) with
       | None => ret (IngestText 400 invalid_input)
       | Some username =>
           if String.eqb username EmptyString then ret (IngestText 400 invalid_input)
           else
             ChannelDetails <- getUploadsChannelDetail env username ;;
             if negb (complete ChannelDetails)
             then ret (IngestText 400 invalid_input)
             else
               videos <- getPlaylistVideos env fuel (text (uploads ChannelDetails)) ;;
               if (List.length videos =? 0)%nat
               then ret (IngestText 200 "No videos found in the playlist.")
               else
                 let videoIds := map videoId videos in
                 stats <- getVideoStatistics env videoIds ;;
                 channel <- insertChannel env (text (id ChannelDetails))
                              (text (thumbnailHighUrl ChannelDetails))
                              (text (uploads ChannelDetails))
                              (number (followersCount ChannelDetails))
                              (number (viewsCount ChannelDetails))
                              (number (videoCount ChannelDetails))
                              (text (customName ChannelDetails)) ;;
                 insertVideos env videos (text (id ChannelDetails)) ;;;
                 insertedVideoStatisticsCount <- insertVideoStatistics env stats ;;
                 cache_delete env ;;;
                 quotaUsed <- gets totalQuotaUsed ;;
                 ret (IngestJson insertedVideoStatisticsCount quotaUsed
                        channel stats)
       end)
    (fun _ =>
       log "Error:" ;;;
       ret (IngestText 500 "Internal Server Error")).

End Routes.

(** ** The rollup as the specification words it

    "For every channel, sum the latest like-count and comment-count across
    all its items", the latest value of an item being the field of its
    snapshot with the maximum [recordedAt].  This is the reference that
    [Queries.channelStatistics] is compared with. *)

Module SpecRollup.
Import Data Queries.

Local Open Scope Z_scope.

Definition latest_snapshot (vid : string) (stats : list StatRow)
    : option StatRow :=
  match snapshots_of vid stats with
  | [] => None
  | s :: rest =>
      let top := maximum (s_recordedAt s) (map s_recordedAt rest) in
      find (fun x => s_recordedAt x =? top) (s :: rest)
  end.

Definition latest_value (field : Statistics -> option string) (vid : string)
    (stats : list StatRow) : Z :=
  match latest_snapshot vid stats with
  | Some s => Num.or_zero (Num.parseInt_field (field (s_statistics s)))
  | None => 0
  end.

Definition latest_total (field : Statistics -> option string)
    (channelId : string) (d : DB) : Z :=
  fold_right Z.add 0
    (map (fun v => latest_value field (v_id v) (videoStatistics d))
         (filter (fun v => String.eqb (v_channelId v) channelId) (videos d))).

End SpecRollup.

(** ** The rankings as the specification word them

    "If the group is empty, the item is reported with all statistics
    defaulting to zero (never omitted from a result set -- callers expect
    one row per requested item)."  This is the reference that
    [Queries.top_query] and [Queries.top_channel_query] are compared
    with. *)

Module SpecRanking.
Import Data Queries.

Local Open Scope Z_scope.

(** One row for each video of the table, with the value of its latest
    snapshot, and zero when it has none. *)
Definition reported (field : Statistics -> option string) (d : DB)
    : list (string * Z) :=
  map (fun v => (v_id v,
                 SpecRollup.latest_value field (v_id v) (videoStatistics d)))
      (videos d).

(** The rows that the ranking queries join, before their [WHERE]. *)
Definition joined_rows (d : DB) : list JoinedRow :=
  leftJoin (fun r c => String.eqb (v_channelId (fst (fst r))) (c_id c))
    (leftJoin (fun r l => is_latest (snd r) (Some l))
       (leftJoin (fun v s => String.eqb (v_id v) (s_videoId s))
          (videos d) (videoStatistics d))
       (latestVideoStatistics (videoStatistics d)))
    (channels d).

End SpecRanking.

(** ** Requests one after the other *)

Module Server.
Import Data Effects Routes.

Local Open Scope Z_scope.

Inductive Request : Type :=
| Ingest (env : Env) (fuel : nat) (url : option string)
| Statistics (env : Env)
| Refresh (env : Env)
| TopViews (env : Env) (limit : nat)
| TopLikes (env : Env) (limit : nat)
| TopComments (env : Env) (limit : nat)
| TopChannelViews (env : Env)
| ChannelVideos (env : Env) (channelId : string)
| Elapse (seconds : Z).

Definition with_clock (t : Z) (w : World) : World :=
  mkWorld (totalQuotaUsed w) t (db w) (youtube_cache w) (console w)
          (next_statistic_id w).

(** The world after a request has been answered (or after time has
    passed). *)
Definition step (w : World) (r : Request) : World :=
  match r with
  | Ingest env fuel url => snd (get_root env fuel url w)
  | Statistics env => snd (get_statistics env w)
  | Refresh env => snd (post_channels_refresh env w)
  | TopViews env limit => snd (get_videos_top_views env limit w)
  | TopLikes env limit => snd (get_videos_top_likes env limit w)
  | TopComments env limit => snd (get_videos_top_comments env limit w)
  | TopChannelViews env => snd (get_videos_top_channel_views env w)
  | ChannelVideos env channelId => snd (get_channels_id env channelId w)
  | Elapse seconds => with_clock (clock w + Z.max 0 seconds) w
  end.

Definition run (requests : list Request) (w : World) : World :=
  fold_left step requests w.

End Server.

(** ** Relations between the world before and after a computation *)

Module Keeps.
Import Data Effects Store.

(** [keeps R m]: the world after [m] is related by [R] to the world
    before, however [m] ends. *)
Definition keeps {A} (R : World -> World -> Prop) (m : M A) : Prop :=
  forall w, R w (snd (m w)).

(** The relations that are followed: preorders that do not look at the
    console. *)
Record lawful (R : World -> World -> Prop) : Prop := mkLawful {
  law_refl : forall w, R w w;
  law_trans : forall w1 w2 w3, R w1 w2 -> R w2 w3 -> R w1 w3;
  law_console : forall w l, R w (with_console l w)
}.

(** What a relation may also disregard. *)
Definition allows_quota (R : World -> World -> Prop) : Prop :=
  forall w q, R w (with_quota q w).
Definition allows_channels (R : World -> World -> Prop) : Prop :=
  forall w l, R w (with_db (with_channels l (db w)) w).
Definition allows_videos (R : World -> World -> Prop) : Prop :=
  forall w l, R w (with_db (with_videos l (db w)) w).
Definition allows_snapshots (R : World -> World -> Prop) : Prop :=
  forall w l n, R w (with_next_id n (with_db (with_videoStatistics l (db w)) w)).
Definition allows_cache_delete (R : World -> World -> Prop) : Prop :=
  forall w, R w (with_cache None w).

(** Two instances: the cache, the clock and the snapshots are kept; the
    cache is kept or emptied. *)
Definition quiet (w w' : World) : Prop :=
  youtube_cache w' = youtube_cache w /\ clock w' = clock w /\
  videoStatistics (db w') = videoStatistics (db w) /\
  next_statistic_id w' = next_statistic_id w.

Definition cache_kept_or_gone (w w' : World) : Prop :=
  youtube_cache w' = youtube_cache w \/ youtube_cache w' = None.

End Keeps.

(** ** Data for the scenarios *)

Module Examples.
Import Data Effects Upstream Store Queries Routes.
Local Open Scope Z_scope.
Local Open Scope string_scope.

Definition label (prefix : string) (n : nat) : string :=
  prefix ++ NilEmpty.string_of_uint (Nat.to_uint n).

Definition counts (views likes comments : string) : Statistics :=
  mkStatistics (Some views) (Some likes) (Some "0") (Some comments).

Definition channel1 : ChannelRow :=
  mkChannelRow "UC1" "@one" (Some "https://img/1") "UU1" 100 1000 1 0 0.

Definition videoA : VideoRow :=
  mkVideoRow "A" "UC1" "first" "https://www.youtube.com/watch?v=A" EmptyString 0 0.

(** Video A with two snapshots, at times 1 and 3. *)
Definition db_history : DB :=
  mkDB [channel1] [videoA]
    [mkStatRow 0 "A" (counts "50" "10" "1") 1;
     mkStatRow 1 "A" (counts "90" "30" "2") 3].

(** Video A without a snapshot. *)
Definition db_no_snapshot : DB := mkDB [channel1] [videoA] [].

(** Video A with two snapshots recorded at the same time. *)
Definition db_tie : DB :=
  mkDB [channel1] [videoA]
    [mkStatRow 0 "A" (counts "50" "10" "1") 7;
     mkStatRow 1 "A" (counts "90" "30" "2") 7].

Definition empty_db : DB := mkDB [] [] [].

Definition world_of (d : DB) : World := mkWorld 0 0 d None [] 0.

Definition item1 : ChannelItem :=
  mkChannelItem (Some "UC1") (Some "@one") (Some "https://img/1") (Some "UU1")
    (Some "100") (Some "1000") (Some "101").

(** The same channel, reported with no subscriber. *)
Definition item_no_follower : ChannelItem :=
  mkChannelItem (Some "UC1") (Some "@one") (Some "https://img/1") (Some "UU1")
    (Some "0") (Some "1000") (Some "101").

Definition video_details (from count : nat) : list VideoDetails :=
  map (fun n => mkVideoDetails (label "v" n) (label "title " n) None)
      (seq from count).

(** A playlist of 101 videos on two pages (pages of more than the 50
    results that are asked for: two pages of 50 fill two batches only). *)
Definition page1 : PlaylistPage :=
  mkPlaylistPage (Some (video_details 0 60)) (Some "next").
Definition page2 : PlaylistPage :=
  mkPlaylistPage (Some (video_details 60 41)) None.

Definition reply_statistics (videoIds : list string) : VideoStatisticsResponse :=
  Some (map (fun v => mkVideoStatistics v (counts "3" "2" "1")) videoIds).

(** An API that answers every call. *)
Definition env_up : Env :=
  mkEnv (fun _ => Body (Some [item1]))
        (fun _ => Body (Some [item1]))
        (fun _ token => match token with
                        | None => Body page1
                        | Some _ => Body page2
                        end)
        (fun videoIds => Body (reply_statistics videoIds))
        (fun _ => false) false.

(** The same, but the call for the last batch (of one id) fails. *)
Definition env_batch_down : Env :=
  mkEnv (channelsForHandle env_up) (channelsById env_up) (playlistItems env_up)
        (fun videoIds => if (List.length videoIds =? 1)%nat then NetworkError
                         else Body (reply_statistics videoIds))
        (fun _ => false) false.

(** The same as [env_up], for a channel reported with no subscriber. *)
Definition env_no_follower : Env :=
  mkEnv (fun _ => Body (Some [item_no_follower])) (channelsById env_up)
        (playlistItems env_up) (videosList env_up) (fun _ => false) false.

(** Ten channels; the call for the fourth fails. *)
Definition db_ten : DB :=
  mkDB (map (fun n => mkChannelRow (label "UC" n) (label "@c" n) None
                        (label "UU" n) 1 1 1 0 0) (seq 0 10)) [] [].

Definition env_fourth_down : Env :=
  mkEnv (channelsForHandle env_up)
        (fun channelId => if String.eqb channelId "UC3" then NetworkError
                          else Body (Some [item1]))
        (playlistItems env_up) (videosList env_up) (fun _ => false) false.

(** A world whose cache holds a rollup that has not expired. *)
Definition stale : list ChannelStat := [mkChannelStat "UC1" "@one" 100 1000 10 1].

Definition world_cached : World :=
  mkWorld 7 100 db_history (Some (mkCacheEntry stale 3000)) [] 2.

End Examples.

(** ** What the writes keep of a row *)

Module Columns.
Import Data Store.

(** The columns of a channel that no statement of the program changes once
    the row exists. *)
Record ChannelFixed : Type := mkChannelFixed {
  cf_id : string;
  cf_followersCount : Z;
  cf_viewsCount : Z;
  cf_videoCount : Z;
  cf_createdAt : Z
}.

Definition channel_fixed (r : ChannelRow) : ChannelFixed :=
  mkChannelFixed (c_id r) (c_followersCount r) (c_viewsCount r)
    (c_videoCount r) (c_createdAt r).

(** The columns of a video that [insertVideos] leaves alone on a
    conflict. *)
Record VideoFixed : Type := mkVideoFixed {
  vf_id : string;
  vf_channelId : string;
  vf_url : string;
  vf_createdAt : Z
}.

Definition video_fixed (r : VideoRow) : VideoFixed :=
  mkVideoFixed (v_id r) (v_channelId r) (v_url r) (v_createdAt r).

(** Everything of a video but [updatedAt]. *)
Definition video_content (r : VideoRow) : VideoFixed * (string * string) :=
  (video_fixed r, (v_title r, v_thumbnailUrl r)).

(** A table is settled for a list of videos when each of them has a row
    and every row with its id carries its title and its thumbnail. *)
Definition settled (videoDetails : list VideoDetails) (l : list VideoRow) : Prop :=
  forall video, In video videoDetails ->
    has_video (videoId video) l = true /\
    forall r, In r l -> v_id r = videoId video ->
      v_title r = videoTitle video /\
      v_thumbnailUrl r = v_thumbnailUrl (videoRow 0 EmptyString video).

End Columns.

(** ** What the requests keep of the world *)

Module Invariants.
Import Data Effects Store Columns.

(** The snapshots of [w] are still there in [w'], in their place. *)
Definition snapshots_grow (w w' : World) : Prop :=
  exists added,
    videoStatistics (db w') = videoStatistics (db w) ++ added.

(** From [w] to [w'] only name, thumbnail, upload id and [updatedAt] of
    channels may have changed, and the order of their rows (and the quota
    and the console). *)
Definition channels_renamed (w w' : World) : Prop :=
  Permutation (map channel_fixed (channels (db w')))
    (map channel_fixed (channels (db w))) /\
  videos (db w') = videos (db w) /\
  videoStatistics (db w') = videoStatistics (db w) /\
  youtube_cache w' = youtube_cache w /\ clock w' = clock w.

(** Ids that identify the channels and the videos of [w] still do in
    [w']. *)
Definition ids_kept_unique (w w' : World) : Prop :=
  (NoDup (map c_id (channels (db w))) -> NoDup (map c_id (channels (db w')))) /\
  (NoDup (map v_id (videos (db w))) -> NoDup (map v_id (videos (db w')))).

(** An entry of the rollup carries what the row of its channel holds. *)
Definition of_row (cs : list ChannelRow) (e : ChannelStat) : Prop :=
  exists c, In c cs /\ cs_channelId e = c_id c /\
            cs_channelName e = c_channelName c /\
            cs_followersCount e = c_followersCount c /\
            cs_viewsCount e = c_viewsCount c.

(** The tables of [w'] are those of [w]. *)
Definition untouched_db (w w' : World) : Prop := db w' = db w.

(** The tables, the cache and the clock are those of [w]. *)
Definition untouched (w w' : World) : Prop :=
  db w' = db w /\ youtube_cache w' = youtube_cache w /\ clock w' = clock w
  /\ next_statistic_id w' = next_statistic_id w.




End Invariants.

(** ** Playlists of any number of pages *)

Module Pagination.
Import Data Effects Upstream.

(** [pages] are what the upstream answers to the successive requests of
    the loop of [getPlaylistVideos], from the request made with [token]
    on: each request is answered with the next page, which has [items]. *)
Fixpoint chain (env : Env) (playlistId : string) (token : option string)
    (pages : list PlaylistPage) : Prop :=
  match pages with
  | [] => True
  | page :: rest =>
      playlistItems env playlistId (if truthy token then token else None)
      = Body page /\
      page_items page <> None /\
      chain env playlistId (nextPageToken page) rest
  end.

(** The page names a next page. *)
Definition more (page : PlaylistPage) : Prop :=
  truthy (nextPageToken page) = true.

(** The token the loop holds after [pages]. *)
Definition last_token (token : option string) (pages : list PlaylistPage)
    : option string :=
  fold_left (fun _ page => nextPageToken page) pages token.

Definition items_of (pages : list PlaylistPage) : list VideoDetails :=
  flat_map (fun page => match page_items page with
                        | Some items => items
                        | None => []
                        end) pages.

End Pagination.

(** ** Counters as the upstream writes them *)

Module Counters.

(** The decimal text of a count, as the API sends its counters. *)
Definition decimal (n : N) : string := NilZero.string_of_uint (N.to_uint n).

(** Up to [2^53] every count is a number of JavaScript, and the integers
    of the model are what [parseInt] and [Number] return; above it they
    return a neighbour. *)
Definition exact_up_to : N := 9007199254740992.

(** The characters of such a text. *)
Definition numerals : list ascii :=
  ["0"; "1"; "2"; "3"; "4"; "5"; "6"; "7"; "8"; "9"]%char.

End Counters.

(** ** Kinds of requests *)

Module Traffic.
Import Server.

(** The request is not an ingestion. *)
Definition not_ingest (r : Request) : Prop :=
  match r with
  | Ingest _ _ _ => False
  | _ => True
  end.

End Traffic.

(** ** Two more routes: [/videos/statistics] and [/all-video] *)

Module Listings.
Import Data Effects Upstream Store Routes.

Local Open Scope Z_scope.
Local Open Scope js_scope.

(** [s.split(',')] *)
Fixpoint split (s : string) : list string :=
  match s with
  | EmptyString => [EmptyString]
  | String c s' =>
      if Ascii.eqb c ","
      then EmptyString :: split s'
      else match split s' with
           | first :: rest => String c first :: rest
           | [] => [String c EmptyString]
           end
  end.

(** The text holds no comma. *)
Definition comma_free (s : string) : Prop :=
  forallb (fun c => negb (Ascii.eqb c ",")) (list_ascii_of_string s) = true.

(** *** [GET /videos/statistics] *)

Inductive SnapshotsResponse : Type :=
| SnapshotsOk (data : list StatRow)
| SnapshotsBadRequest      (* 400 *)
| SnapshotsError.          (* 500 *)

Definition get_videos_statistics (env : Env) (videoIds : option string)
    : M SnapshotsResponse :=
  try_catch
    (if negb (truthy videoIds) then ret SnapshotsBadRequest
     else
       let videoIdsArray := split (text videoIds) in
       execute env SelectRows ;;;
       d <- gets db ;;
       ret (SnapshotsOk
              (filter (fun s => existsb (String.eqb (s_videoId s)) videoIdsArray)
                      (videoStatistics d))))
    (fun _ =>
       log "Error fetching video statistics:" ;;;
       ret SnapshotsError).

(** *** [GET /all-video] *)

(** [.limit(limit).offset(offset)] on a select without [ORDER BY], the
    rows taken in the order of the table.  A number that is [NaN] (here
    [None]) or [0] adds no [OFFSET] clause, a [NaN] adds no [LIMIT]
    clause, and the database refuses a negative [OFFSET].  What a [LIMIT]
    of zero or below selects depends on the version of the query builder
    (no clause, [LIMIT 0], or a statement that the database refuses): it
    is left to [nonpositive]. *)
Definition offset_rows (offset : option Z) (l : list VideoRow)
    : option (list VideoRow) :=
  match offset with
  | None => Some l
  | Some o => if o <? 0 then None else Some (skipn (Z.to_nat o) l)
  end.

Definition limit_offset
    (nonpositive : Z -> option Z -> list VideoRow -> option (list VideoRow))
    (limit offset : option Z) (l : list VideoRow) : option (list VideoRow) :=
  match limit with
  | None => offset_rows offset l
  | Some n =>
      if 0 <? n then option_map (firstn (Z.to_nat n)) (offset_rows offset l)
      else nonpositive n offset l
  end.

(** [Math.ceil(totalCount / limit)]; [None] is a [NaN] or an infinity,
    which the JSON reply writes as [null]. *)
Definition total_pages (totalCount : Z) (limit : option Z) : option Z :=
  match limit with
  | Some 0 => None
  | Some l => Some (- ((- totalCount) / l))
  | None => None
  end.

(** The reply; [total] is the count of the rows, whether the driver hands
    it over as a number or as a text. *)
Inductive AllVideoResponse : Type :=
| AllVideoOk (videos : list VideoRow) (page limit : option Z) (total : Z)
    (totalPages : option Z)
| AllVideoError.   (* 500 *)

Definition get_all_video (env : Env)
    (nonpositive : Z -> option Z -> list VideoRow -> option (list VideoRow))
    (pageQuery limitQuery : option string) : M AllVideoResponse :=
  try_catch
    (let page := if truthy pageQuery then Num.parseInt (text pageQuery)
                 else Some 1 in
     let limit := if truthy limitQuery then Num.parseInt (text limitQuery)
                  else Some 10 in
     let offset := match page, limit with
                   | Some p, Some l => Some ((p - 1) * l)
                   | _, _ => None
                   end in
     execute env SelectRows ;;;
     d <- gets db ;;
     match limit_offset nonpositive limit offset (videos d) with
     | None => throw DatabaseError
     | Some allVideos =>
         execute env SelectRows ;;;
         let totalCount := Z.of_nat (List.length (videos d)) in
         ret (AllVideoOk allVideos page limit totalCount
                (total_pages totalCount limit))
     end)
    (fun _ =>
       log "Error fetching all data:" ;;;
       ret AllVideoError).

(** The rows of page [page], asked for with [limit] rows a page. *)
Definition page_rows (env : Env)
    (nonpositive : Z -> option Z -> list VideoRow -> option (list VideoRow))
    (limit : N) (w : World) (page : nat) : list VideoRow :=
  match fst (get_all_video env nonpositive
               (Some (Counters.decimal (N.of_nat page)))
               (Some (Counters.decimal limit)) w) with
  | Returned (AllVideoOk videos _ _ _ _) => videos
  | _ => []
  end.

End Listings.

(** ** More data to run the definitions on *)

Module Cases.
Import Data Effects Upstream Store Queries Routes Server Examples.
Local Open Scope Z_scope.
Local Open Scope string_scope.

Definition channel2 : ChannelRow :=
  mkChannelRow "UC2" "@two" None "UU2" 200 2000 2 0 0.

Definition videoB : VideoRow :=
  mkVideoRow "B" "UC1" "second" "https://www.youtube.com/watch?v=B" EmptyString 0 0.

Definition videoC : VideoRow :=
  mkVideoRow "C" "UC2" "third" "https://www.youtube.com/watch?v=C" EmptyString 0 0.

(** Two channels; A has 90 views at its latest snapshot, B 70 and C 20. *)
Definition db_three : DB :=
  mkDB [channel1; channel2] [videoA; videoB; videoC]
    [mkStatRow 0 "A" (counts "50" "10" "1") 1;
     mkStatRow 1 "A" (counts "90" "30" "2") 3;
     mkStatRow 2 "B" (counts "70" "5" "0") 2;
     mkStatRow 3 "C" (counts "20" "4" "9") 2].


(** An API whose [channels.list] by id answers with a new name and a new
    upload playlist, and no thumbnail. *)
Definition env_rename : Env :=
  mkEnv (channelsForHandle env_up)
        (fun channelId =>
           Body (Some [mkChannelItem (Some channelId) (Some ("@new-" ++ channelId))
                          None (Some ("UU-" ++ channelId)) None None None]))
        (playlistItems env_up) (videosList env_up) (fun _ => false) false.

(** The lookup of a handle fails. *)
Definition env_lookup_down : Env :=
  mkEnv (fun _ => NetworkError) (channelsById env_up) (playlistItems env_up)
        (videosList env_up) (fun _ => false) false.

(** The second page of every playlist cannot be fetched. *)
Definition env_page_down : Env :=
  mkEnv (channelsForHandle env_up) (channelsById env_up)
        (fun _ token => match token with
                        | None => Body page1
                        | Some _ => NetworkError
                        end)
        (videosList env_up) (fun _ => false) false.

(** The key-value store rejects the deletion of the cached rollup. *)
Definition env_delete_down : Env :=
  mkEnv (channelsForHandle env_up) (channelsById env_up) (playlistItems env_up)
        (videosList env_up) (fun _ => false) true.

(** No call of [videos.list] is answered. *)
Definition env_batches_down : Env :=
  mkEnv (channelsForHandle env_up) (channelsById env_up) (playlistItems env_up)
        (fun _ => NetworkError) (fun _ => false) false.

(** A playlist of three pages. *)
Definition pageA : PlaylistPage :=
  mkPlaylistPage (Some (video_details 0 2)) (Some "t1").
Definition pageB : PlaylistPage :=
  mkPlaylistPage (Some (video_details 2 2)) (Some "t2").
Definition pageC : PlaylistPage :=
  mkPlaylistPage (Some (video_details 4 1)) None.

Definition env_three_pages : Env :=
  mkEnv (channelsForHandle env_up) (channelsById env_up)
        (fun _ token => match token with
                        | None => Body pageA
                        | Some t => if String.eqb t "t1" then Body pageB
                                    else Body pageC
                        end)
        (videosList env_up) (fun _ => false) false.

(** A query builder that writes no [LIMIT] clause for a limit of zero or
    below. *)
Definition no_clause (limit : Z) (offset : option Z) (l : list VideoRow)
    : option (list VideoRow) :=
  Listings.offset_rows offset l.

(** A refresh, a ranking and a rollup, with some waiting in between. *)
Definition quiet_traffic : list Request :=
  [Refresh env_rename; Elapse 1000; TopViews env_up 5; Statistics env_up;
   Elapse 500].

End Cases.

(** * Properties *)

(** ** Regular expressions: the matcher decides the language *)

Module RegexFacts.
Import Regex.

Lemma lang_cat_inv r s w :
  lang (Cat r s) w <-> exists u v, w = u ++ v /\ lang r u /\ lang s v.
Proof.
  split.
  - intros H. inversion H; subst. eauto.
  - intros (u & v & -> & Hu & Hv). now constructor.
Qed.

Lemma lang_alt_inv r s w : lang (Alt r s) w <-> lang r w \/ lang s w.
Proof.
  split.
  - intros H. inversion H; subst; auto.
  - intros [H | H]; [now apply lang_alt_l | now apply lang_alt_r].
Qed.

Lemma lang_eps_inv w : lang Eps w <-> w = [].
Proof.
  split.
  - intros H. now inversion H.
  - intros ->. constructor.
Qed.

Lemma lang_class_inv p w : lang (Class p) w <-> exists c, w = [c] /\ p c = true.
Proof.
  split.
  - intros H. inversion H; subst. eauto.
  - intros (c & -> & Hc). now constructor.
Qed.

Lemma lang_void_inv w : ~ lang Void w.
Proof. intros H. inversion H. Qed.

Lemma nullable_lang r : nullable r = true <-> lang r [].
Proof.
  induction r; simpl.
  - split; [discriminate | intros H; inversion H].
  - split; [constructor | reflexivity].
  - split; [discriminate | intros H; inversion H].
  - rewrite andb_true_iff, IHr1, IHr2, lang_cat_inv. split.
    + intros [H1 H2]. exists [], []. auto.
    + intros (u & v & E & Hu & Hv). symmetry in E.
      apply app_eq_nil in E as [-> ->]. auto.
  - now rewrite orb_true_iff, IHr1, IHr2, lang_alt_inv.
  - split; [constructor | reflexivity].
Qed.

Lemma star_cons_inv r c w :
  lang (Star r) (c :: w) ->
  exists u v, w = u ++ v /\ lang r (c :: u) /\ lang (Star r) v.
Proof.
  intros H. remember (Star r) as sr eqn:Esr. remember (c :: w) as cw eqn:Ecw.
  induction H; try discriminate.
  injection Esr as ->. destruct u as [|a u]; simpl in Ecw.
  - auto.
  - injection Ecw as -> <-. eauto.
Qed.

Lemma deriv_lang c r : forall w, lang (deriv c r) w <-> lang r (c :: w).
Proof.
  induction r; intros w; simpl.
  - split; intros H; inversion H.
  - split; intros H; inversion H.
  - destruct (p c) eqn:Hp.
    + rewrite lang_eps_inv, lang_class_inv. split.
      * intros ->. eauto.
      * intros (a & E & _). now injection E.
    + rewrite lang_class_inv. split.
      * intros H. inversion H.
      * intros (a & E & Ha). injection E as -> _. congruence.
  - assert (Hcat : lang (Cat (deriv c r1) r2) w <->
                   exists u v, w = u ++ v /\ lang r1 (c :: u) /\ lang r2 v).
    { rewrite lang_cat_inv. split; intros (u & v & E & Hu & Hv);
        exists u, v; rewrite IHr1 in *; auto. }
    assert (Hsplit : lang (Cat r1 r2) (c :: w) <->
                     (exists u v, w = u ++ v /\ lang r1 (c :: u) /\ lang r2 v)
                     \/ (lang r1 [] /\ lang r2 (c :: w))).
    { rewrite lang_cat_inv. split.
      - intros (u & v & E & Hu & Hv). destruct u as [|a u]; simpl in E.
        + right. subst v. auto.
        + injection E as <- ->. left. eauto.
      - intros [(u & v & -> & Hu & Hv) | [Hu Hv]].
        + exists (c :: u), v. auto.
        + exists [], (c :: w). auto. }
    destruct (nullable r1) eqn:Hn.
    + rewrite lang_alt_inv, Hcat, IHr2, Hsplit.
      apply nullable_lang in Hn. tauto.
    + rewrite Hcat, Hsplit. split; [tauto|].
      intros [H | [H _]]; [assumption|].
      apply nullable_lang in H. congruence.
  - now rewrite !lang_alt_inv, IHr1, IHr2.
  - rewrite lang_cat_inv. split.
    + intros (u & v & -> & Hu & Hv). apply IHr in Hu.
      now apply (lang_star_cons r (c :: u) v).
    + intros H. apply star_cons_inv in H as (u & v & -> & Hu & Hv).
      exists u, v. rewrite IHr. auto.
Qed.

Lemma matches_lang w : forall r, matches r w = true <-> lang r w.
Proof.
  induction w as [|c w IH]; intros r; simpl.
  - apply nullable_lang.
  - now rewrite IH, deriv_lang.
Qed.

Lemma lang_LitW w u : lang (LitW w) u <-> u = w.
Proof.
  revert u. induction w as [|c w IH]; intros u; simpl.
  - apply lang_eps_inv.
  - rewrite lang_cat_inv. split.
    + intros (a & b & -> & Ha & Hb). apply lang_class_inv in Ha as (x & -> & Hx).
      apply Ascii.eqb_eq in Hx. apply IH in Hb. now subst.
    + intros ->. exists [c], w. repeat split.
      * constructor. apply Ascii.eqb_refl.
      * now apply IH.
Qed.

Lemma lang_Opt r u : lang (Opt r) u <-> lang r u \/ u = [].
Proof. unfold Opt. now rewrite lang_alt_inv, lang_eps_inv. Qed.

Lemma lang_star_class p u : lang (Star (Class p)) u <-> forallb p u = true.
Proof.
  split.
  - intros H. remember (Star (Class p)) as sr eqn:E.
    induction H; try discriminate; [reflexivity|].
    injection E as ->. apply lang_class_inv in H as (c & -> & Hc).
    simpl. rewrite Hc. auto.
  - induction u as [|c u IH]; simpl; intros H.
    + constructor.
    + apply andb_true_iff in H as [Hc Hu].
      apply (lang_star_cons (Class p) [c] u); [now constructor | auto].
Qed.

Lemma lang_plus_class p u :
  lang (Plus (Class p)) u <-> u <> [] /\ forallb p u = true.
Proof.
  unfold Plus. rewrite lang_cat_inv. split.
  - intros (a & b & -> & Ha & Hb). apply lang_class_inv in Ha as (c & -> & Hc).
    apply lang_star_class in Hb. simpl. rewrite Hc. split; [discriminate | auto].
  - intros [Hne H]. destruct u as [|c u]; [congruence|]. simpl in H.
    apply andb_true_iff in H as [Hc Hu]. exists [c], u. repeat split.
    + now constructor.
    + now apply lang_star_class.
Qed.

Lemma lang_rep_class n p : forall u,
  lang (Rep n (Class p)) u <-> List.length u = n /\ forallb p u = true.
Proof.
  induction n as [|n IH]; intros u; simpl.
  - rewrite lang_eps_inv. split.
    + intros ->. auto.
    + intros [H _]. now apply length_zero_iff_nil.
  - rewrite lang_cat_inv. split.
    + intros (a & b & -> & Ha & Hb). apply lang_class_inv in Ha as (c & -> & Hc).
      apply IH in Hb as [Hl Hb]. simpl. rewrite Hc, Hl. auto.
    + intros [Hl H]. destruct u as [|c u]; [discriminate|]. simpl in *.
      apply andb_true_iff in H as [Hc Hu]. exists [c], u. repeat split.
      * now constructor.
      * apply IH. split; [lia | auto].
Qed.

Lemma find_split_sound g w : forall h t,
  find_split h g w = Some t -> exists p, w = p ++ t /\ lang h p /\ lang g t.
Proof.
  induction w as [|c w IH]; intros h t; simpl.
  - destruct (nullable h && nullable g) eqn:E; [|discriminate].
    intros [= <-]. apply andb_true_iff in E as [Hh Hg].
    exists []. repeat split; now apply nullable_lang.
  - destruct (nullable h && matches (deriv c g) w) eqn:E.
    + intros [= <-]. apply andb_true_iff in E as [Hh Hg].
      exists []. repeat split.
      * now apply nullable_lang.
      * now apply (matches_lang (c :: w)).
    + intros H. apply IH in H as (p & -> & Hp & Ht).
      exists (c :: p). repeat split; auto. now apply deriv_lang.
Qed.

Lemma find_split_complete g t p : forall h,
  lang h p -> lang g t -> exists t', find_split h g (p ++ t) = Some t'.
Proof.
  induction p as [|c p IH]; intros h Hp Ht.
  - simpl app. apply nullable_lang in Hp. apply matches_lang in Ht.
    destruct t; simpl in *; rewrite Hp, Ht; simpl; eauto.
  - simpl. destruct (nullable h && matches (deriv c g) (p ++ t)); [eauto|].
    apply IH; [now apply deriv_lang | assumption].
Qed.

End RegexFacts.

(** ** [extractUsername] *)

Module HandleFacts.
Import Regex RegexFacts Handle.

Lemma chars_app (a b : string) :
  list_ascii_of_string (a ++ b) = list_ascii_of_string a ++ list_ascii_of_string b.
Proof. induction a as [|c a IH]; simpl; [reflexivity | now rewrite IH]. Qed.

Lemma text_app (u v : list ascii) :
  string_of_list_ascii (u ++ v)
  = (string_of_list_ascii u ++ string_of_list_ascii v)%string.
Proof. induction u as [|c u IH]; simpl; [reflexivity | now rewrite IH]. Qed.

Lemma chars_length (s : string) :
  List.length (list_ascii_of_string s) = String.length s.
Proof. induction s as [|c s IH]; simpl; [reflexivity | now rewrite IH]. Qed.

Lemma chars_text (s : string) (w : list ascii) :
  string_of_list_ascii w = s <-> w = list_ascii_of_string s.
Proof.
  split; intros H; subst.
  - now rewrite list_ascii_of_string_of_list_ascii.
  - now rewrite string_of_list_ascii_of_string.
Qed.

Lemma lang_Lit s u : lang (Lit s) u <-> u = list_ascii_of_string s.
Proof. apply lang_LitW. Qed.

(** The words of [urlHead] are the four prefixes. *)
Lemma lang_urlHead p :
  lang urlHead p <-> In (string_of_list_ascii p) url_prefixes.
Proof.
  split.
  - unfold urlHead. intros H.
    apply lang_cat_inv in H as (a & r1 & -> & Ha & H).
    apply lang_cat_inv in H as (b & r2 & -> & Hb & H).
    apply lang_cat_inv in H as (c & r3 & -> & Hc & H).
    apply lang_cat_inv in H as (d & e & -> & Hd & He).
    apply lang_Lit in Ha, Hc, He. subst a c e.
    apply lang_Opt in Hb, Hd. rewrite !lang_Lit in Hb, Hd.
    destruct Hb as [-> | ->], Hd as [-> | ->]; simpl; auto.
  - intros H. apply matches_lang. simpl in H.
    repeat (destruct H as [H | H];
            [symmetry in H; apply chars_text in H; subst p; reflexivity|]).
    contradiction.
Qed.

(** Two prefixes that start the same text are the same prefix. *)
Lemma url_prefix_unique p p' t t' :
  In p url_prefixes -> In p' url_prefixes ->
  (p ++ t)%string = (p' ++ t')%string -> p = p' /\ t = t'.
Proof.
  simpl. intros Hp Hp' E.
  repeat (destruct Hp as [<- | Hp]); try contradiction;
    repeat (destruct Hp' as [<- | Hp']); try contradiction;
    simpl in E; try discriminate E;
    (split; [reflexivity | congruence]).
Qed.

Lemma all_chars_text p w : all_chars p (string_of_list_ascii w) = forallb p w.
Proof. unfold all_chars. now rewrite list_ascii_of_string_of_list_ascii. Qed.

Lemma text_nonempty w : string_of_list_ascii w <> EmptyString <-> w <> [].
Proof. destruct w; simpl; split; congruence. Qed.

(** The words of the second group are the paths of the grammar. *)
Lemma lang_urlGroup2 t :
  lang urlGroup2 t <-> url_path (string_of_list_ascii t).
Proof.
  split.
  - unfold urlGroup2. intros H. apply lang_alt_inv in H as [H | H].
    + apply lang_cat_inv in H as (a & r & -> & Ha & H).
      apply lang_cat_inv in H as (body & l & -> & Hb & Hl).
      apply lang_Lit in Ha. subst a.
      apply lang_rep_class in Hb as [Hlen Hb].
      apply lang_class_inv in Hl as (last & -> & Hl).
      rewrite !text_app. apply path_channel; auto.
      * now rewrite <- chars_length, list_ascii_of_string_of_list_ascii.
      * now rewrite all_chars_text.
    + apply lang_cat_inv in H as (a & name & -> & Ha & Hn).
      apply lang_plus_class in Hn as [Hne Hn].
      assert (Hne' := proj2 (text_nonempty name) Hne).
      assert (Hn' : all_chars is_word_at_dash (string_of_list_ascii name) = true)
        by now rewrite all_chars_text.
      apply lang_Opt in Ha as [Ha | ->].
      * apply lang_alt_inv in Ha as [Ha | Ha]; apply lang_Lit in Ha; subst a;
          rewrite text_app; [now apply path_c | now apply path_user].
      * now apply path_bare.
  - intros H. remember (string_of_list_ascii t) as s eqn:Es.
    symmetry in Es. apply chars_text in Es. subst t.
    unfold urlGroup2. destruct H as [body last Hlen Hb Hl | name Hne Hn
                                    | name Hne Hn | name Hne Hn].
    + apply lang_alt_l. rewrite !chars_app.
      apply lang_cat; [now apply lang_Lit|]. apply lang_cat.
      * apply lang_rep_class. now rewrite chars_length.
      * now constructor.
    + apply lang_alt_r. rewrite chars_app. apply lang_cat.
      * apply lang_Opt. left. apply lang_alt_l. now apply lang_Lit.
      * apply lang_plus_class. split; [|exact Hn].
        destruct name; [congruence | discriminate].
    + apply lang_alt_r. rewrite chars_app. apply lang_cat.
      * apply lang_Opt. left. apply lang_alt_r. now apply lang_Lit.
      * apply lang_plus_class. split; [|exact Hn].
        destruct name; [congruence | discriminate].
    + apply lang_alt_r. apply (lang_cat _ _ [] _).
      * apply lang_Opt. now right.
      * apply lang_plus_class. split; [|exact Hn].
        destruct name; [congruence | discriminate].
Qed.

Lemma url_path_nonempty path : url_path path -> path <> EmptyString.
Proof. intros [ | | | ]; simpl; try discriminate. assumption. Qed.

Lemma match_group2_sound input path :
  match_group2 input = Some path -> recognized_url input path.
Proof.
  unfold match_group2. destruct (find_split _ _ _) as [t|] eqn:E; [|discriminate].
  intros [= <-]. apply find_split_sound in E as (p & E & Hp & Ht).
  exists (string_of_list_ascii p). repeat split.
  - now apply lang_urlHead.
  - now apply lang_urlGroup2.
  - rewrite <- text_app, <- E. now rewrite string_of_list_ascii_of_string.
Qed.

Lemma match_group2_complete input path :
  recognized_url input path -> match_group2 input = Some path.
Proof.
  intros (prefix & Hp & Hpath & ->).
  assert (Hl : lang urlHead (list_ascii_of_string prefix))
    by (apply lang_urlHead; now rewrite string_of_list_ascii_of_string).
  assert (Hg : lang urlGroup2 (list_ascii_of_string path))
    by (apply lang_urlGroup2; now rewrite string_of_list_ascii_of_string).
  destruct (find_split_complete _ _ _ _ Hl Hg) as (t' & E).
  destruct (match_group2 (prefix ++ path)) as [path'|] eqn:E'.
  - apply match_group2_sound in E' as (prefix' & Hp' & _ & E').
    apply url_prefix_unique in E' as [_ ->]; auto.
  - unfold match_group2 in E'. rewrite chars_app, E in E'. discriminate.
Qed.

Lemma recognized_not_handle input path :
  recognized_url input path -> startsWith input "@" = false.
Proof.
  intros (prefix & Hp & _ & ->). simpl in Hp.
  repeat (destruct Hp as [<- | Hp]; [reflexivity|]). contradiction.
Qed.

(** C9. A text that starts with [@] is taken as it is; a URL of the grammar
    (one of the four prefixes, then [channel/UC] with 21 characters of
    [[\w-]] and one of [A Q g w], or [c/], [user/] or a bare name of
    [[\w@-]]) resolves to its path; every other text gives [null], and there
    is no other outcome. *)
Theorem extractUsername_resolves (input : string) :
  (startsWith input "@" = true -> extractUsername input = Some input) /\
  (forall path, recognized_url input path -> extractUsername input = Some path) /\
  (startsWith input "@" = false ->
   (forall path, ~ recognized_url input path) ->
   extractUsername input = None).
Proof.
  unfold extractUsername. repeat split.
  - now intros ->.
  - intros path H. rewrite (recognized_not_handle _ _ H).
    rewrite (match_group2_complete _ _ H). simpl.
    destruct (String.eqb_spec path EmptyString); [|reflexivity].
    destruct H as (_ & _ & Hpath & _). now apply url_path_nonempty in Hpath.
  - intros -> Hno. destruct (match_group2 input) as [path|] eqn:E; [|reflexivity].
    apply match_group2_sound in E. now apply Hno in E.
Qed.

(** C9 at work: a [c/] URL. *)
Lemma extractUsername_resolves_witness :
  extractUsername "https://www.youtube.com/c/rocq" = Some "c/rocq"%string.
Proof.
  apply (proj1 (proj2 (extractUsername_resolves _))).
  exists "https://www.youtube.com/"%string. repeat split.
  - simpl. tauto.
  - apply (path_c "rocq"); [discriminate | reflexivity].
Defined.

End HandleFacts.

(** ** The statistics batches *)

Module BatchFacts.
Import Data Effects Upstream.

Lemma slice_batch {A} i (l : list A) :
  slice i (i + batchSize) l = firstn batchSize (skipn i l).
Proof. unfold slice. f_equal. lia. Qed.

(** With enough fuel the loop stops on its own condition, and the slices
    it pushed are the list from [i] on, cut every [batchSize]. *)
Lemma batch_loop_concat videoIds : forall fuel i,
  List.length videoIds - i <= fuel ->
  List.concat (batch_loop fuel i videoIds) = skipn i videoIds.
Proof.
  induction fuel as [|fuel IH]; intros i Hfuel; simpl.
  - symmetry. apply skipn_all2. lia.
  - destruct (Nat.ltb_spec i (List.length videoIds)) as [Hi | Hi].
    + simpl. rewrite IH by (unfold batchSize; lia). rewrite slice_batch.
      transitivity (firstn batchSize (skipn i videoIds)
                    ++ skipn batchSize (skipn i videoIds));
        [|apply firstn_skipn].
      f_equal. rewrite skipn_skipn. f_equal. lia.
    + symmetry. apply skipn_all2. lia.
Qed.

Lemma batch_loop_length videoIds : forall fuel i,
  List.length videoIds - i <= fuel ->
  List.length (batch_loop fuel i videoIds)
  = (List.length videoIds - i + 49) / 50.
Proof.
  induction fuel as [|fuel IH]; intros i Hfuel.
  - replace (List.length videoIds - i) with 0 by lia. reflexivity.
  - cbn [batch_loop].
    destruct (Nat.ltb_spec i (List.length videoIds)) as [Hi | Hi].
    + cbn [List.length]. unfold batchSize. rewrite IH by lia.
      destruct (Nat.le_gt_cases (List.length videoIds) (i + 50)) as [Hs | Hl].
      * replace (List.length videoIds - (i + 50)) with 0 by lia.
        change ((0 + 49) / 50) with 0.
        apply (Nat.div_unique _ 50 1 (List.length videoIds - i - 1)); lia.
      * replace (List.length videoIds - i + 49)
          with ((List.length videoIds - (i + 50) + 49) + 1 * 50) by lia.
        rewrite Nat.div_add by lia. lia.
    + replace (List.length videoIds - i) with 0 by lia. reflexivity.
Qed.

Lemma batch_loop_sizes videoIds : forall fuel i,
  Forall (fun b => 1 <= List.length b <= batchSize) (batch_loop fuel i videoIds).
Proof.
  induction fuel as [|fuel IH]; intros i; simpl; [constructor|].
  destruct (Nat.ltb_spec i (List.length videoIds)) as [Hi | Hi]; [|constructor].
  constructor; [|apply IH].
  rewrite slice_batch, length_firstn, length_skipn. unfold batchSize. lia.
Qed.

Lemma batches_concat videoIds : List.concat (batches videoIds) = videoIds.
Proof. unfold batches. rewrite batch_loop_concat by lia. reflexivity. Qed.

Lemma batches_length videoIds :
  List.length (batches videoIds) = (List.length videoIds + 49) / 50.
Proof.
  unfold batches. rewrite batch_loop_length by lia. now rewrite Nat.sub_0_r.
Qed.

Lemma fetchVideoStatisticsBatch_run env videoIds w :
  fetchVideoStatisticsBatch env videoIds w
  = (Returned (batch_result env videoIds), batch_world env w videoIds).
Proof.
  unfold fetchVideoStatisticsBatch, batch_result, batch_world, batch_failed,
    try_catch, bind, fetch.
  destruct (videosList env videoIds) as [|[items|]]; reflexivity.
Qed.

Lemma promise_all_batches env bs : forall w,
  promise_all (map (fetchVideoStatisticsBatch env) bs) w
  = (Returned (map (batch_result env) bs), fold_left (batch_world env) bs w).
Proof.
  induction bs as [|b bs IH]; intros w; simpl; [reflexivity|].
  now rewrite fetchVideoStatisticsBatch_run, IH.
Qed.

Lemma getVideoStatistics_run env videoIds w :
  getVideoStatistics env videoIds w
  = (Returned (List.concat (map (batch_result env) (batches videoIds))),
     fold_left (batch_world env) (batches videoIds) w).
Proof.
  unfold getVideoStatistics, bind. now rewrite promise_all_batches.
Qed.

Lemma batch_worlds_console env bs : forall w,
  console (fold_left (batch_world env) bs w)
  = console w
    ++ repeat "Error fetching video statistics:"%string
         (List.length (filter (batch_failed env) bs)).
Proof.
  induction bs as [|b bs IH]; intros w; simpl.
  - now rewrite app_nil_r.
  - rewrite IH. unfold batch_world. destruct (batch_failed env b); simpl.
    + now rewrite <- app_assoc.
    + reflexivity.
Qed.

Lemma batch_worlds_quota env bs : forall w,
  totalQuotaUsed (fold_left (batch_world env) bs w)
  = (totalQuotaUsed w
     + Z.of_nat (List.length (filter (fun b => negb (batch_failed env b)) bs)))%Z.
Proof.
  induction bs as [|b bs IH]; intros w; simpl.
  - lia.
  - rewrite IH. unfold batch_world. destruct (batch_failed env b); simpl; lia.
Qed.

Lemma batch_worlds_frame env bs : forall w,
  let w' := fold_left (batch_world env) bs w in
  db w' = db w /\ youtube_cache w' = youtube_cache w /\ clock w' = clock w
  /\ next_statistic_id w' = next_statistic_id w.
Proof.
  induction bs as [|b bs IH]; intros w; simpl; [auto|].
  destruct (IH (batch_world env w b)) as (H1 & H2 & H3 & H4).
  rewrite H1, H2, H3, H4. unfold batch_world.
  destruct (batch_failed env b); auto.
Qed.

(** C8. The ids are cut, in order, into [ceil(n/50)] batches of at most 50;
    [getVideoStatistics] always returns, with the replies of the batches
    one after the other, a batch whose call failed counting for nothing;
    each failed batch leaves one line on the console and nothing else. *)
Theorem getVideoStatistics_batches (env : Env) (videoIds : list string) (w : World) :
  List.concat (batches videoIds) = videoIds /\
  List.length (batches videoIds) = (List.length videoIds + 49) / 50 /\
  Forall (fun b => 1 <= List.length b <= 50) (batches videoIds) /\
  fst (getVideoStatistics env videoIds w)
  = Returned (List.concat
                (map (fun b => match videosList env b with
                               | Body (Some items) => items
                               | _ => []
                               end) (batches videoIds))) /\
  console (snd (getVideoStatistics env videoIds w))
  = console w
    ++ repeat "Error fetching video statistics:"%string
         (List.length (filter (fun b => match videosList env b with
                                        | NetworkError => true
                                        | Body _ => false
                                        end) (batches videoIds))).
Proof.
  split; [apply batches_concat|]. split; [apply batches_length|].
  split; [apply batch_loop_sizes|].
  rewrite getVideoStatistics_run. simpl. split.
  - apply f_equal, f_equal, map_ext. intros b. unfold batch_result.
    destruct (videosList env b) as [|[items|]]; reflexivity.
  - apply batch_worlds_console.
Qed.

End BatchFacts.

(** ** What a computation leaves untouched *)

Module Frame.
Import Data Effects Upstream Store Queries Routes Keeps.

Local Open Scope js_scope.

Create HintDb frame discriminated.

Section Core.

Variable R : World -> World -> Prop.
Hypothesis HR : lawful R.

Lemma keeps_ret {A} (a : A) : keeps R (ret a).
Proof. intros w. apply (law_refl R HR). Qed.

Lemma keeps_throw {A} e : keeps R (@throw A e).
Proof. intros w. apply (law_refl R HR). Qed.

Lemma keeps_values {A} (rows : list A) : keeps R (values rows).
Proof. destruct rows; intros w; apply (law_refl R HR). Qed.

Lemma keeps_cache_delete env : allows_cache_delete R -> keeps R (cache_delete env).
Proof.
  intros HD w. unfold cache_delete.
  destruct (delete_rejected env); [apply (law_refl R HR) | apply HD].
Qed.

Lemma keeps_unfinished {A} : keeps R (@unfinished A).
Proof. intros w. apply (law_refl R HR). Qed.

Lemma keeps_gets {A} (f : World -> A) : keeps R (gets f).
Proof. intros w. apply (law_refl R HR). Qed.

Lemma keeps_fetch {A} (reply : Fetched A) : keeps R (fetch reply).
Proof. destruct reply; intros w; apply (law_refl R HR). Qed.

Lemma keeps_execute env st : keeps R (execute env st).
Proof.
  unfold execute. destruct (refused env st); intros w; apply (law_refl R HR).
Qed.

Lemma keeps_log line : keeps R (log line).
Proof. intros w. apply (law_console R HR). Qed.

Lemma keeps_bind {A B} (m : M A) (k : A -> M B) :
  keeps R m -> (forall a, keeps R (k a)) -> keeps R (bind m k).
Proof.
  intros Hm Hk w. unfold bind. specialize (Hm w).
  destruct (m w) as [[a|e|] w']; simpl in *; auto.
  eapply (law_trans R HR); [exact Hm | apply Hk].
Qed.

Lemma keeps_try_catch {A} (m : M A) (h : Error -> M A) :
  keeps R m -> (forall e, keeps R (h e)) -> keeps R (try_catch m h).
Proof.
  intros Hm Hh w. unfold try_catch. specialize (Hm w).
  destruct (m w) as [[a|e|] w']; simpl in *; auto.
  eapply (law_trans R HR); [exact Hm | apply Hh].
Qed.

Lemma keeps_promise_all {A} (tasks : list (M A)) :
  Forall (keeps R) tasks -> keeps R (promise_all tasks).
Proof.
  induction 1 as [|t tasks Ht _ IH]; intros w; simpl; [apply (law_refl R HR)|].
  specialize (Ht w). destruct (t w) as [r w1]. specialize (IH w1).
  destruct (promise_all tasks w1) as [rs w2]. simpl in *.
  eapply (law_trans R HR); eassumption.
Qed.

Lemma keeps_ranking env query complaint : keeps R (ranking env query complaint).
Proof.
  unfold ranking. apply keeps_try_catch.
  - apply keeps_bind; [apply keeps_execute|]. intros _.
    apply keeps_bind; [apply keeps_gets|]. intros d.
    destruct (query d); [apply keeps_ret | apply keeps_throw].
  - intros _. apply keeps_bind; [apply keeps_log|]. intros _. apply keeps_ret.
Qed.

Lemma keeps_get_channels_id env channelId : keeps R (get_channels_id env channelId).
Proof.
  unfold get_channels_id. apply keeps_try_catch.
  - destruct (String.eqb channelId EmptyString); [apply keeps_ret|].
    apply keeps_bind; [apply keeps_execute|]. intros _.
    apply keeps_bind; [apply keeps_gets|]. intros d.
    destruct (has_channel channelId (channels d)); [|apply keeps_ret].
    apply keeps_bind; [apply keeps_execute|]. intros _.
    apply keeps_bind; [apply keeps_execute|]. intros _. apply keeps_ret.
  - intros _. apply keeps_bind; [apply keeps_log|]. intros _. apply keeps_ret.
Qed.

Section Upstream.

Hypothesis HQ : allows_quota R.

Lemma keeps_trackQuotaUsage cost endpoint : keeps R (trackQuotaUsage cost endpoint).
Proof. intros w. apply HQ. Qed.

Lemma keeps_playlist_loop env playlistId : forall fuel videos token,
  keeps R (playlist_loop env fuel playlistId videos token).
Proof.
  induction fuel as [|fuel IH]; intros videos token; simpl.
  - apply keeps_unfinished.
  - apply keeps_bind; [apply keeps_fetch|]. intros data.
    apply keeps_bind; [apply keeps_trackQuotaUsage|]. intros _.
    apply keeps_bind.
    + destruct (page_items data); [apply keeps_ret | apply keeps_throw].
    + intros items. destruct (truthy (nextPageToken data));
        [apply IH | apply keeps_ret].
Qed.

Lemma keeps_getPlaylistVideos env fuel playlistId :
  keeps R (getPlaylistVideos env fuel playlistId).
Proof. apply keeps_playlist_loop. Qed.

Lemma keeps_getChannelDetailsFromDB env channelId :
  keeps R (getChannelDetailsFromDB env channelId).
Proof.
  unfold getChannelDetailsFromDB.
  apply keeps_bind; [apply keeps_execute|]. intros _.
  apply keeps_bind; [apply keeps_gets|]. intros rows. apply keeps_ret.
Qed.

Lemma keeps_getUploadsChannelDetail env username :
  keeps R (getUploadsChannelDetail env username).
Proof.
  unfold getUploadsChannelDetail.
  apply keeps_bind; [apply keeps_getChannelDetailsFromDB|].
  intros [details|]; [apply keeps_ret|].
  apply keeps_try_catch.
  - apply keeps_bind; [apply keeps_fetch|]. intros data.
    apply keeps_bind; [apply keeps_trackQuotaUsage|]. intros _. apply keeps_ret.
  - intros _. apply keeps_bind; [apply keeps_log|]. intros _. apply keeps_ret.
Qed.

Lemma keeps_getVideoStatistics env videoIds :
  keeps R (getVideoStatistics env videoIds).
Proof.
  unfold getVideoStatistics. apply keeps_bind; [|intros; apply keeps_ret].
  apply keeps_promise_all. apply Forall_map, Forall_forall. intros b _.
  unfold fetchVideoStatisticsBatch. apply keeps_try_catch.
  - apply keeps_bind; [apply keeps_fetch|]. intros data.
    apply keeps_bind; [apply keeps_trackQuotaUsage|]. intros _. apply keeps_ret.
  - intros _. apply keeps_bind; [apply keeps_log|]. intros _. apply keeps_ret.
Qed.

End Upstream.

Section Tables.

Hypothesis HC : allows_channels R.
Hypothesis HV : allows_videos R.

Lemma keeps_insertChannel env a b c d e f g :
  keeps R (insertChannel env a b c d e f g).
Proof.
  unfold insertChannel.
  apply keeps_bind; [apply keeps_execute|]. intros _.
  apply keeps_bind; [apply keeps_gets|]. intros now.
  apply keeps_bind; [intros w; apply HC|]. intros _.
  apply keeps_gets.
Qed.

Lemma keeps_insertVideos env videoDetails channelId :
  keeps R (insertVideos env videoDetails channelId).
Proof.
  unfold insertVideos.
  apply keeps_bind; [apply keeps_values|]. intros _.
  apply keeps_bind; [apply keeps_execute|]. intros _.
  intros w. apply HV.
Qed.

Lemma keeps_insertVideoStatistics env videoStats :
  allows_snapshots R -> keeps R (insertVideoStatistics env videoStats).
Proof.
  intros HS. unfold insertVideoStatistics. apply keeps_try_catch.
  - apply keeps_bind; [apply keeps_values|]. intros _.
    apply keeps_bind; [apply keeps_execute|]. intros _.
    apply keeps_bind; [intros w; apply HS|]. intros _. apply keeps_ret.
  - intros e. apply keeps_bind; [apply keeps_log|]. intros _. apply keeps_throw.
Qed.

Hypothesis HQ : allows_quota R.

Lemma keeps_refreshChannelDetails env channelId :
  keeps R (refreshChannelDetails env channelId).
Proof.
  unfold refreshChannelDetails. apply keeps_try_catch.
  - apply keeps_bind; [apply keeps_fetch|]. intros data.
    apply keeps_bind; [now apply keeps_trackQuotaUsage|]. intros _.
    destruct data as [[|channel rest]|]; try apply keeps_log.
    apply keeps_bind; [apply keeps_execute|]. intros _.
    apply keeps_bind; [intros w; apply HC|]. intros _.
    apply keeps_log.
  - intros e. apply keeps_bind; [apply keeps_log|]. intros _. apply keeps_throw.
Qed.

Lemma keeps_refreshAllChannelDetails env : keeps R (refreshAllChannelDetails env).
Proof.
  unfold refreshAllChannelDetails.
  apply keeps_bind; [apply keeps_execute|]. intros _.
  apply keeps_bind; [apply keeps_gets|]. intros allChannels.
  apply keeps_bind.
  - apply keeps_promise_all, Forall_map, Forall_forall. intros ch _.
    apply keeps_refreshChannelDetails.
  - intros _. apply keeps_bind; [apply keeps_log|]. intros _. apply keeps_ret.
Qed.

Lemma keeps_post_channels_refresh env : keeps R (post_channels_refresh env).
Proof.
  unfold post_channels_refresh.
  apply keeps_bind; [intros w; apply HQ|]. intros _.
  apply keeps_try_catch.
  - apply keeps_bind; [apply keeps_refreshAllChannelDetails|]. intros l.
    apply keeps_bind; [apply keeps_gets|]. intros q. apply keeps_ret.
  - intros _. apply keeps_bind; [apply keeps_log|]. intros _.
    apply keeps_bind; [apply keeps_gets|]. intros q. apply keeps_ret.
Qed.

(** The ingestion touches the quota, the tables and, at its very end, the
    cache. *)
Lemma keeps_get_root env fuel url :
  allows_snapshots R -> allows_cache_delete R -> keeps R (get_root env fuel url).
Proof.
  intros HS HD. unfold get_root.
  apply keeps_bind; [intros w; apply HQ|]. intros _.
  apply keeps_try_catch.
  2:{ intros _. apply keeps_bind; [apply keeps_log|]. intros _. apply keeps_ret. }
  destruct (negb (truthy url)); [apply keeps_ret|].
  destruct (Handle.extractUsername (text url)) as [username|];
    [|apply keeps_ret].
  destruct (String.eqb username EmptyString); [apply keeps_ret|].
  apply keeps_bind; [now apply keeps_getUploadsChannelDetail|]. intros details.
  destruct (negb (complete details)); [apply keeps_ret|].
  apply keeps_bind; [now apply keeps_getPlaylistVideos|]. intros videos.
  destruct (List.length videos =? 0); [apply keeps_ret|].
  apply keeps_bind; [now apply keeps_getVideoStatistics|]. intros stats.
  apply keeps_bind; [apply keeps_insertChannel|]. intros channel.
  apply keeps_bind; [apply keeps_insertVideos|]. intros _.
  apply keeps_bind; [now apply keeps_insertVideoStatistics|]. intros n.
  apply keeps_bind; [now apply keeps_cache_delete|]. intros _.
  apply keeps_bind; [apply keeps_gets|]. intros q. apply keeps_ret.
Qed.

End Tables.

End Core.

Lemma quiet_lawful : lawful quiet.
Proof.
  unfold quiet. split.
  - auto.
  - intros w1 w2 w3 (?&?&?&?) (?&?&?&?). repeat split; congruence.
  - auto.
Qed.

Lemma quiet_trans w1 w2 w3 : quiet w1 w2 -> quiet w2 w3 -> quiet w1 w3.
Proof. apply (law_trans quiet quiet_lawful). Qed.

Lemma kept_or_gone_lawful : lawful cache_kept_or_gone.
Proof.
  unfold cache_kept_or_gone. split.
  - now left.
  - intros w1 w2 w3 [H1|H1] [H2|H2]; rewrite ?H2, ?H1; auto.
  - now left.
Qed.

Lemma quiet_quota : allows_quota quiet.
Proof. unfold allows_quota, quiet. auto. Qed.
Lemma quiet_channels : allows_channels quiet.
Proof. unfold allows_channels, quiet. auto. Qed.
Lemma quiet_videos : allows_videos quiet.
Proof. unfold allows_videos, quiet. auto. Qed.

Lemma kept_or_gone_quota : allows_quota cache_kept_or_gone.
Proof. intros w q. now left. Qed.
Lemma kept_or_gone_channels : allows_channels cache_kept_or_gone.
Proof. intros w l. now left. Qed.
Lemma kept_or_gone_videos : allows_videos cache_kept_or_gone.
Proof. intros w l. now left. Qed.
Lemma kept_or_gone_snapshots : allows_snapshots cache_kept_or_gone.
Proof. intros w l n. now left. Qed.
Lemma kept_or_gone_cache_delete : allows_cache_delete cache_kept_or_gone.
Proof. intros w. now right. Qed.

#[export] Hint Resolve quiet_lawful kept_or_gone_lawful
  quiet_quota quiet_channels quiet_videos kept_or_gone_quota
  kept_or_gone_channels kept_or_gone_videos kept_or_gone_snapshots
  kept_or_gone_cache_delete : frame.

End Frame.

(** ** The ingestion route *)

Module IngestFacts.
Import Data Effects Upstream Store Queries Routes Keeps Frame BatchFacts.
Local Open Scope Z_scope.

(** Take apart the next test of a computation that has been run. *)
Ltac crack H :=
  match type of H with
  | context [match ?x with _ => _ end] =>
      lazymatch x with
      | context [match _ with _ => _ end] => fail
      | _ => destruct x eqn:?
      end
  end.

(** A run that answers with the JSON report went through every stage. *)
Lemma get_root_json env fuel url w insertedCount quotaUsed channel video w' :
  get_root env fuel url w
  = (Returned (IngestJson insertedCount quotaUsed channel video), w') ->
  exists username details w1 videos w2 w3 w4 w5 w6,
    truthy url = true /\
    Handle.extractUsername (text url) = Some username /\
    getUploadsChannelDetail env username (with_quota 0 w) = (Returned details, w1) /\
    complete details = true /\
    getPlaylistVideos env fuel (text (uploads details)) w1 = (Returned videos, w2) /\
    videos <> [] /\
    getVideoStatistics env (map videoId videos) w2 = (Returned video, w3) /\
    insertChannel env (text (id details)) (text (thumbnailHighUrl details))
      (text (uploads details)) (number (followersCount details))
      (number (viewsCount details)) (number (videoCount details))
      (text (customName details)) w3 = (Returned channel, w4) /\
    insertVideos env videos (text (id details)) w4 = (Returned tt, w5) /\
    insertVideoStatistics env video w5 = (Returned insertedCount, w6) /\
    quotaUsed = totalQuotaUsed w6 /\
    w' = with_cache None w6.
Proof.
  intros H.
  cbv [get_root bind try_catch modify ret log gets cache_delete throw] in H.
  cbn [fst snd] in H.
  repeat crack H; try discriminate H.
  injection H as ? ? ? ? ?. subst.
  match goal with u : unit |- _ => destruct u end.
  do 9 eexists. repeat split; try eassumption; try reflexivity.
  - now apply negb_false_iff.
  - now apply negb_false_iff.
  - intros ->. discriminate.
Qed.

Lemma insertVideoStatistics_returned env videoStats w n w' :
  insertVideoStatistics env videoStats w = (Returned n, w') ->
  n = Z.of_nat (List.length videoStats) /\
  w' = with_next_id (next_statistic_id w + List.length videoStats)%nat
         (with_db (with_videoStatistics
                     (videoStatistics (db w)
                        ++ statRows (clock w) (next_statistic_id w) videoStats)
                     (db w)) w).
Proof.
  cbv [insertVideoStatistics try_catch bind values execute modify ret log throw].
  destruct videoStats as [|stat rest]; [discriminate|].
  destruct (refused env InsertVideoStatistics); [discriminate|].
  intros [= <- <-]. auto.
Qed.

(** The snapshots of a successful ingestion are in the table, and the
    cached rollup is gone, when the request is answered. *)
Lemma get_root_json_world env fuel url w insertedCount quotaUsed channel video w' :
  get_root env fuel url w
  = (Returned (IngestJson insertedCount quotaUsed channel video), w') ->
  youtube_cache w' = None /\
  videoStatistics (db w')
  = videoStatistics (db w) ++ statRows (clock w) (next_statistic_id w) video.
Proof.
  intros H. apply get_root_json in H
    as (username & details & w1 & videos & w2 & w3 & w4 & w5 & w6 & _ & _ &
        H1 & _ & H2 & _ & H3 & H4 & H5 & H6 & _ & ->).
  split; [reflexivity|].
  assert (Q : quiet w w5).
  { pose proof (keeps_getUploadsChannelDetail quiet quiet_lawful quiet_quota
                  env username (with_quota 0 w)) as K1.
    pose proof (keeps_getPlaylistVideos quiet quiet_lawful quiet_quota
                  env fuel (text (uploads details)) w1) as K2.
    pose proof (keeps_getVideoStatistics quiet quiet_lawful quiet_quota
                  env (map videoId videos) w2) as K3.
    pose proof (keeps_insertChannel quiet quiet_lawful quiet_channels
                  env (text (id details)) (text (thumbnailHighUrl details))
                  (text (uploads details)) (number (followersCount details))
                  (number (viewsCount details)) (number (videoCount details))
                  (text (customName details)) w3) as K4.
    pose proof (keeps_insertVideos quiet quiet_lawful quiet_videos
                  env videos (text (id details)) w4) as K5.
    rewrite H1 in K1. rewrite H2 in K2. rewrite H3 in K3. rewrite H4 in K4.
    rewrite H5 in K5. simpl in *.
    apply (quiet_trans _ (with_quota 0 w)); [apply quiet_quota|].
    eauto using quiet_trans. }
  apply insertVideoStatistics_returned in H6 as [_ ->].
  destruct Q as (_ & Qc & Qs & Qn). simpl. now rewrite Qc, Qs, Qn.
Qed.

Lemma extractUsername_nonempty input username :
  Handle.extractUsername input = Some username -> username <> EmptyString.
Proof.
  unfold Handle.extractUsername.
  destruct (Handle.startsWith input "@") eqn:E.
  - intros [= <-] ->. discriminate.
  - unfold Handle.or_null. destruct (Handle.match_group2 input) as [g|]; [|discriminate].
    destruct (String.eqb_spec g EmptyString); [discriminate|]. now intros [= <-].
Qed.

Lemma truthy_number_spec x :
  truthy_number x = true <-> exists z, x = Some z /\ z <> 0.
Proof.
  destruct x as [z|]; simpl.
  - rewrite negb_true_iff, Z.eqb_neq. split; [eauto|]. now intros (? & [= <-] & ?).
  - split; [discriminate|]. now intros (? & ? & _).
Qed.

Lemma truthy_spec x :
  truthy x = true <-> exists s, x = Some s /\ s <> EmptyString.
Proof.
  destruct x as [s|]; simpl.
  - rewrite negb_true_iff, String.eqb_neq. split; [eauto|]. now intros (? & [= <-] & ?).
  - split; [discriminate|]. now intros (? & ? & _).
Qed.

(** C10. Once the descriptor of the channel is resolved, the answer is the
    400 "Invalid input" exactly when the descriptor is not complete; a
    follower, view or video count that is zero (or missing) makes it
    incomplete, so the request goes on only with three counters that are
    not zero and four texts that are not empty. *)
Theorem ingest_rejects_zero_counters (env : Env) (fuel : nat)
    (url : option string) (w : World) (username : string)
    (details : ChannelDetails) (w1 : World) :
  truthy url = true ->
  Handle.extractUsername (text url) = Some username ->
  getUploadsChannelDetail env username (with_quota 0 w) = (Returned details, w1) ->
  (number (followersCount details) = 0 \/ number (viewsCount details) = 0
   \/ number (videoCount details) = 0 ->
   get_root env fuel url w = (Returned (IngestText 400 invalid_input), w1)) /\
  (fst (get_root env fuel url w) <> Returned (IngestText 400 invalid_input) ->
   (exists f, followersCount details = Some f /\ f <> 0) /\
   (exists v, viewsCount details = Some v /\ v <> 0) /\
   (exists n, videoCount details = Some n /\ n <> 0) /\
   (exists s, id details = Some s /\ s <> EmptyString) /\
   (exists s, customName details = Some s /\ s <> EmptyString) /\
   (exists s, thumbnailHighUrl details = Some s /\ s <> EmptyString) /\
   (exists s, uploads details = Some s /\ s <> EmptyString)).
Proof.
  intros Hurl Huser Hdetails.
  assert (Hrun : complete details = false ->
                 get_root env fuel url w
                 = (Returned (IngestText 400 invalid_input), w1)).
  { intros Hc.
    cbv [get_root bind try_catch modify ret]. cbn [fst snd].
    rewrite Hurl, Huser. cbn [negb].
    destruct (String.eqb_spec username EmptyString) as [->|_].
    - now apply extractUsername_nonempty in Huser.
    - rewrite Hdetails, Hc. reflexivity. }
  split.
  - intros Hzero. apply Hrun. unfold complete.
    assert (Hfalsy : forall x, number x = 0 -> truthy_number x = false)
      by (intros [z|]; simpl; [now intros -> | reflexivity]).
    destruct Hzero as [H | [H | H]]; apply Hfalsy in H; rewrite H;
      rewrite ?andb_false_r; reflexivity.
  - intros Hnot. destruct (complete details) eqn:Hc.
    + unfold complete in Hc. rewrite !andb_true_iff in Hc.
      destruct Hc as [[[[[[H1 H2] H3] H4] H5] H6] H7].
      rewrite !truthy_spec in *. rewrite !truthy_number_spec in *. auto 10.
    + rewrite Hrun in Hnot by reflexivity. now contradiction Hnot.
Qed.

End IngestFacts.

(** ** The cache of the rollup *)

Module CacheFacts.
Import Data Effects Upstream Store Queries Routes Keeps Frame BatchFacts IngestFacts Server.
Local Open Scope Z_scope.

Lemma get_statistics_hit env w e :
  youtube_cache w = Some e -> clock w < expires e ->
  get_statistics env w = (Returned (StatisticsOk (cached e) "cache"), w).
Proof.
  intros Hc Ht. apply Z.ltb_lt in Ht.
  cbv [get_statistics try_catch bind cache_get gets ret].
  now rewrite Hc, Ht.
Qed.

Lemma get_statistics_miss env w :
  (forall e, youtube_cache w = Some e -> expires e <= clock w) ->
  get_statistics env w
  = if refused env SelectRows
    then (Returned StatisticsError,
          with_console (console w ++ ["Error fetching channel statistics:"%string]) w)
    else (Returned (StatisticsOk (channelStatistics (db w)) "database"),
          with_cache (Some (mkCacheEntry (channelStatistics (db w))
                              (clock w + 3600))) w).
Proof.
  intros Hmiss.
  cbv [get_statistics try_catch bind cache_get gets ret execute throw log
       modify cache_put].
  destruct (youtube_cache w) as [e|] eqn:Hc.
  - specialize (Hmiss e eq_refl). apply Z.ltb_ge in Hmiss. rewrite Hmiss.
    destruct (refused env SelectRows); reflexivity.
  - destruct (refused env SelectRows); reflexivity.
Qed.

Lemma cache_hit_or_miss w :
  (exists e, youtube_cache w = Some e /\ clock w < expires e)
  \/ (forall e, youtube_cache w = Some e -> expires e <= clock w).
Proof.
  destruct (youtube_cache w) as [e|].
  - destruct (Z.lt_ge_cases (clock w) (expires e)); [left; eauto | right].
    now intros ? [= <-].
  - right. discriminate.
Qed.

(** C5, as the code has it. A hit (an entry that has not expired) is
    answered with the cached value and the tag "cache", whatever the
    database holds and without a change to the world; a miss, when the
    database answers, is computed from the tables, stored for 3600 seconds
    and answered with the tag "database". *)
Theorem get_statistics_cache_aside (env : Env) (w : World) :
  (forall e, youtube_cache w = Some e -> clock w < expires e ->
   forall env' d,
     get_statistics env' (with_db d w)
     = (Returned (StatisticsOk (cached e) "cache"), with_db d w)) /\
  ((forall e, youtube_cache w = Some e -> expires e <= clock w) ->
   refused env SelectRows = false ->
   get_statistics env w
   = (Returned (StatisticsOk (channelStatistics (db w)) "database"),
      with_cache (Some (mkCacheEntry (channelStatistics (db w)) (clock w + 3600)))
        w)).
Proof.
  split.
  - intros e Hc Ht env' d. now apply get_statistics_hit.
  - intros Hmiss Hdb. now rewrite get_statistics_miss, Hdb.
Qed.

Lemma get_statistics_cache env w :
  youtube_cache (snd (get_statistics env w)) = youtube_cache w
  \/ exists t, youtube_cache (snd (get_statistics env w))
               = Some (mkCacheEntry (channelStatistics (db w)) t).
Proof.
  destruct (cache_hit_or_miss w) as [(e & Hc & Ht) | Hmiss].
  - left. now rewrite (get_statistics_hit env w e).
  - rewrite get_statistics_miss by assumption.
    destruct (refused env SelectRows); simpl; eauto.
Qed.

(** The cache after a request: what it was, nothing, or the rollup of the
    tables as the request found them. *)
Lemma step_cache w r :
  cache_kept_or_gone w (step w r)
  \/ exists t, youtube_cache (step w r)
               = Some (mkCacheEntry (channelStatistics (db w)) t).
Proof.
  destruct r; cbn [step].
  - left. apply (keeps_get_root cache_kept_or_gone); auto with frame.
  - destruct (get_statistics_cache env w) as [H | H]; [left; now left | now right].
  - left. apply (keeps_post_channels_refresh cache_kept_or_gone); auto with frame.
  - left. apply (keeps_ranking cache_kept_or_gone); auto with frame.
  - left. apply (keeps_ranking cache_kept_or_gone); auto with frame.
  - left. apply (keeps_ranking cache_kept_or_gone); auto with frame.
  - left. apply (keeps_ranking cache_kept_or_gone); auto with frame.
  - left. apply (keeps_get_channels_id cache_kept_or_gone); auto with frame.
  - left. now left.
Qed.

Lemma run_snoc requests r w : run (requests ++ [r]) w = step (run requests w) r.
Proof. unfold run. now rewrite fold_left_app. Qed.

(** Whatever is in the cache after the requests [later] was computed from
    the tables at some point of [later]. *)
Lemma cache_computed_since w later :
  youtube_cache w = None ->
  forall e, youtube_cache (run later w) = Some e ->
  exists before after,
    later = before ++ after /\ cached e = channelStatistics (db (run before w)).
Proof.
  intros Hw. induction later as [|r later IH] using rev_ind; intros e He.
  - simpl in He. congruence.
  - rewrite run_snoc in He.
    destruct (step_cache (run later w) r) as [[Hk | Hg] | (t & Ht)].
    + rewrite Hk in He. destruct (IH e He) as (before & after & -> & Hd).
      exists before, (after ++ [r]). now rewrite app_assoc.
    + congruence.
    + rewrite Ht in He. injection He as <-.
      exists later, [r]. auto.
Qed.

(** C6. When the ingestion has answered with its 200 report, its snapshots
    are in the table and the cached rollup is deleted; a rollup read after
    any further requests was computed from the tables at or after that
    moment, never before the snapshots were appended. *)
Theorem ingestion_invalidates_rollup (env : Env) (fuel : nat)
    (url : option string) (w : World) (insertedCount quotaUsed : Z)
    (channel : option ChannelRow) (video : list VideoStatistics) (w' : World) :
  get_root env fuel url w
  = (Returned (IngestJson insertedCount quotaUsed channel video), w') ->
  youtube_cache w' = None /\
  videoStatistics (db w')
  = videoStatistics (db w) ++ statRows (clock w) (next_statistic_id w) video /\
  forall later env' data source w'',
    get_statistics env' (run later w') = (Returned (StatisticsOk data source), w'') ->
    exists before after,
      later = before ++ after /\
      data = channelStatistics (db (run before w')).
Proof.
  intros H. apply get_root_json_world in H as [Hc Hs].
  repeat split; auto.
  intros later env' data source w'' Hread.
  destruct (cache_hit_or_miss (run later w')) as [(e & He & Ht) | Hmiss].
  - rewrite (get_statistics_hit env' _ e He Ht) in Hread.
    injection Hread as <- _ _. now apply cache_computed_since.
  - rewrite get_statistics_miss in Hread by assumption.
    destruct (refused env' SelectRows); [discriminate|].
    injection Hread as <- _ _. exists later, []. now rewrite app_nil_r.
Qed.

End CacheFacts.

(** ** The quota of an ingestion *)

Module QuotaFacts.
Import Data Effects Upstream Store Queries Routes Keeps Frame BatchFacts IngestFacts.
Local Open Scope Z_scope.

Lemma getUploadsChannelDetail_upstream env username w item rest :
  refused env SelectRows = false ->
  filter (fun r => String.eqb (c_id r) username) (channels (db w)) = [] ->
  channelsForHandle env username = Body (Some (item :: rest)) ->
  getUploadsChannelDetail env username w
  = (Returned (channelDetailsOfItem item), with_quota (totalQuotaUsed w + 1) w).
Proof.
  intros Hdb Hnew Hreply.
  cbv [getUploadsChannelDetail getChannelDetailsFromDB bind execute gets ret
       try_catch fetch trackQuotaUsage modify].
  rewrite Hdb, Hnew, Hreply. reflexivity.
Qed.

(** One turn of the pagination loop. *)
Lemma playlist_loop_step env fuel playlistId videos token w page items :
  playlistItems env playlistId (if truthy token then token else None) = Body page ->
  page_items page = Some items ->
  playlist_loop env (S fuel) playlistId videos token w
  = if truthy (nextPageToken page)
    then playlist_loop env fuel playlistId (videos ++ items) (nextPageToken page)
           (with_quota (totalQuotaUsed w + 1) w)
    else (Returned (videos ++ items), with_quota (totalQuotaUsed w + 1) w).
Proof.
  intros Hpage Hitems. cbn [playlist_loop]. unfold bind at 1.
  rewrite Hpage. cbn [fetch ret]. unfold bind at 1.
  cbn [trackQuotaUsage modify playlistItems_list QUOTA_COSTS]. unfold bind at 1.
  rewrite Hitems. cbn [ret]. destruct (truthy (nextPageToken page)); reflexivity.
Qed.

Lemma getPlaylistVideos_two_pages env fuel playlistId w page1 page2 items1 items2 :
  playlistItems env playlistId None = Body page1 ->
  page_items page1 = Some items1 -> truthy (nextPageToken page1) = true ->
  playlistItems env playlistId (nextPageToken page1) = Body page2 ->
  page_items page2 = Some items2 -> truthy (nextPageToken page2) = false ->
  (2 <= fuel)%nat ->
  getPlaylistVideos env fuel playlistId w
  = (Returned (items1 ++ items2), with_quota (totalQuotaUsed w + 1 + 1) w).
Proof.
  intros H1 I1 T1 H2 I2 T2 Hfuel.
  destruct fuel as [|[|fuel]]; try lia.
  unfold getPlaylistVideos.
  rewrite (playlist_loop_step env _ playlistId [] None w page1 items1 H1 I1), T1.
  rewrite (playlist_loop_step env _ playlistId _ _ _ page2 items2); auto.
  - now rewrite T2.
  - now rewrite T1.
Qed.

Lemma all_batches_charged env bs :
  (forall b, In b bs -> videosList env b <> NetworkError) ->
  filter (fun b => negb (batch_failed env b)) bs = bs.
Proof.
  induction bs as [|b bs IH]; intros H; simpl; [reflexivity|].
  unfold batch_failed at 1. destruct (videosList env b) eqn:E.
  - exfalso. apply (H b); [now left | assumption].
  - simpl. f_equal. apply IH. intros b' Hb'. apply H. now right.
Qed.

(** From the statistics on, nothing charges the quota. *)
Lemma get_root_after_statistics env fuel url w username details w1 videos w2
    stats w3 :
  truthy url = true ->
  Handle.extractUsername (text url) = Some username ->
  getUploadsChannelDetail env username (with_quota 0 w) = (Returned details, w1) ->
  complete details = true ->
  getPlaylistVideos env fuel (text (uploads details)) w1 = (Returned videos, w2) ->
  videos <> [] ->
  getVideoStatistics env (map videoId videos) w2 = (Returned stats, w3) ->
  totalQuotaUsed (snd (get_root env fuel url w)) = totalQuotaUsed w3 /\
  (forall n q c v,
     fst (get_root env fuel url w) = Returned (IngestJson n q c v) ->
     q = totalQuotaUsed w3) /\
  exists response, fst (get_root env fuel url w) = Returned response.
Proof.
  intros Hurl Huser H1 Hc H2 Hne H3.
  cbv [get_root bind try_catch modify ret log gets cache_delete
       insertChannel insertVideos insertVideoStatistics values execute throw].
  cbn [fst snd]. rewrite Hurl, Huser. cbn [negb].
  destruct (String.eqb_spec username EmptyString) as [->|_];
    [now apply extractUsername_nonempty in Huser|].
  rewrite H1, Hc. cbn [negb]. rewrite H2.
  destruct videos as [|video0 videos']; [congruence|]. cbn [List.length Nat.eqb].
  rewrite H3.
  destruct (refused env InsertChannel); cbn;
    [repeat split; [discriminate | eauto]|].
  destruct (refused env InsertVideos); cbn;
    [repeat split; [discriminate | eauto]|].
  destruct stats as [|stat stats']; cbn;
    [repeat split; [discriminate | eauto]|].
  destruct (refused env InsertVideoStatistics); cbn;
    [repeat split; [discriminate | eauto]|].
  destruct (delete_rejected env); cbn;
    [repeat split; [discriminate | eauto]|].
  repeat split; [|eauto]. now intros n q c v [= _ <- _ _].
Qed.

(** C7, for batches whose calls succeed. An ingestion that looks the
    channel up once, reads two pages of the playlist and sends three
    batches of statistics that are all answered has used, from a counter
    reset to zero, [1*1 + 2*1 + 3*1] units, whatever the counter held
    before and however many ids a batch carries. *)
Theorem ingestion_quota (env : Env) (fuel : nat) (url : option string)
    (w : World) (username : string) (item : ChannelItem)
    (rest : list ChannelItem) (page1 page2 : PlaylistPage)
    (items1 items2 : list VideoDetails) :
  truthy url = true ->
  Handle.extractUsername (text url) = Some username ->
  refused env SelectRows = false ->
  filter (fun r => String.eqb (c_id r) username) (channels (db w)) = [] ->
  channelsForHandle env username = Body (Some (item :: rest)) ->
  complete (channelDetailsOfItem item) = true ->
  playlistItems env (text (uploads (channelDetailsOfItem item))) None
  = Body page1 ->
  page_items page1 = Some items1 ->
  truthy (nextPageToken page1) = true ->
  playlistItems env (text (uploads (channelDetailsOfItem item)))
    (nextPageToken page1) = Body page2 ->
  page_items page2 = Some items2 ->
  truthy (nextPageToken page2) = false ->
  List.length (batches (map videoId (items1 ++ items2))) = 3%nat ->
  (forall b, In b (batches (map videoId (items1 ++ items2))) ->
             videosList env b <> NetworkError) ->
  (2 <= fuel)%nat ->
  totalQuotaUsed (snd (get_root env fuel url w))
  = 1 * channels_list QUOTA_COSTS + 2 * playlistItems_list QUOTA_COSTS
    + 3 * videos_list QUOTA_COSTS /\
  (forall n q c v,
     fst (get_root env fuel url w) = Returned (IngestJson n q c v) -> q = 6) /\
  exists response, fst (get_root env fuel url w) = Returned response.
Proof.
  intros Hurl Huser Hdb Hnew Hreply Hc P1 I1 T1 P2 I2 T2 Hthree Hok Hfuel.
  pose proof (getUploadsChannelDetail_upstream env username (with_quota 0 w)
                item rest Hdb Hnew Hreply) as E1.
  pose proof (getPlaylistVideos_two_pages env fuel _
                (with_quota (totalQuotaUsed (with_quota 0 w) + 1) (with_quota 0 w))
                page1 page2 items1 items2 P1 I1 T1 P2 I2 T2 Hfuel) as E2.
  assert (Hne : items1 ++ items2 <> []).
  { intros E. rewrite E in Hthree. discriminate. }
  destruct (get_root_after_statistics env fuel url w username _ _ _ _ _ _
              Hurl Huser E1 Hc E2 Hne (getVideoStatistics_run env _ _))
    as (Q1 & Q2 & Q3).
  assert (Q : totalQuotaUsed
                (fold_left (batch_world env)
                   (batches (map videoId (items1 ++ items2)))
                   (with_quota
                      (totalQuotaUsed
                         (with_quota (totalQuotaUsed (with_quota 0 w) + 1)
                            (with_quota 0 w)) + 1 + 1)
                      (with_quota (totalQuotaUsed (with_quota 0 w) + 1)
                         (with_quota 0 w)))) = 6).
  { rewrite batch_worlds_quota, all_batches_charged, Hthree by assumption.
    reflexivity. }
  rewrite Q in Q1, Q2. repeat split; auto.
Qed.

End QuotaFacts.

(** ** The refresh of all channels *)

Module RefreshFacts.
Import Data Effects Upstream Store Queries Routes Keeps Frame.
Local Open Scope Z_scope.

Lemma refreshChannelDetails_outcome env channelId w :
  fst (refreshChannelDetails env channelId w) = refresh_outcome env channelId.
Proof.
  cbv [refreshChannelDetails refresh_outcome try_catch bind fetch ret throw
       trackQuotaUsage modify execute log].
  destruct (channelsById env channelId) as [|[[|channel rest]|]]; try reflexivity.
  destruct (refused env (UpdateChannel channelId)); reflexivity.
Qed.

Lemma promise_all_outcome {A B} (task : B -> M A) (outcome : B -> Outcome A) l :
  (forall b w, fst (task b w) = outcome b) ->
  forall w, fst (promise_all (map task l) w) = settle (map outcome l).
Proof.
  intros H. induction l as [|b l IH]; intros w; simpl; [reflexivity|].
  specialize (H b w). destruct (task b w) as [r w1]. simpl in H. subst r.
  specialize (IH w1). destruct (promise_all (map task l) w1) as [rs w2].
  simpl in *. now subst rs.
Qed.



Lemma refreshAllChannelDetails_outcome env w :
  refused env SelectRows = false ->
  fst (refreshAllChannelDetails env w)
  = match settle (map (fun channel => refresh_outcome env (fst channel))
                      (allChannels w)) with
    | Returned _ => Returned (allChannels w)
    | Thrown e => Thrown e
    | Unfinished => Unfinished
    end.
Proof.
  intros Hdb. unfold refreshAllChannelDetails.
  cbv [bind execute gets ret log modify]. rewrite Hdb.
  fold (allChannels w).
  pose proof (promise_all_outcome
                (fun channel => refreshChannelDetails env (fst channel))
                (fun channel => refresh_outcome env (fst channel))
                (allChannels w)
                (fun b w => refreshChannelDetails_outcome env (fst b) w) w) as H.
  destruct (promise_all _ w) as [[l|e|] w']; simpl in H; rewrite <- H; reflexivity.
Qed.

Lemma refresh_outcome_finished env channelId :
  refresh_outcome env channelId <> Unfinished.
Proof.
  unfold refresh_outcome.
  destruct (channelsById env channelId) as [|[[|channel rest]|]]; try discriminate.
  destruct (refused env (UpdateChannel channelId)); discriminate.
Qed.


End RefreshFacts.

(** ** The latest snapshot and the rankings *)

Module QueryFacts.
Import Data Effects Queries.
Local Open Scope Z_scope.

(** *** Lists *)

Lemma maximum_ge l : forall x, x <= maximum x l /\ forall y, In y l -> y <= maximum x l.
Proof.
  induction l as [|a l IH]; intros x; simpl.
  - split; [lia | contradiction].
  - destruct (IH (Z.max x a)) as [H1 H2]. split; [lia|].
    intros y [<- | Hy]; [lia | auto].
Qed.

Lemma maximum_in l : forall x, In (maximum x l) (x :: l).
Proof.
  induction l as [|a l IH]; intros x; simpl; [auto|].
  destruct (IH (Z.max x a)) as [H | H].
  - rewrite <- H. destruct (Z.max_spec x a) as [[_ ->] | [_ ->]]; auto.
  - auto.
Qed.

Lemma filter_flat_map {A B} (p : B -> bool) (f : A -> list B) l :
  filter p (flat_map f l) = flat_map (fun a => filter p (f a)) l.
Proof.
  induction l as [|a l IH]; simpl; [reflexivity|].
  now rewrite filter_app, IH.
Qed.

Lemma flat_map_nil {A B} (g : A -> list B) l :
  (forall y, In y l -> g y = []) -> flat_map g l = [].
Proof.
  induction l as [|a l IH]; intros H; simpl; [reflexivity|].
  rewrite (H a) by now left. apply IH. intros y Hy. apply H. now right.
Qed.

(** In a list without two elements of the same key, a [flat_map] to which
    only the elements of one key contribute is what that element gives. *)
Lemma flat_map_only {A B} (key : A -> string) (g : A -> list B) l x :
  NoDup (map key l) -> In x l ->
  (forall y, In y l -> key y <> key x -> g y = []) ->
  flat_map g l = g x.
Proof.
  induction l as [|a l IH]; simpl; intros Hnd Hin Hg; [contradiction|].
  inversion Hnd as [|? ? Hnotin Hnd']; subst.
  destruct Hin as [-> | Hin].
  - rewrite (flat_map_nil g l); [now rewrite app_nil_r|].
    intros y Hy. apply Hg; [now right|]. intros E. apply Hnotin.
    rewrite <- E. now apply in_map.
  - rewrite (Hg a) by (auto; intros E; apply Hnotin; rewrite E; now apply in_map).
    simpl. apply IH; auto.
Qed.

Lemma filter_none {A} (p : A -> bool) l :
  (forall x, In x l -> p x = false) -> filter p l = [].
Proof.
  induction l as [|a l IH]; intros H; simpl; [reflexivity|].
  rewrite (H a) by now left. apply IH. intros x Hx. apply H. now right.
Qed.

(** A key that identifies the rows selects at most one of them. *)
Lemma filter_key_unique {A} (key : A -> string) (k : string) l :
  NoDup (map key l) ->
  (List.length (filter (fun c => String.eqb k (key c)) l) <= 1)%nat.
Proof.
  induction l as [|a l IH]; intros Hnd; simpl; [lia|].
  inversion Hnd as [|? ? Hnotin Hnd']; subst.
  destruct (String.eqb_spec k (key a)) as [E|]; [|auto].
  rewrite filter_none; [simpl; lia|].
  intros x Hx. apply String.eqb_neq. intros E'. apply Hnotin.
  rewrite <- E, E'. now apply in_map.
Qed.

Lemma leftJoin_flat_map {A B C} (on : B -> C -> bool) (f : A -> list B) l r :
  leftJoin on (flat_map f l) r = flat_map (fun a => leftJoin on (f a) r) l.
Proof.
  unfold leftJoin. induction l as [|a l IH]; [reflexivity|].
  cbn [flat_map]. rewrite flat_map_app. f_equal. exact IH.
Qed.

Lemma leftJoin_in {A B} (on : A -> B -> bool) l r a ob :
  In (a, ob) (leftJoin on l r) ->
  In a l /\ forall b, ob = Some b -> In b r /\ on a b = true.
Proof.
  unfold leftJoin. intros H. apply in_flat_map in H as (a' & Ha' & H).
  destruct (filter (on a') r) as [|b0 bs] eqn:E.
  - destruct H as [[= <- <-] | []]. split; [assumption | discriminate].
  - rewrite <- E in H. apply in_map_iff in H as (b & [= <- <-] & Hb).
    apply filter_In in Hb. split; [assumption|]. now intros ? [= <-].
Qed.

(** *** The subquery: one row for each video that has snapshots *)

Lemma latest_of vid stats s rest :
  snapshots_of vid stats = s :: rest ->
  filter (fun l => String.eqb vid (l_videoId l)) (latestVideoStatistics stats)
  = [mkLatest vid (maximum (s_recordedAt s) (map s_recordedAt rest))].
Proof.
  intros Hs. unfold latestVideoStatistics. rewrite filter_flat_map.
  rewrite (flat_map_only (fun k => k) _ _ vid).
  - rewrite Hs. simpl. now rewrite String.eqb_refl.
  - rewrite map_id. apply NoDup_nodup.
  - apply nodup_In. assert (Hin : In s (snapshots_of vid stats))
      by (rewrite Hs; now left).
    apply filter_In in Hin as [Hin E]. apply String.eqb_eq in E. subst vid.
    now apply in_map.
  - intros k _ Hk. destruct (map s_recordedAt (snapshots_of k stats)); simpl;
      [reflexivity|].
    destruct (String.eqb_spec vid k); [congruence | reflexivity].
Qed.

(** *** The rows of one video *)

Lemma leftJoin_by_row {A B} (on : A -> B -> bool) l r :
  leftJoin on l r = flat_map (fun a => leftJoin on [a] r) l.
Proof.
  unfold leftJoin. apply flat_map_ext. intros a. simpl. now rewrite app_nil_r.
Qed.

Lemma latest_rows_by_video d : latest_rows d = flat_map (rows_for d) (videos d).
Proof.
  unfold latest_rows, rows_for.
  rewrite (leftJoin_by_row _ (videos d)).
  now rewrite !leftJoin_flat_map, filter_flat_map.
Qed.

Lemma rows_for_video d v r : In r (rows_for d v) -> jr_video r = v.
Proof.
  unfold rows_for. intros H. apply filter_In in H as [H _].
  destruct r as [[[v' s] l] c].
  apply leftJoin_in in H as [H _]. apply leftJoin_in in H as [H _].
  apply leftJoin_in in H as [[<- | []] _]. reflexivity.
Qed.

Lemma rows_for_snapshot d v r :
  In r (rows_for d v) ->
  exists s, jr_stat r = Some s /\ In s (snapshots_of (v_id v) (videoStatistics d)).
Proof.
  unfold rows_for. intros H. apply filter_In in H as [H Hl].
  destruct r as [[[v' [s|]] l] c]; [|discriminate].
  apply leftJoin_in in H as [H _]. apply leftJoin_in in H as [H _].
  apply leftJoin_in in H as [[<- | []] H]. destruct (H s eq_refl) as [Hs E].
  exists s. split; [reflexivity|]. apply filter_In. split; [assumption|].
  now rewrite String.eqb_sym.
Qed.

Lemma snapshots_of_join v stats :
  filter (fun s => String.eqb (v_id v) (s_videoId s)) stats
  = snapshots_of (v_id v) stats.
Proof. apply filter_ext. intros s. apply String.eqb_sym. Qed.

(** One joined row for a snapshot that is the latest, none for another. *)
Lemma rows_for_one d v s top :
  NoDup (map c_id (channels d)) ->
  String.eqb (s_videoId s) (v_id v) = true ->
  filter (fun l => String.eqb (v_id v) (l_videoId l))
         (latestVideoStatistics (videoStatistics d))
  = [mkLatest (v_id v) top] ->
  map jr_stat
    (filter (fun r => is_latest (jr_stat r) (jr_latest r))
       (leftJoin (fun r c => String.eqb (v_channelId (fst (fst r))) (c_id c))
          (leftJoin (fun r l => is_latest (snd r) (Some l)) [(v, Some s)]
             (latestVideoStatistics (videoStatistics d)))
          (channels d)))
  = if s_recordedAt s =? top then [Some s] else [].
Proof.
  intros Hnd Hs Hl. apply String.eqb_eq in Hs.
  assert (E : filter (fun l => is_latest (Some s) (Some l))
                (latestVideoStatistics (videoStatistics d))
              = if s_recordedAt s =? top then [mkLatest (v_id v) top] else []).
  { transitivity
      (filter (fun l => s_recordedAt s =? latestRecordedAt l)
         (filter (fun l => String.eqb (v_id v) (l_videoId l))
            (latestVideoStatistics (videoStatistics d)))).
    - generalize (latestVideoStatistics (videoStatistics d)). clear Hl.
      intros ls. induction ls as [|l ls IH]; [reflexivity|].
      cbn [filter]. rewrite IH. unfold is_latest. rewrite Hs.
      destruct (String.eqb (v_id v) (l_videoId l)); reflexivity.
    - rewrite Hl. reflexivity. }
  unfold leftJoin at 2. cbn [flat_map snd]. rewrite E, app_nil_r.
  assert (Hch : forall row : (VideoRow * option StatRow) * option Latest,
            map (fun r : JoinedRow => (jr_stat r, jr_latest r))
              (leftJoin (fun r c => String.eqb (v_channelId (fst (fst r))) (c_id c))
                 [row] (channels d))
            = [(snd (fst row), snd row)]).
  { intros row. unfold leftJoin. cbn [flat_map]. rewrite app_nil_r.
    pose proof (filter_key_unique c_id (v_channelId (fst (fst row)))
                  (channels d) Hnd) as Hlen.
    destruct (filter _ (channels d)) as [|c [|c' cs]]; simpl in Hlen;
      [reflexivity | reflexivity | lia]. }
  destruct (s_recordedAt s =? top) eqn:Et; cbn [map].
  - specialize (Hch ((v, Some s), Some (mkLatest (v_id v) top))).
    destruct (leftJoin _ [(v, Some s, Some (mkLatest (v_id v) top))] (channels d))
      as [|r [|r' rs]]; try discriminate Hch.
    cbn [map] in Hch. injection Hch as H1 H2. cbn [filter].
    rewrite H1, H2. cbn [is_latest latestRecordedAt l_videoId fst snd].
    rewrite Hs, String.eqb_refl, Et. cbn [andb map]. now rewrite H1.
  - specialize (Hch ((v, Some s), None)).
    destruct (leftJoin _ [(v, Some s, None)] (channels d))
      as [|r [|r' rs]]; try discriminate Hch.
    cbn [map] in Hch. injection Hch as H1 H2. cbn [filter].
    rewrite H1, H2. reflexivity.
Qed.

End QueryFacts.

Module RankingFacts.
Import Data Effects Store Queries Routes IngestFacts QueryFacts.
Local Open Scope Z_scope.

Lemma leftJoin_app {A B} (on : A -> B -> bool) l1 l2 r :
  leftJoin on (l1 ++ l2) r = leftJoin on l1 r ++ leftJoin on l2 r.
Proof. unfold leftJoin. apply flat_map_app. Qed.

Lemma filter_all {A} (p : A -> bool) l :
  (forall x, In x l -> p x = true) -> filter p l = l.
Proof.
  induction l as [|a l IH]; intros H; simpl; [reflexivity|].
  rewrite (H a) by now left. f_equal. apply IH. intros x Hx. apply H. now right.
Qed.

Lemma rows_of_snapshots d v top ss :
  NoDup (map c_id (channels d)) ->
  Forall (fun s => String.eqb (s_videoId s) (v_id v) = true) ss ->
  filter (fun l => String.eqb (v_id v) (l_videoId l))
         (latestVideoStatistics (videoStatistics d))
  = [mkLatest (v_id v) top] ->
  map jr_stat
    (filter (fun r => is_latest (jr_stat r) (jr_latest r))
       (leftJoin (fun r c => String.eqb (v_channelId (fst (fst r))) (c_id c))
          (leftJoin (fun r l => is_latest (snd r) (Some l))
             (map (fun s => (v, Some s)) ss)
             (latestVideoStatistics (videoStatistics d)))
          (channels d)))
  = map Some (filter (fun x => s_recordedAt x =? top) ss).
Proof.
  intros Hnd Hss Hl. induction Hss as [|s ss Hs _ IH]; [reflexivity|].
  change (map (fun s => (v, Some s)) (s :: ss))
    with ([(v, Some s)] ++ map (fun s => (v, Some s)) ss).
  rewrite !leftJoin_app, filter_app, map_app.
  transitivity ((if s_recordedAt s =? top then [Some s] else [])
                ++ map Some (filter (fun x => s_recordedAt x =? top) ss)).
  - apply f_equal2; [exact (rows_for_one d v s top Hnd Hs Hl) | exact IH].
  - cbn [filter]. destruct (s_recordedAt s =? top); reflexivity.
Qed.

Lemma rows_for_newest d v :
  NoDup (map c_id (channels d)) ->
  map jr_stat (rows_for d v)
  = map Some (newest (v_id v) (videoStatistics d)).
Proof.
  intros Hnd. unfold rows_for, newest.
  unfold leftJoin at 3. cbn [flat_map]. rewrite snapshots_of_join, app_nil_r.
  destruct (snapshots_of (v_id v) (videoStatistics d)) as [|s rest] eqn:Es.
  - rewrite filter_none; [reflexivity|].
    intros [[[v' os] ol] oc] H.
    apply leftJoin_in in H as [H _]. apply leftJoin_in in H as [H _].
    destruct H as [[= <- <-] | []]. reflexivity.
  - rewrite (rows_of_snapshots d v
               (maximum (s_recordedAt s) (map s_recordedAt rest))); auto.
    + rewrite <- Es. apply Forall_forall. intros x Hx.
      now apply filter_In in Hx.
    + now apply latest_of.
Qed.

Lemma rows_of_rows_for d v :
  NoDup (map v_id (videos d)) -> In v (videos d) -> rows_of v d = rows_for d v.
Proof.
  intros Hnd Hin. unfold rows_of.
  rewrite latest_rows_by_video, filter_flat_map.
  rewrite (flat_map_only v_id _ _ v Hnd Hin).
  - apply filter_all. intros r Hr. apply rows_for_video in Hr. subst v.
    apply String.eqb_refl.
  - intros v' _ Hne. apply filter_none. intros r Hr.
    apply rows_for_video in Hr. subst v'. now apply String.eqb_neq.
Qed.

Lemma newest_spec vid stats s :
  In s (newest vid stats) ->
  In s (snapshots_of vid stats) /\
  forall s', In s' (snapshots_of vid stats) -> s_recordedAt s' <= s_recordedAt s.
Proof.
  unfold newest. destruct (snapshots_of vid stats) as [|s0 rest]; [contradiction|].
  intros H. apply filter_In in H as [Hin Htop]. apply Z.eqb_eq in Htop.
  split; [assumption|]. intros s' Hs'. rewrite Htop.
  destruct (maximum_ge (map s_recordedAt rest) (s_recordedAt s0)) as [H0 Hrest].
  destruct Hs' as [<- | Hs']; [assumption|]. apply Hrest. now apply in_map.
Qed.

Lemma newest_nonempty vid stats :
  snapshots_of vid stats <> [] -> newest vid stats <> [].
Proof.
  unfold newest. destruct (snapshots_of vid stats) as [|s0 rest]; [congruence|].
  intros _ E.
  pose proof (maximum_in (map s_recordedAt rest) (s_recordedAt s0)) as Hin.
  change (s_recordedAt s0 :: map s_recordedAt rest)
    with (map s_recordedAt (s0 :: rest)) in Hin.
  apply in_map_iff in Hin as (s & Hs & Hin).
  assert (H : In s (filter (fun x => s_recordedAt x
                      =? maximum (s_recordedAt s0) (map s_recordedAt rest))
                      (s0 :: rest))).
  { apply filter_In. split; [assumption|]. now apply Z.eqb_eq. }
  rewrite E in H. contradiction.
Qed.

(** C4, as the code has it. With ids that identify videos and channels,
    the rows that the ranking queries keep for a video are its snapshots
    of greatest [recordedAt], one row for each: at least one row when the
    video has a snapshot, none of a snapshot that is not the latest, and
    one row only when no other snapshot shares the greatest [recordedAt]. *)
Theorem latest_rows_of_video (d : DB) (v : VideoRow) :
  NoDup (map v_id (videos d)) ->
  NoDup (map c_id (channels d)) ->
  In v (videos d) ->
  map jr_stat (rows_of v d) = map Some (newest (v_id v) (videoStatistics d)) /\
  List.length (rows_of v d)
  = List.length (newest (v_id v) (videoStatistics d)) /\
  (snapshots_of (v_id v) (videoStatistics d) <> [] -> rows_of v d <> []) /\
  (forall r, In r (rows_of v d) ->
     exists s, jr_stat r = Some s /\
               In s (snapshots_of (v_id v) (videoStatistics d)) /\
               forall s', In s' (snapshots_of (v_id v) (videoStatistics d)) ->
                          s_recordedAt s' <= s_recordedAt s).
Proof.
  intros Hv Hc Hin.
  assert (E : map jr_stat (rows_of v d)
              = map Some (newest (v_id v) (videoStatistics d))).
  { rewrite rows_of_rows_for by assumption. now apply rows_for_newest. }
  split; [exact E|]. split; [|split].
  - rewrite <- (length_map jr_stat), E. apply length_map.
  - intros Hs Hnil. apply (newest_nonempty _ _ Hs).
    rewrite Hnil in E. simpl in E. symmetry in E. now apply map_eq_nil in E.
  - intros r Hr. apply (in_map jr_stat) in Hr. rewrite E in Hr.
    apply in_map_iff in Hr as (s & Hs & Hnew). exists s.
    split; [now symmetry|]. now apply newest_spec.
Qed.

(** *** Videos without a snapshot *)

Lemma latest_rows_snapshot d r :
  In r (latest_rows d) ->
  exists s, jr_stat r = Some s
            /\ In s (snapshots_of (v_id (jr_video r)) (videoStatistics d)).
Proof.
  rewrite latest_rows_by_video. intros H.
  apply in_flat_map in H as (v & _ & H).
  rewrite (rows_for_video d v r H). now apply rows_for_snapshot.
Qed.

Lemma select_all_in {A B} (f : A -> option B) l rows b :
  select_all f l = Some rows -> In b rows -> exists a, In a l /\ f a = Some b.
Proof.
  revert rows. induction l as [|a l IH]; intros rows; simpl.
  - intros [= <-] [].
  - destruct (f a) as [b'|] eqn:E; [|discriminate].
    destruct (select_all f l) as [bs|]; [|discriminate].
    intros [= <-] [<- | Hb]; [eauto|].
    destruct (IH bs eq_refl Hb) as (a' & Ha' & E'). eauto.
Qed.

Lemma insert_by_in {A} (le : A -> A -> bool) a l x :
  In x (insert_by le a l) <-> x = a \/ In x l.
Proof.
  induction l as [|b l IH]; simpl; [intuition|].
  destruct (le a b); simpl; [intuition|]. rewrite IH. intuition.
Qed.

Lemma order_by_in {A} (le : A -> A -> bool) l x :
  In x (order_by le l) <-> In x l.
Proof.
  unfold order_by. induction l as [|a l IH]; simpl; [reflexivity|].
  rewrite insert_by_in, IH. intuition.
Qed.

Lemma firstn_in {A} n : forall (l : list A) x, In x (firstn n l) -> In x l.
Proof.
  induction n as [|n IH]; intros [|a l] x; simpl; try contradiction.
  intros [<- | H]; [now left | right; now apply IH].
Qed.

Lemma first_per_channel_in rows x : In x (first_per_channel rows) -> In x rows.
Proof.
  unfold first_per_channel.
  assert (H : forall acc, In x (fold_left
                (fun acc video =>
                   if existsb (fun a => String.eqb (r_channelId a) (r_channelId video)) acc
                   then acc else acc ++ [video]) rows acc) -> In x acc \/ In x rows).
  { induction rows as [|r rows IH]; intros acc; simpl; [auto|].
    intros H. apply IH in H as [H | H]; [|auto].
    destruct (existsb _ acc); [auto|].
    apply in_app_iff in H as [H | [<- | []]]; auto. }
  intros Hx. apply H in Hx as [[] | Hx]. assumption.
Qed.

Lemma selected_has_snapshot field d rows row :
  select_all (select_row field) (latest_rows d) = Some rows -> In row rows ->
  snapshots_of (r_videoId row) (videoStatistics d) <> [].
Proof.
  intros Hsel Hin. destruct (select_all_in _ _ _ _ Hsel Hin) as (r & Hr & E).
  unfold select_row in E. destruct (metric field (jr_stat r)); [|discriminate].
  injection E as <-. simpl.
  apply latest_rows_snapshot in Hr as (s & _ & Hs). intros E. now rewrite E in Hs.
Qed.

Lemma channel_videos_statistics channelId d v :
  String.eqb (v_channelId v) channelId = true -> In v (videos d) ->
  filter (fun stat => String.eqb (s_videoId stat) (v_id v))
    (filter (fun s => existsb (String.eqb (s_videoId s))
                        (map v_id (filter (fun v => String.eqb (v_channelId v) channelId)
                                          (videos d))))
            (videoStatistics d))
  = snapshots_of (v_id v) (videoStatistics d).
Proof.
  intros Hc Hin. unfold snapshots_of.
  induction (videoStatistics d) as [|s l IH]; [reflexivity|]. cbn [filter].
  destruct (String.eqb_spec (s_videoId s) (v_id v)) as [E|].
  - replace (existsb _ _) with true.
    + cbn [filter]. rewrite E, String.eqb_refl. now rewrite <- IH.
    + symmetry. apply existsb_exists. exists (v_id v). split.
      * apply in_map, filter_In. auto.
      * now apply String.eqb_eq.
  - destruct (existsb _ _); [|assumption].
    cbn [filter]. destruct (String.eqb_spec (s_videoId s) (v_id v)); [congruence|].
    assumption.
Qed.

(** The rankings answer only with videos that have a snapshot. *)
Lemma rankings_need_a_snapshot (d : DB) (v : VideoRow) :
  snapshots_of (v_id v) (videoStatistics d) = [] ->
  (forall field limit rows,
     top_query field limit d = Some rows ->
     forall row, In row rows -> r_videoId row <> v_id v) /\
  (forall rows,
     top_channel_query d = Some rows ->
     forall row, In row rows -> r_videoId row <> v_id v).
Proof.
  intros Hnone. split.
  - intros field limit rows H row Hrow E.
    unfold top_query in H.
    destruct (select_all _ _) as [all|] eqn:Hsel; [|discriminate].
    injection H as <-. apply firstn_in, order_by_in in Hrow.
    apply (selected_has_snapshot _ _ _ _ Hsel Hrow). now rewrite E.
  - intros rows H row Hrow E.
    unfold top_channel_query in H.
    destruct (select_all _ _) as [all|] eqn:Hsel; [|discriminate].
    injection H as <-. apply first_per_channel_in, order_by_in in Hrow.
    apply (selected_has_snapshot _ _ _ _ Hsel Hrow). now rewrite E.
Qed.

Lemma get_channels_id_ok env channelId w data :
  fst (get_channels_id env channelId w) = Returned (ChannelVideosOk data) ->
  data = channel_videos_query channelId (db w).
Proof.
  cbv [get_channels_id try_catch bind execute gets ret throw log modify].
  intros H. repeat crack H; cbn [fst] in H; try discriminate H.
  now injection H as <-.
Qed.

(** What the code does have for a video without a snapshot. The
    listing of a channel
    ([/channels/:id]) has one row for each video of the channel, and the
    row of a video without a snapshot carries an empty list of statistics:
    the video is reported, no numeric field is made up for it. *)
Theorem channel_listing_keeps_videos (d : DB) (v : VideoRow) :
  In v (videos d) ->
  snapshots_of (v_id v) (videoStatistics d) = [] ->
  map vws_video (channel_videos_query (v_channelId v) d)
  = filter (fun x => String.eqb (v_channelId x) (v_channelId v)) (videos d) /\
  In (mkVideoWithStatistics v []) (channel_videos_query (v_channelId v) d) /\
  forall env w data,
    db w = d ->
    fst (get_channels_id env (v_channelId v) w) = Returned (ChannelVideosOk data) ->
    map vws_video data
    = filter (fun x => String.eqb (v_channelId x) (v_channelId v)) (videos d) /\
    In (mkVideoWithStatistics v []) data.
Proof.
  intros Hin Hnone.
  assert (Hrows : map vws_video (channel_videos_query (v_channelId v) d)
                  = filter (fun x => String.eqb (v_channelId x) (v_channelId v))
                           (videos d)).
  { unfold channel_videos_query. rewrite map_map. cbn [vws_video]. apply map_id. }
  assert (Hrow : In (mkVideoWithStatistics v [])
                    (channel_videos_query (v_channelId v) d)).
  { unfold channel_videos_query. apply in_map_iff. exists v. split.
    - f_equal. rewrite channel_videos_statistics; auto using String.eqb_refl.
    - apply filter_In. split; [assumption | apply String.eqb_refl]. }
  split; [exact Hrows|]. split; [exact Hrow|].
  intros env w data Hd Hok. apply get_channels_id_ok in Hok. subst. auto.
Qed.

End RankingFacts.

(** ** The channel rollup *)

Module RollupFacts.
Import Data Queries QueryFacts RankingFacts.
Local Open Scope Z_scope.

Lemma has_key_lookup k m :
  has_key k m = match lookup k m with Some _ => true | None => false end.
Proof.
  unfold has_key, lookup. induction m as [|e m IH]; simpl; [reflexivity|].
  destruct (String.eqb (cs_channelId e) k); [reflexivity | exact IH].
Qed.

Lemma lookup_app k m x :
  lookup k (m ++ [x])
  = match lookup k m with
    | Some e => Some e
    | None => if String.eqb (cs_channelId x) k then Some x else None
    end.
Proof.
  unfold lookup. induction m as [|e m IH]; simpl; [reflexivity|].
  destruct (String.eqb (cs_channelId e) k); [reflexivity | exact IH].
Qed.

Lemma lookup_add_counts_same k l c m :
  lookup k (add_counts k l c m) = option_map (fun e => bump e l c) (lookup k m).
Proof.
  unfold lookup, add_counts. induction m as [|e m IH]; simpl; [reflexivity|].
  destruct (String.eqb (cs_channelId e) k) eqn:E; simpl; rewrite E; [reflexivity|].
  exact IH.
Qed.

Lemma lookup_add_counts_other k k' l c m :
  k <> k' -> lookup k (add_counts k' l c m) = lookup k m.
Proof.
  intros Hne. unfold lookup, add_counts. induction m as [|e m IH]; simpl; [reflexivity|].
  destruct (String.eqb_spec (cs_channelId e) k') as [E'|]; simpl.
  - destruct (String.eqb_spec (cs_channelId e) k); [congruence | exact IH].
  - destruct (String.eqb (cs_channelId e) k); [reflexivity | exact IH].
Qed.

Lemma bump_zero e : bump e 0 0 = e.
Proof. destruct e. unfold bump. simpl. f_equal; lia. Qed.

Lemma bump_bump e l c l' c' : bump (bump e l c) l' c' = bump e (l + l') (c + c').
Proof. unfold bump. simpl. f_equal; lia. Qed.

(** The entry of a channel after the rows have been aggregated. *)
Lemma fold_rows_entry c rows : forall m,
  c_id c <> EmptyString ->
  (forall row, In row rows -> of_channel (c_id c) row = true -> fst (fst row) = c) ->
  lookup (c_id c) (fold_left aggregate_row rows m)
  = match lookup (c_id c) m with
    | Some e =>
        Some (bump e (sumZ (map (row_value likeCount) (filter (of_channel (c_id c)) rows)))
                     (sumZ (map (row_value commentCount) (filter (of_channel (c_id c)) rows))))
    | None =>
        if existsb (of_channel (c_id c)) rows
        then Some (mkChannelStat (c_id c) (c_channelName c) (c_followersCount c)
                     (c_viewsCount c)
                     (sumZ (map (row_value likeCount) (filter (of_channel (c_id c)) rows)))
                     (sumZ (map (row_value commentCount) (filter (of_channel (c_id c)) rows))))
        else None
    end.
Proof.
  induction rows as [|row rows IH]; intros m Hid Hrows.
  - simpl. destruct (lookup (c_id c) m); [now rewrite bump_zero | reflexivity].
  - cbn [fold_left]. rewrite IH; auto; [|intros r Hr; apply Hrows; now right].
    cbn [filter existsb].
    destruct (of_channel (c_id c) row) eqn:Hof.
    + assert (Hc : fst (fst row) = c) by (apply Hrows; [now left | assumption]).
      destruct row as [[ch ov] os]. cbn [fst snd] in Hc. subst ch.
      cbn [orb map sumZ fold_right]. fold sumZ.
      unfold aggregate_row. cbn [fst snd row_value].
      destruct (String.eqb_spec (c_id c) EmptyString); [congruence|].
      rewrite has_key_lookup.
      destruct os as [stat|].
      * rewrite lookup_add_counts_same. fold (snapshot_value likeCount stat).
        fold (snapshot_value commentCount stat).
        destruct (lookup (c_id c) m) as [e|] eqn:El.
        -- rewrite El. cbn [option_map]. now rewrite bump_bump.
        -- rewrite lookup_app, El. cbn [cs_channelId]. rewrite String.eqb_refl.
           reflexivity.
      * destruct (lookup (c_id c) m) as [e|] eqn:El.
        -- rewrite El. reflexivity.
        -- rewrite lookup_app, El. cbn [cs_channelId]. rewrite String.eqb_refl.
           unfold bump. reflexivity.
    + cbn [orb].
      assert (Hne : c_id (fst (fst row)) <> c_id c)
        by (now apply String.eqb_neq).
      assert (Hsame : lookup (c_id c) (aggregate_row m row) = lookup (c_id c) m).
      { unfold aggregate_row.
        destruct (String.eqb (c_id (fst (fst row))) EmptyString); [reflexivity|].
        assert (H1 : lookup (c_id c)
                       (if has_key (c_id (fst (fst row))) m then m
                        else m ++ [mkChannelStat (c_id (fst (fst row)))
                                     (c_channelName (fst (fst row)))
                                     (c_followersCount (fst (fst row)))
                                     (c_viewsCount (fst (fst row))) 0 0])
                     = lookup (c_id c) m).
        { destruct (has_key _ m); [reflexivity|]. rewrite lookup_app.
          destruct (lookup (c_id c) m); [reflexivity|]. cbn [cs_channelId].
          destruct (String.eqb_spec (c_id (fst (fst row))) (c_id c)); [congruence|].
          reflexivity. }
        destruct (snd row); [|exact H1].
        rewrite lookup_add_counts_other by congruence. exact H1. }
      now rewrite Hsame.
Qed.

Lemma sum_app l1 l2 : sumZ (l1 ++ l2) = sumZ l1 + sumZ l2.
Proof. unfold sumZ. induction l1 as [|x l1 IH]; simpl; [reflexivity | lia]. Qed.

Lemma NoDup_map_inj {A} (key : A -> string) l x y :
  NoDup (map key l) -> In x l -> In y l -> key x = key y -> x = y.
Proof.
  induction l as [|a l IH]; simpl; intros Hnd Hx Hy E; [contradiction|].
  inversion Hnd as [|? ? Hnotin Hnd']; subst.
  destruct Hx as [-> | Hx], Hy as [-> | Hy]; auto.
  - exfalso. apply Hnotin. rewrite E. now apply in_map.
  - exfalso. apply Hnotin. rewrite <- E. now apply in_map.
Qed.

Lemma statistics_rows_by_channel d :
  statistics_rows d = flat_map (channel_rows d) (channels d).
Proof.
  unfold statistics_rows, channel_rows.
  rewrite (leftJoin_by_row _ (channels d)). now rewrite leftJoin_flat_map.
Qed.

Lemma channel_rows_channel d c row : In row (channel_rows d c) -> fst (fst row) = c.
Proof.
  unfold channel_rows. destruct row as [[c' ov] os]. intros H.
  apply leftJoin_in in H as [H _]. apply leftJoin_in in H as [[<- | []] _].
  reflexivity.
Qed.

Lemma leftJoin_nonempty {A B} (on : A -> B -> bool) a l r :
  leftJoin on (a :: l) r <> [].
Proof.
  unfold leftJoin. cbn [flat_map].
  destruct (filter (on a) r); discriminate.
Qed.

Lemma video_rows_sum field d c vs :
  sumZ (map (row_value field)
         (leftJoin (fun (r : ChannelRow * option VideoRow) s =>
                      match snd r with
                      | Some v => String.eqb (s_videoId s) (v_id v)
                      | None => false
                      end)
            (map (fun v => (c, Some v)) vs) (videoStatistics d)))
  = sumZ (map (fun v => sumZ (map (snapshot_value field)
                              (snapshots_of (v_id v) (videoStatistics d)))) vs).
Proof.
  induction vs as [|v vs IH]; [reflexivity|].
  change (map (fun v => (c, Some v)) (v :: vs))
    with ([(c, Some v)] ++ map (fun v => (c, Some v)) vs).
  rewrite leftJoin_app, map_app, sum_app. cbn [map sumZ fold_right]. fold sumZ.
  apply f_equal2; [|exact IH].
  unfold leftJoin. cbn [flat_map snd]. rewrite app_nil_r.
  fold (snapshots_of (v_id v) (videoStatistics d)).
  destruct (snapshots_of (v_id v) (videoStatistics d)) as [|s ss]; [reflexivity|].
  rewrite map_map. reflexivity.
Qed.

Lemma channel_rows_sum field d c :
  sumZ (map (row_value field) (channel_rows d c)) = history_total field (c_id c) d.
Proof.
  unfold channel_rows, history_total.
  unfold leftJoin at 2. cbn [flat_map]. rewrite app_nil_r.
  destruct (filter (fun v => String.eqb (v_channelId v) (c_id c)) (videos d))
    as [|v vs] eqn:E.
  - unfold leftJoin. cbn [flat_map snd]. rewrite filter_none; [reflexivity|].
    reflexivity.
  - apply video_rows_sum.
Qed.

(** What [/statistics] computes: for a channel, the sums of the like and
    comment counts over every snapshot of every one of its videos. *)
Lemma rollup_sums_every_snapshot (d : DB) (c : ChannelRow) :
  NoDup (map c_id (channels d)) ->
  In c (channels d) ->
  c_id c <> EmptyString ->
  lookup (c_id c) (channelStatistics d)
  = Some (mkChannelStat (c_id c) (c_channelName c) (c_followersCount c)
            (c_viewsCount c)
            (history_total likeCount (c_id c) d)
            (history_total commentCount (c_id c) d)).
Proof.
  intros Hnd Hin Hid. unfold channelStatistics.
  assert (Hrows : forall row, In row (statistics_rows d) ->
                    of_channel (c_id c) row = true -> fst (fst row) = c).
  { intros row Hrow Hof. rewrite statistics_rows_by_channel in Hrow.
    apply in_flat_map in Hrow as (c' & Hc' & Hrow).
    apply channel_rows_channel in Hrow. unfold of_channel in Hof.
    apply String.eqb_eq in Hof. rewrite Hrow in *.
    apply (NoDup_map_inj c_id (channels d)); assumption. }
  rewrite (fold_rows_entry c _ [] Hid Hrows). cbn [lookup find].
  assert (Hfilter : filter (of_channel (c_id c)) (statistics_rows d)
                    = channel_rows d c).
  { rewrite statistics_rows_by_channel, filter_flat_map.
    rewrite (flat_map_only c_id _ _ c Hnd Hin).
    - apply filter_all. intros row Hrow. apply channel_rows_channel in Hrow.
      unfold of_channel. rewrite Hrow. apply String.eqb_refl.
    - intros c' _ Hne. apply filter_none. intros row Hrow.
      apply channel_rows_channel in Hrow. unfold of_channel. rewrite Hrow.
      now apply String.eqb_neq. }
  rewrite Hfilter, !channel_rows_sum.
  replace (existsb (of_channel (c_id c)) (statistics_rows d)) with true;
    [reflexivity|].
  symmetry. apply existsb_exists.
  destruct (channel_rows d c) as [|row rest] eqn:E.
  - unfold channel_rows in E. unfold leftJoin at 2 in E. cbn [flat_map] in E.
    rewrite app_nil_r in E.
    destruct (filter _ (videos d)) as [|v vs];
      [|cbn [map] in E]; now apply leftJoin_nonempty in E.
  - exists row.
    assert (Hrow : In row (filter (of_channel (c_id c)) (statistics_rows d)))
      by (rewrite Hfilter; now left).
    apply filter_In in Hrow. exact Hrow.
Qed.

End RollupFacts.

(** ** Scenarios *)

Module Scenarios.
Import Data Effects Upstream Store Queries Routes Keeps Server Examples.
Import HandleFacts BatchFacts IngestFacts CacheFacts QuotaFacts RefreshFacts
  QueryFacts RankingFacts.
Local Open Scope Z_scope.

(** C1. On video A with a snapshot of 10 likes and 1 comment at time 1 and
    one of 30 likes and 2 comments at time 3, the rollup of [/statistics]
    is 40 likes and 3 comments, the sums over the whole history; the
    latest snapshot alone gives 30 and 2. *)
Theorem rollup_sums_whole_history :
  channelStatistics db_history
  = [mkChannelStat "UC1" "@one" 100 1000 40 3] /\
  SpecRollup.latest_total likeCount "UC1" db_history = 30 /\
  SpecRollup.latest_total commentCount "UC1" db_history = 2 /\
  fst (get_statistics env_up (world_of db_history))
  = Returned (StatisticsOk [mkChannelStat "UC1" "@one" 100 1000 40 3] "database").
Proof.
  split; [vm_compute; reflexivity|]. split; [vm_compute; reflexivity|].
  split; vm_compute; reflexivity.
Qed.



(** C3. Video A of [UC1] is in the table and has no snapshot.  The
    rankings mean to report it: their LEFT JOIN keeps a row for A with no
    statistics, and the column they select turns the missing statistic
    into 0.  Their WHERE on the joined statistics then drops that row,
    and [/videos/top-views], [/videos/top-likes], [/videos/top-comments]
    and [/videos/top-channel-views] answer 200 with no row at all, where
    the specification has one row for A with 0. *)
Theorem rankings_omit_video_without_snapshot :
  In videoA (videos db_no_snapshot) /\
  snapshots_of (v_id videoA) (videoStatistics db_no_snapshot) = [] /\
  SpecRanking.joined_rows db_no_snapshot
  = [(videoA, None, None, Some channel1)] /\
  select_row viewCount (videoA, None, None, Some channel1)
  = Some (mkRankedVideo "UC1" (Some "@one"%string) "A" (v_title videoA) 0) /\
  latest_rows db_no_snapshot
  = filter (fun r => is_latest (jr_stat r) (jr_latest r))
           (SpecRanking.joined_rows db_no_snapshot) /\
  latest_rows db_no_snapshot = [] /\
  fst (get_videos_top_views env_up 5 (world_of db_no_snapshot))
  = Returned (RankingOk []) /\
  fst (get_videos_top_likes env_up 5 (world_of db_no_snapshot))
  = Returned (RankingOk []) /\
  fst (get_videos_top_comments env_up 5 (world_of db_no_snapshot))
  = Returned (RankingOk []) /\
  fst (get_videos_top_channel_views env_up (world_of db_no_snapshot))
  = Returned (RankingOk []) /\
  SpecRanking.reported viewCount db_no_snapshot = [("A"%string, 0)] /\
  SpecRanking.reported likeCount db_no_snapshot = [("A"%string, 0)] /\
  SpecRanking.reported commentCount db_no_snapshot = [("A"%string, 0)].
Proof.
  split; [simpl; tauto|]. repeat split; vm_compute; reflexivity.
Qed.

(** The listing of [UC1] has video A with no statistics. *)
Lemma channel_listing_keeps_videos_witness :
  In (mkVideoWithStatistics videoA [])
     (channel_videos_query "UC1" db_no_snapshot).
Proof.
  refine (proj1 (proj2 (channel_listing_keeps_videos db_no_snapshot videoA _
                          eq_refl))).
  simpl. tauto.
Defined.

(** C4, counterexample. The two snapshots of video A carry the same
    [recordedAt], and the ranking queries keep two rows for it. *)
Lemma tie_gives_two_rows :
  In videoA (videos db_tie) /\
  snapshots_of (v_id videoA) (videoStatistics db_tie) <> [] /\
  List.length (rows_of videoA db_tie) = 2%nat.
Proof.
  split; [simpl; tauto|]. split; [discriminate|]. vm_compute. reflexivity.
Qed.

(** C4 at work: video A with snapshots at times 1 and 3. *)
Lemma latest_rows_of_video_witness :
  List.length (rows_of videoA db_history)
  = List.length (newest "A" (videoStatistics db_history)).
Proof.
  refine (proj1 (proj2 (latest_rows_of_video db_history videoA _ _ _))).
  - repeat constructor. simpl. tauto.
  - repeat constructor. simpl. tauto.
  - simpl. tauto.
Defined.

(** C5, counterexample. A rollup that had to be computed is tagged
    "database", not "computed". *)
Lemma computed_rollup_is_tagged_database :
  youtube_cache (world_of db_history) = None /\
  fst (get_statistics env_up (world_of db_history))
  = Returned (StatisticsOk (channelStatistics db_history) "database") /\
  fst (get_statistics env_up (world_of db_history))
  <> Returned (StatisticsOk (channelStatistics db_history) "computed").
Proof.
  split; [reflexivity|]. split; [vm_compute; reflexivity|].
  vm_compute. discriminate.
Qed.

(** C5 at work: a hit, whatever the tables hold. *)
Lemma get_statistics_cache_aside_witness :
  get_statistics env_up (with_db empty_db world_cached)
  = (Returned (StatisticsOk stale "cache"), with_db empty_db world_cached).
Proof.
  refine (proj1 (get_statistics_cache_aside env_up world_cached)
            (mkCacheEntry stale 3000) eq_refl _ env_up empty_db).
  reflexivity.
Defined.

(** C6 at work: an ingestion of 101 videos into a world whose cache holds
    a rollup. *)
Lemma ingestion_invalidates_rollup_witness :
  youtube_cache (snd (get_root env_up 2 (Some "@one"%string) world_cached)) = None.
Proof.
  refine (proj1 (ingestion_invalidates_rollup env_up 2 (Some "@one"%string)
                   world_cached 101 6
                   (Some (mkChannelRow "UC1" "@one" (Some "https://img/1"%string)
                            "UU1" 100 1000 1 0 100))
                   (List.concat
                      (map (fun b => match videosList env_up b with
                                     | Body (Some items) => items
                                     | _ => []
                                     end)
                           (batches (map videoId (video_details 0 101)))))
                   _ _)).
  vm_compute. reflexivity.
Defined.

(** C7, counterexample. One lookup, two pages and three batches, the last
    of which is not answered, use 5 units, not 6. *)
Lemma failed_batch_is_not_charged :
  List.length (batches (map videoId (video_details 0 60 ++ video_details 60 41)))
  = 3%nat /\
  totalQuotaUsed
    (snd (get_root env_batch_down 2 (Some "@one"%string) (world_of empty_db))) = 5 /\
  5 <> 1 * channels_list QUOTA_COSTS + 2 * playlistItems_list QUOTA_COSTS
       + 3 * videos_list QUOTA_COSTS.
Proof.
  split; [vm_compute; reflexivity|]. split; [vm_compute; reflexivity|].
  discriminate.
Qed.

(** C7 at work: one lookup, two pages, three batches that are answered. *)
Lemma ingestion_quota_witness :
  totalQuotaUsed (snd (get_root env_up 2 (Some "@one"%string) world_cached)) = 6.
Proof.
  refine (proj1 (ingestion_quota env_up 2 (Some "@one"%string) world_cached
                   "@one" item1 [] page1 page2
                   (video_details 0 60) (video_details 60 41)
                   eq_refl eq_refl eq_refl eq_refl eq_refl eq_refl eq_refl
                   eq_refl eq_refl eq_refl eq_refl eq_refl _ _ _)).
  - vm_compute. reflexivity.
  - intros b _. discriminate.
  - apply le_n.
Defined.

(** C10 at work: the API reports the channel with "0" subscribers. *)
Lemma ingest_rejects_zero_counters_witness :
  get_root env_no_follower 2 (Some "@one"%string) (world_of empty_db)
  = (Returned (IngestText 400 invalid_input), with_quota 1 (world_of empty_db)).
Proof.
  refine (proj1 (ingest_rejects_zero_counters env_no_follower 2
                   (Some "@one"%string) (world_of empty_db) "@one"
                   (channelDetailsOfItem item_no_follower)
                   (with_quota 1 (world_of empty_db)) eq_refl eq_refl eq_refl) _).
  left. reflexivity.
Defined.

End Scenarios.

(** ** The upserts *)

Module UpsertFacts.
Import Data Effects Upstream Store Columns.
Local Open Scope Z_scope.

Lemma has_channel_in channelId l :
  has_channel channelId l = true <-> In channelId (map c_id l).
Proof.
  unfold has_channel. rewrite existsb_exists, in_map_iff. split.
  - intros (r & Hr & E). apply String.eqb_eq in E. eauto.
  - intros (r & E & Hr). exists r. split; [assumption|]. now apply String.eqb_eq.
Qed.

Lemma upsert_channel_ids now new l :
  map c_id (upsert_channel now new l)
  = if has_channel (c_id new) l then map c_id l else map c_id l ++ [c_id new].
Proof.
  unfold upsert_channel. destruct (has_channel (c_id new) l).
  - rewrite map_map. apply map_ext. intros r.
    destruct (String.eqb (c_id r) (c_id new)); reflexivity.
  - now rewrite map_app.
Qed.

Lemma upsert_channel_fixed now new l :
  map channel_fixed (upsert_channel now new l)
  = if has_channel (c_id new) l then map channel_fixed l
    else map channel_fixed l ++ [channel_fixed new].
Proof.
  unfold upsert_channel. destruct (has_channel (c_id new) l).
  - rewrite map_map. apply map_ext. intros r.
    destruct (String.eqb (c_id r) (c_id new)); reflexivity.
  - now rewrite map_app.
Qed.

Lemma upsert_channel_find now new l :
  exists row,
    find (fun r => String.eqb (c_id r) (c_id new)) (upsert_channel now new l)
    = Some row /\
    c_id row = c_id new /\ c_channelName row = c_channelName new /\
    c_thumbnail row = c_thumbnail new /\
    c_channelUploadID row = c_channelUploadID new /\
    match find (fun r => String.eqb (c_id r) (c_id new)) l with
    | Some old => channel_fixed row = channel_fixed old /\ c_updatedAt row = now
    | None => row = new
    end.
Proof.
  unfold upsert_channel.
  destruct (has_channel (c_id new) l) eqn:Hhas.
  - unfold has_channel in Hhas. induction l as [|r l IH]; [discriminate|].
    simpl in *. destruct (String.eqb_spec (c_id r) (c_id new)) as [E|Hne].
    + simpl. rewrite E, String.eqb_refl. eexists. split; [reflexivity|].
      simpl. repeat split; auto. unfold channel_fixed. simpl. now rewrite E.
    + simpl. destruct (String.eqb_spec (c_id r) (c_id new)); [contradiction|].
      apply IH. exact Hhas.
  - assert (Hnone : find (fun r => String.eqb (c_id r) (c_id new)) l = None).
    { unfold has_channel in Hhas. induction l as [|r l IH]; [reflexivity|].
      simpl in *. destruct (String.eqb (c_id r) (c_id new)); [discriminate|].
      now apply IH. }
    rewrite Hnone. exists new. repeat split; auto.
    induction l as [|r l IH]; simpl in *.
    + now rewrite String.eqb_refl.
    + destruct (String.eqb (c_id r) (c_id new)); [discriminate|]. auto.
Qed.

(** X1. [insertChannel] on a table whose ids are unique: the ids stay
    unique; whatever the order of the rows, the ids, counters and
    [createdAt] of the table are those it had, with those of the new
    channel when it was not there; the row returned carries the name,
    thumbnail and upload id that were passed; when the channel was already
    there its counters and [createdAt] are the old ones (the new counters
    are dropped) and [updatedAt] is the time of the statement; the other
    tables are not touched. *)
Theorem insertChannel_upsert (env : Env) (channelId channelThumbnail
    channelUpload : string) (followers_count views_count video_count : Z)
    (channelName : string) (w : World) (returned : option ChannelRow)
    (w' : World) :
  insertChannel env channelId channelThumbnail channelUpload followers_count
    views_count video_count channelName w = (Returned returned, w') ->
  NoDup (map c_id (channels (db w))) ->
  NoDup (map c_id (channels (db w'))) /\
  Permutation (map channel_fixed (channels (db w')))
    (if has_channel channelId (channels (db w))
     then map channel_fixed (channels (db w))
     else mkChannelFixed channelId followers_count views_count video_count
            (clock w)
          :: map channel_fixed (channels (db w))) /\
  (exists row,
     returned = Some row /\ In row (channels (db w')) /\
     c_id row = channelId /\ c_channelName row = channelName /\
     c_thumbnail row = Some channelThumbnail /\
     c_channelUploadID row = channelUpload /\ c_updatedAt row = clock w /\
     match find (fun r => String.eqb (c_id r) channelId) (channels (db w)) with
     | Some old => channel_fixed row = channel_fixed old
     | None =>
         channel_fixed row
         = mkChannelFixed channelId followers_count views_count video_count
             (clock w)
     end) /\
  videos (db w') = videos (db w) /\
  videoStatistics (db w') = videoStatistics (db w).
Proof.
  cbv [insertChannel bind execute gets modify ret throw].
  destruct (refused env InsertChannel); [discriminate|].
  intros [= <- <-] Hnd. cbn [db channels videos videoStatistics with_db with_channels].
  set (new := mkChannelRow channelId channelName (Some channelThumbnail)
                channelUpload followers_count views_count video_count
                (clock w) (clock w)).
  split; [|split; [|split; [|split; reflexivity]]].
  - rewrite upsert_channel_ids. destruct (has_channel (c_id new) _) eqn:Hhas;
      [assumption|].
    apply NoDup_app; [assumption | repeat constructor; intros [] |].
    intros x Hx [<- | []]. apply has_channel_in in Hx. congruence.
  - rewrite upsert_channel_fixed. change (c_id new) with channelId.
    destruct (has_channel channelId _); [reflexivity|].
    symmetry. apply Permutation_cons_append.
  - destruct (upsert_channel_find (clock w) new (channels (db w)))
      as (row & Hfind & H1 & H2 & H3 & H4 & H5).
    exists row. change (c_id new) with channelId in *.
    split; [exact Hfind|]. split; [now apply find_some in Hfind|].
    repeat split; auto.
    + destruct (find _ (channels (db w))); [tauto | now subst row].
    + destruct (find _ (channels (db w))); [tauto | now subst row].
Qed.

End UpsertFacts.

(** ** The table of videos *)

Module VideoFacts.
Import Data Effects Upstream Store Columns UpsertFacts.
Local Open Scope Z_scope.

Lemma has_video_in videoId l :
  has_video videoId l = true <-> In videoId (map v_id l).
Proof.
  unfold has_video. rewrite existsb_exists, in_map_iff. split.
  - intros (r & Hr & E). apply String.eqb_eq in E. eauto.
  - intros (r & E & Hr). exists r. split; [assumption|]. now apply String.eqb_eq.
Qed.

Lemma upsert_video_fixed now l new :
  map video_fixed (upsert_video now l new)
  = if has_video (v_id new) l then map video_fixed l
    else map video_fixed l ++ [video_fixed new].
Proof.
  unfold upsert_video. destruct (has_video (v_id new) l).
  - rewrite map_map. apply map_ext. intros r.
    destruct (String.eqb (v_id r) (v_id new)); reflexivity.
  - now rewrite map_app.
Qed.

Lemma upsert_video_ids now l new :
  map v_id (upsert_video now l new)
  = if has_video (v_id new) l then map v_id l else map v_id l ++ [v_id new].
Proof.
  unfold upsert_video. destruct (has_video (v_id new) l).
  - rewrite map_map. apply map_ext. intros r.
    destruct (String.eqb (v_id r) (v_id new)); reflexivity.
  - now rewrite map_app.
Qed.

Lemma upsert_video_has now l new : has_video (v_id new) (upsert_video now l new) = true.
Proof.
  apply has_video_in. rewrite upsert_video_ids.
  destruct (has_video (v_id new) l) eqn:E.
  - now apply has_video_in.
  - apply in_or_app. right. now left.
Qed.

Lemma upsert_video_keeps now l new x :
  In x (map v_id l) -> In x (map v_id (upsert_video now l new)).
Proof.
  rewrite upsert_video_ids. destruct (has_video (v_id new) l); [auto|].
  intros H. apply in_or_app. now left.
Qed.

Lemma upsert_video_nodup now l new :
  NoDup (map v_id l) -> NoDup (map v_id (upsert_video now l new)).
Proof.
  intros Hnd. rewrite upsert_video_ids.
  destruct (has_video (v_id new) l) eqn:E; [assumption|].
  apply NoDup_app; [assumption | repeat constructor; intros [] |].
  intros x Hx [<- | []]. apply has_video_in in Hx. congruence.
Qed.

(** The table after a list of rows has been upserted. *)
Lemma upserts_fixed now rows : forall l,
  exists added,
    map video_fixed (fold_left (upsert_video now) rows l)
    = map video_fixed l ++ added.
Proof.
  induction rows as [|new rows IH]; intros l; simpl.
  - exists []. now rewrite app_nil_r.
  - destruct (IH (upsert_video now l new)) as (added & ->).
    rewrite upsert_video_fixed. destruct (has_video (v_id new) l); [eauto|].
    rewrite <- app_assoc. eauto.
Qed.

Lemma upserts_nodup now rows : forall l,
  NoDup (map v_id l) -> NoDup (map v_id (fold_left (upsert_video now) rows l)).
Proof.
  induction rows as [|new rows IH]; intros l H; simpl; [assumption|].
  apply IH. now apply upsert_video_nodup.
Qed.

Lemma upserts_keep now rows : forall l x,
  In x (map v_id l) -> In x (map v_id (fold_left (upsert_video now) rows l)).
Proof.
  induction rows as [|new rows IH]; intros l x H; simpl; [assumption|].
  apply IH. now apply upsert_video_keeps.
Qed.

Lemma upserts_have now rows : forall l new,
  In new rows -> In (v_id new) (map v_id (fold_left (upsert_video now) rows l)).
Proof.
  induction rows as [|r rows IH]; intros l new H; simpl in *; [contradiction|].
  destruct H as [<- | H].
  - apply upserts_keep. apply has_video_in. apply upsert_video_has.
  - now apply IH.
Qed.

Lemma insertVideos_returned env videoDetails channelId w w' :
  insertVideos env videoDetails channelId w = (Returned tt, w') ->
  w' = with_db (with_videos
                  (fold_left (upsert_video (clock w))
                     (map (videoRow (clock w) channelId) videoDetails)
                     (videos (db w)))
                  (db w)) w.
Proof.
  cbv [insertVideos bind values execute modify ret throw].
  destruct videoDetails as [|video rest]; [discriminate|].
  destruct (refused env InsertVideos); [discriminate|]. now intros [= <-].
Qed.

(** X2. [insertVideos], for videos whose ids differ from one another,
    never removes a row and never changes the id, the owning channel, the
    url or [createdAt] of a row that exists: whatever the order of the
    rows, these columns of the table afterwards are those of the table
    before and those of the rows that were added; every video that was
    passed is in the table afterwards; ids that were unique stay unique;
    channels and snapshots are not touched. *)
Theorem insertVideos_upsert (env : Env) (videoDetails : list VideoDetails)
    (channelId : string) (w w' : World) :
  NoDup (map videoId videoDetails) ->
  insertVideos env videoDetails channelId w = (Returned tt, w') ->
  (exists added, Permutation (map video_fixed (videos (db w')))
                   (map video_fixed (videos (db w)) ++ added)) /\
  (forall video, In video videoDetails ->
                 In (videoId video) (map v_id (videos (db w')))) /\
  (NoDup (map v_id (videos (db w))) -> NoDup (map v_id (videos (db w')))) /\
  channels (db w') = channels (db w) /\
  videoStatistics (db w') = videoStatistics (db w).
Proof.
  intros _ H. apply insertVideos_returned in H. subst w'.
  cbn [db channels videos videoStatistics with_db with_videos].
  split.
  { destruct (upserts_fixed (clock w)
                (map (videoRow (clock w) channelId) videoDetails)
                (videos (db w))) as [added E].
    exists added. now rewrite E. }
  split; [|split; [apply upserts_nodup | auto]].
  intros video Hin.
  change (videoId video) with (v_id (videoRow (clock w) channelId video)).
  apply upserts_have. now apply in_map.
Qed.

(** *** Inserting the same videos again *)

Lemma upsert_video_row now l new r :
  In r (upsert_video now l new) ->
  (v_id r = v_id new /\ v_title r = v_title new
   /\ v_thumbnailUrl r = v_thumbnailUrl new /\ v_updatedAt r = now
      \/ r = new)
  \/ (v_id r <> v_id new /\ In r l).
Proof.
  unfold upsert_video. destruct (has_video (v_id new) l) eqn:Hhas.
  - intros H. apply in_map_iff in H as (r0 & E & Hr0).
    destruct (String.eqb_spec (v_id r0) (v_id new)) as [Eid|Hne].
    + left. left. subst r. simpl. auto.
    + right. subst r. auto.
  - intros H. apply in_app_iff in H as [H | [<- | []]].
    + right. split; [|assumption]. intros E.
      assert (Hin : In (v_id new) (map v_id l)) by (rewrite <- E; now apply in_map).
      apply has_video_in in Hin. congruence.
    + left. now right.
Qed.

Lemma fold_snoc {A B} (f : A -> B -> A) l x a :
  fold_left f (l ++ [x]) a = f (fold_left f l a) x.
Proof. now rewrite fold_left_app. Qed.

Lemma settled_after now channelId videoDetails l :
  NoDup (map videoId videoDetails) ->
  settled videoDetails
    (fold_left (upsert_video now) (map (videoRow now channelId) videoDetails) l).
Proof.
  induction videoDetails as [|x vs IH] using rev_ind; intros Hnd.
  - intros video [].
  - rewrite map_app in Hnd. apply NoDup_remove in Hnd as [Hnd Hx].
    rewrite app_nil_r in Hnd, Hx. specialize (IH Hnd).
    rewrite map_app. cbn [map]. rewrite fold_snoc.
    set (table := fold_left _ _ l) in *.
    intros video Hin. apply in_app_iff in Hin as [Hin | [<- | []]].
    + destruct (IH video Hin) as [Hhas Hrows]. split.
      * apply has_video_in, upsert_video_keeps. now apply has_video_in.
      * intros r Hr E. apply upsert_video_row in Hr as [Hnew | [_ Hr]]; [|auto].
        exfalso. apply Hx. apply in_map_iff. exists video. split; [|assumption].
        destruct Hnew as [(E' & _) | ->]; [|exact (eq_sym E)].
        rewrite <- E. exact E'.
    + split; [apply (upsert_video_has now table (videoRow now channelId x))|].
      intros r Hr E. apply upsert_video_row in Hr as [Hnew | [Hne _]].
      * destruct Hnew as [(_ & H1 & H2 & _) | ->]; auto.
      * now contradiction Hne.
Qed.

Lemma settled_content videoDetails l l' :
  map video_content l' = map video_content l ->
  settled videoDetails l -> settled videoDetails l'.
Proof.
  intros E Hs video Hin. destruct (Hs video Hin) as [Hhas Hrows]. split.
  - apply has_video_in. apply has_video_in in Hhas.
    assert (Hids : map v_id l' = map v_id l).
    { transitivity (map (fun c => vf_id (fst c)) (map video_content l')).
      - now rewrite map_map.
      - rewrite E. now rewrite map_map. }
    now rewrite Hids.
  - intros r Hr Eid.
    assert (Hc : In (video_content r) (map video_content l))
      by (rewrite <- E; now apply in_map).
    apply in_map_iff in Hc as (r0 & Ec & Hr0).
    unfold video_content, video_fixed in Ec. injection Ec as E1 _ _ _ E2 E3.
    rewrite <- E2, <- E3. apply Hrows; [assumption | congruence].
Qed.

Lemma upsert_settled now channelId videoDetails video l :
  settled videoDetails l -> In video videoDetails ->
  map video_content (upsert_video now l (videoRow now channelId video))
  = map video_content l.
Proof.
  intros Hs Hin. destruct (Hs video Hin) as [Hhas Hrows].
  unfold upsert_video. cbn [v_id videoRow]. rewrite Hhas.
  rewrite map_map. apply map_ext_in. intros r Hr.
  destruct (String.eqb_spec (v_id r) (videoId video)) as [E|]; [|reflexivity].
  destruct (Hrows r Hr E) as [H1 H2]. unfold video_content, video_fixed.
  cbn. now rewrite H1, H2.
Qed.

Lemma upserts_settled now channelId videoDetails : forall sub l,
  settled videoDetails l -> incl sub videoDetails ->
  map video_content
    (fold_left (upsert_video now) (map (videoRow now channelId) sub) l)
  = map video_content l.
Proof.
  induction sub as [|x sub IH]; intros l Hs Hincl; [reflexivity|].
  cbn [map fold_left].
  assert (Hx : In x videoDetails) by (apply Hincl; now left).
  assert (Hone := upsert_settled now channelId videoDetails x l Hs Hx).
  rewrite IH.
  - exact Hone.
  - now apply (settled_content _ l).
  - intros y Hy. apply Hincl. now right.
Qed.

(** The rows that were written carry the time of the statement. *)
Lemma upserts_updatedAt now rows : forall l r,
  In r (fold_left (upsert_video now) rows l) ->
  In (v_id r) (map v_id rows) ->
  (forall new, In new rows -> v_updatedAt new = now) ->
  v_updatedAt r = now.
Proof.
  induction rows as [|x rows IH] using rev_ind; intros l r Hr Hid Hnow.
  - contradiction.
  - rewrite fold_snoc in Hr. apply upsert_video_row in Hr as [Hnew | [Hne Hr]].
    + destruct Hnew as [(_ & _ & _ & H) | ->]; [exact H|].
      apply Hnow, in_or_app. right. now left.
    + rewrite map_app in Hid. apply in_app_iff in Hid as [Hid | [E | []]].
      * apply (IH l r Hr Hid). intros new Hin. apply Hnow, in_or_app. now left.
      * now contradiction Hne.
Qed.

(** X3. Inserting the same videos (with ids that differ from one another)
    a second time, whenever and for whatever channel, changes nothing but
    [updatedAt]: the table has the same rows in the same order with the
    same id, channel, title, url, thumbnail and [createdAt], and the rows
    of the videos carry the time of the second statement. *)
Theorem insertVideos_twice (env env' : Env) (videoDetails : list VideoDetails)
    (channelId channelId' : string) (w w1 w1' w2 : World) :
  NoDup (map videoId videoDetails) ->
  insertVideos env videoDetails channelId w = (Returned tt, w1) ->
  videos (db w1') = videos (db w1) ->
  insertVideos env' videoDetails channelId' w1' = (Returned tt, w2) ->
  map video_content (videos (db w2)) = map video_content (videos (db w1)) /\
  forall r, In r (videos (db w2)) -> In (v_id r) (map videoId videoDetails) ->
            v_updatedAt r = clock w1'.
Proof.
  intros Hnd H1 Hsame H2.
  apply insertVideos_returned in H1, H2. subst w1 w2.
  cbn [db videos with_db with_videos] in *. rewrite Hsame. split.
  - apply (upserts_settled _ _ videoDetails); [|apply incl_refl].
    now apply settled_after.
  - intros r Hr Hid. apply (upserts_updatedAt _ _ _ _ Hr).
    + rewrite map_map. exact Hid.
    + intros new Hin. apply in_map_iff in Hin as (v & <- & _). reflexivity.
Qed.

End VideoFacts.

(** ** Invariants of the requests *)

Module InvariantFacts.
Import Data Effects Upstream Store Queries Routes Server Keeps Frame Columns
  Invariants Traffic CacheFacts UpsertFacts VideoFacts.
Local Open Scope Z_scope.

Lemma snapshots_grow_lawful : lawful snapshots_grow.
Proof.
  unfold snapshots_grow. split.
  - intros w. exists []. now rewrite app_nil_r.
  - intros w1 w2 w3 (a & Ha) (b & Hb). exists (a ++ b).
    now rewrite Hb, Ha, app_assoc.
  - intros w l. exists []. now rewrite app_nil_r.
Qed.

Lemma same_snapshots_grow w w' :
  videoStatistics (db w') = videoStatistics (db w) -> snapshots_grow w w'.
Proof. intros H. exists []. now rewrite app_nil_r. Qed.

Lemma snapshots_grow_insert env videoStats :
  keeps snapshots_grow (insertVideoStatistics env videoStats).
Proof.
  intros w.
  cbv [insertVideoStatistics try_catch bind values execute modify ret log throw].
  destruct videoStats as [|stat rest]; cbn;
    [exists []; now rewrite app_nil_r|].
  destruct (refused env InsertVideoStatistics); cbn.
  - exists []. now rewrite app_nil_r.
  - eexists. reflexivity.
Qed.

(** The ingestion, for a relation that its three insertions respect. *)
Lemma keeps_get_root_with (R : World -> World -> Prop) env fuel url :
  lawful R -> allows_quota R -> allows_cache_delete R ->
  (forall a b c d e f g, keeps R (insertChannel env a b c d e f g)) ->
  (forall videos channelId, keeps R (insertVideos env videos channelId)) ->
  (forall stats, keeps R (insertVideoStatistics env stats)) ->
  keeps R (get_root env fuel url).
Proof.
  intros HR HQ HD HC HV HS. unfold get_root.
  apply keeps_bind; [assumption | intros w; apply HQ |]. intros _.
  apply keeps_try_catch; [assumption | |].
  2:{ intros _. apply keeps_bind; [assumption | now apply keeps_log |].
      intros _. now apply keeps_ret. }
  destruct (negb (truthy url)); [now apply keeps_ret|].
  destruct (Handle.extractUsername (text url)) as [username|];
    [|now apply keeps_ret].
  destruct (String.eqb username EmptyString); [now apply keeps_ret|].
  apply keeps_bind; [assumption | now apply keeps_getUploadsChannelDetail |].
  intros details.
  destruct (negb (complete details)); [now apply keeps_ret|].
  apply keeps_bind; [assumption | now apply keeps_getPlaylistVideos |].
  intros videos.
  destruct (List.length videos =? 0)%nat; [now apply keeps_ret|].
  apply keeps_bind; [assumption | now apply keeps_getVideoStatistics |].
  intros stats.
  apply keeps_bind; [assumption | apply HC |]. intros channel.
  apply keeps_bind; [assumption | apply HV |]. intros _.
  apply keeps_bind; [assumption | apply HS |]. intros n.
  apply keeps_bind; [assumption | now apply keeps_cache_delete |]. intros _.
  apply keeps_bind; [assumption | now apply keeps_gets |]. intros q.
  now apply keeps_ret.
Qed.

(** The refresh, for a relation that the refresh of one channel
    respects. *)
Lemma keeps_refresh_with (R : World -> World -> Prop) env :
  lawful R -> allows_quota R ->
  (forall channelId, keeps R (refreshChannelDetails env channelId)) ->
  keeps R (post_channels_refresh env).
Proof.
  intros HR HQ HC. unfold post_channels_refresh.
  apply keeps_bind; [assumption | intros w; apply HQ |]. intros _.
  apply keeps_try_catch; [assumption | |].
  - apply keeps_bind; [assumption | |].
    + unfold refreshAllChannelDetails.
      apply keeps_bind; [assumption | now apply keeps_execute |]. intros _.
      apply keeps_bind; [assumption | now apply keeps_gets |]. intros l.
      apply keeps_bind; [assumption | |].
      * apply keeps_promise_all; [assumption|]. apply Forall_map, Forall_forall.
        intros ch _. apply HC.
      * intros _. apply keeps_bind; [assumption | now apply keeps_log |].
        intros _. now apply keeps_ret.
    + intros l. apply keeps_bind; [assumption | now apply keeps_gets |].
      intros q. now apply keeps_ret.
  - intros _. apply keeps_bind; [assumption | now apply keeps_log |].
    intros _. apply keeps_bind; [assumption | now apply keeps_gets |].
    intros q. now apply keeps_ret.
Qed.

Lemma get_statistics_db env w : db (snd (get_statistics env w)) = db w.
Proof.
  destruct (cache_hit_or_miss w) as [(e & Hc & Ht) | Hmiss].
  - now rewrite (get_statistics_hit env w e).
  - rewrite get_statistics_miss by assumption.
    destruct (refused env SelectRows); reflexivity.
Qed.

Lemma step_snapshots w r : snapshots_grow w (step w r).
Proof.
  pose proof snapshots_grow_lawful as HL.
  assert (HQ : allows_quota snapshots_grow)
    by (intros w0 q; now apply same_snapshots_grow).
  assert (HC : allows_channels snapshots_grow)
    by (intros w0 l; now apply same_snapshots_grow).
  assert (HV : allows_videos snapshots_grow)
    by (intros w0 l; now apply same_snapshots_grow).
  assert (HD : allows_cache_delete snapshots_grow)
    by (intros w0; now apply same_snapshots_grow).
  destruct r; cbn [step].
  - apply keeps_get_root_with; auto.
    + intros. now apply keeps_insertChannel.
    + intros. now apply keeps_insertVideos.
    + intros stats. apply snapshots_grow_insert.
  - apply same_snapshots_grow. now rewrite get_statistics_db.
  - now apply (keeps_post_channels_refresh snapshots_grow).
  - now apply (keeps_ranking snapshots_grow).
  - now apply (keeps_ranking snapshots_grow).
  - now apply (keeps_ranking snapshots_grow).
  - now apply (keeps_ranking snapshots_grow).
  - now apply (keeps_get_channels_id snapshots_grow).
  - now apply same_snapshots_grow.
Qed.

Lemma step_not_ingest w r :
  not_ingest r ->
  videoStatistics (db (step w r)) = videoStatistics (db w).
Proof.
  intros Hr.
  assert (Hq : forall A (m : M A), keeps quiet m ->
                 videoStatistics (db (snd (m w))) = videoStatistics (db w)).
  { intros A m Hm. now destruct (Hm w) as (_ & _ & H & _). }
  destruct r; cbn [step].
  - contradiction.
  - now rewrite get_statistics_db.
  - apply Hq, keeps_post_channels_refresh; auto with frame.
  - apply Hq, keeps_ranking; auto with frame.
  - apply Hq, keeps_ranking; auto with frame.
  - apply Hq, keeps_ranking; auto with frame.
  - apply Hq, keeps_ranking; auto with frame.
  - apply Hq, keeps_get_channels_id; auto with frame.
  - reflexivity.
Qed.

(** X4. Snapshots are only ever appended: after any requests, answered in
    any way, the snapshots that were in the table are still there,
    unchanged and in their place, followed by those that were added; and a
    request that is not an ingestion adds none. *)
Theorem snapshots_append_only (requests : list Request) (w : World) :
  (exists added,
     videoStatistics (db (run requests w)) = videoStatistics (db w) ++ added) /\
  forall r, not_ingest r ->
            videoStatistics (db (step w r)) = videoStatistics (db w).
Proof.
  split; [|intros r; apply step_not_ingest].
  change (snapshots_grow w (run requests w)).
  induction requests as [|r requests IH] using rev_ind.
  - apply (law_refl _ snapshots_grow_lawful).
  - rewrite run_snoc.
    eapply (law_trans _ snapshots_grow_lawful); [exact IH | apply step_snapshots].
Qed.

(** *** The refresh *)

Lemma channels_renamed_lawful : lawful channels_renamed.
Proof.
  unfold channels_renamed. split.
  - auto.
  - intros w1 w2 w3 (P1&?&?&?&?) (P2&?&?&?&?).
    split; [exact (perm_trans P2 P1)|]. repeat split; congruence.
  - auto.
Qed.

Lemma update_channel_fixed now channelId channel l :
  map channel_fixed (map (update_channel now channelId channel) l)
  = map channel_fixed l.
Proof.
  rewrite map_map. apply map_ext. intros r. unfold update_channel.
  destruct (String.eqb (c_id r) channelId); reflexivity.
Qed.

Lemma channels_renamed_refresh env channelId :
  keeps channels_renamed (refreshChannelDetails env channelId).
Proof.
  intros w.
  cbv [refreshChannelDetails try_catch bind fetch ret throw trackQuotaUsage
       modify execute log].
  destruct (channelsById env channelId) as [|[[|channel rest]|]];
    try (unfold channels_renamed; cbn; auto; fail).
  destruct (refused env (UpdateChannel channelId));
    unfold channels_renamed; cbn; auto.
  split; [now rewrite update_channel_fixed | auto].
Qed.

(** X5. A refresh never refreshes the counters.  After
    [POST /channels/refresh], however it is answered, and after the
    refreshes of any channels in any order (whatever part of a refresh
    that is rejected has been carried out), the ids, the three counters
    and the [createdAt] of the channels are, up to the order of the rows,
    what they were.  Videos, snapshots and the cached rollup are not
    touched either. *)
Theorem refresh_keeps_counters (env : Env) (w : World) (ids : list string)
    (w' : World) :
  w' = snd (post_channels_refresh env w)
  \/ w' = snd (promise_all (map (refreshChannelDetails env) ids) w) ->
  Permutation (map channel_fixed (channels (db w')))
    (map channel_fixed (channels (db w))) /\
  videos (db w') = videos (db w) /\
  videoStatistics (db w') = videoStatistics (db w) /\
  youtube_cache w' = youtube_cache w.
Proof.
  intros Hw'.
  assert (K : channels_renamed w w').
  { destruct Hw' as [-> | ->].
    - apply keeps_refresh_with.
      + apply channels_renamed_lawful.
      + intros w0 q. unfold channels_renamed. cbn. auto.
      + apply channels_renamed_refresh.
    - apply keeps_promise_all; [apply channels_renamed_lawful|].
      apply Forall_map, Forall_forall. intros k _.
      apply channels_renamed_refresh. }
  destruct K as (H1 & H2 & H3 & H4 & _). auto.
Qed.

(** *** Ids *)

Lemma ids_kept_unique_lawful : lawful ids_kept_unique.
Proof.
  unfold ids_kept_unique. split.
  - auto.
  - intros w1 w2 w3 [H1 H2] [H3 H4]. auto.
  - auto.
Qed.

Lemma same_tables_unique w w' :
  channels (db w') = channels (db w) -> videos (db w') = videos (db w) ->
  ids_kept_unique w w'.
Proof. unfold ids_kept_unique. intros -> ->. auto. Qed.

Lemma ids_insertChannel env a b c d e f g :
  keeps ids_kept_unique (insertChannel env a b c d e f g).
Proof.
  intros w. cbv [insertChannel bind execute gets modify ret throw].
  destruct (refused env InsertChannel); [now apply same_tables_unique|].
  unfold ids_kept_unique.
  cbn [snd db channels videos with_db with_channels]. split; [|auto].
  intros Hnd. rewrite upsert_channel_ids.
  destruct (has_channel _ _) eqn:Hhas; [assumption|].
  apply NoDup_app; [assumption | repeat constructor; intros [] |].
  intros x Hx [<- | []]. apply has_channel_in in Hx. congruence.
Qed.

Lemma ids_insertVideos env videoDetails channelId :
  keeps ids_kept_unique (insertVideos env videoDetails channelId).
Proof.
  intros w. cbv [insertVideos bind values execute modify ret throw].
  destruct videoDetails as [|video rest]; [now apply same_tables_unique|].
  destruct (refused env InsertVideos); [now apply same_tables_unique|].
  unfold ids_kept_unique.
  cbn [snd db channels videos with_db with_videos]. split; [auto|].
  apply upserts_nodup.
Qed.

Lemma ids_insertVideoStatistics env videoStats :
  keeps ids_kept_unique (insertVideoStatistics env videoStats).
Proof.
  intros w.
  cbv [insertVideoStatistics try_catch bind values execute modify ret log throw].
  destruct videoStats as [|stat rest]; [now apply same_tables_unique|].
  destruct (refused env InsertVideoStatistics); now apply same_tables_unique.
Qed.

Lemma update_channel_ids now channelId channel l :
  map c_id (map (update_channel now channelId channel) l) = map c_id l.
Proof.
  rewrite map_map. apply map_ext. intros r. unfold update_channel.
  destruct (String.eqb (c_id r) channelId); reflexivity.
Qed.

Lemma ids_refresh env channelId :
  keeps ids_kept_unique (refreshChannelDetails env channelId).
Proof.
  intros w.
  cbv [refreshChannelDetails try_catch bind fetch ret throw trackQuotaUsage
       modify execute log].
  destruct (channelsById env channelId) as [|[[|channel rest]|]];
    try (now apply same_tables_unique).
  destruct (refused env (UpdateChannel channelId));
    [now apply same_tables_unique|].
  unfold ids_kept_unique.
  cbn [snd db channels videos with_db with_channels with_console with_quota].
  split; [|auto]. now rewrite update_channel_ids.
Qed.

Lemma step_ids w r : ids_kept_unique w (step w r).
Proof.
  pose proof ids_kept_unique_lawful as HL.
  assert (HQ : allows_quota ids_kept_unique)
    by (intros w0 q; now apply same_tables_unique).
  assert (Hq : forall A (m : M A), keeps untouched_db m ->
                 ids_kept_unique w (snd (m w))).
  { intros A m Hm. specialize (Hm w). unfold untouched_db in Hm.
    apply same_tables_unique; now rewrite Hm. }
  assert (HUL : lawful untouched_db).
  { unfold untouched_db. split; [auto | congruence | auto]. }
  destruct r; cbn [step].
  - apply keeps_get_root_with; auto.
    + intros w0. now apply same_tables_unique.
    + apply ids_insertChannel.
    + apply ids_insertVideos.
    + apply ids_insertVideoStatistics.
  - apply same_tables_unique; now rewrite get_statistics_db.
  - apply keeps_refresh_with; auto. apply ids_refresh.
  - now apply Hq, keeps_ranking.
  - now apply Hq, keeps_ranking.
  - now apply Hq, keeps_ranking.
  - now apply Hq, keeps_ranking.
  - now apply Hq, keeps_get_channels_id.
  - now apply same_tables_unique.
Qed.

(** X22. Ids stay ids: when no two channels and no two videos of the
    tables share an id, the same holds after any requests, answered in any
    way. *)
Theorem ids_stay_unique (requests : list Request) (w : World) :
  NoDup (map c_id (channels (db w))) ->
  NoDup (map v_id (videos (db w))) ->
  NoDup (map c_id (channels (db (run requests w)))) /\
  NoDup (map v_id (videos (db (run requests w)))).
Proof.
  intros Hc Hv.
  assert (H : ids_kept_unique w (run requests w)).
  { induction requests as [|r requests IH] using rev_ind.
    - apply (law_refl _ ids_kept_unique_lawful).
    - rewrite run_snoc.
      eapply (law_trans _ ids_kept_unique_lawful); [exact IH | apply step_ids]. }
  destruct H as [H1 H2]. auto.
Qed.

End InvariantFacts.

(** ** What a refresh writes *)

Module RefreshWrites.
Import Data Effects Upstream Store Queries Routes Server Keeps Frame Columns
  Invariants RefreshFacts.
Local Open Scope Z_scope.









End RefreshWrites.

(** ** The ingestion when something fails *)

Module IngestErrors.
Import Data Effects Upstream Store Queries Routes Server Keeps Frame Columns
  Invariants IngestFacts.
Local Open Scope Z_scope.

Lemma untouched_lawful : lawful untouched.
Proof.
  unfold untouched. split.
  - auto.
  - intros w1 w2 w3 (?&?&?&?) (?&?&?&?). repeat split; congruence.
  - auto.
Qed.

Lemma untouched_quota : allows_quota untouched.
Proof. unfold allows_quota, untouched. auto. Qed.

Lemma untouched_quiet w w' : untouched w w' -> quiet w w'.
Proof. unfold untouched, quiet. intros (-> & ? & ? & ?). auto. Qed.

Lemma insertVideoStatistics_thrown env videoStats w e w' :
  insertVideoStatistics env videoStats w = (Thrown e, w') -> quiet w w'.
Proof.
  cbv [insertVideoStatistics try_catch bind values execute modify ret log throw].
  destruct videoStats as [|stat rest];
    [intros [= _ <-]; unfold quiet; auto|].
  destruct (refused env InsertVideoStatistics); [|discriminate].
  intros [= _ <-]. unfold quiet. auto.
Qed.

Lemma insertVideoStatistics_appends env videoStats w n w' :
  insertVideoStatistics env videoStats w = (Returned n, w') ->
  videoStats <> [] /\
  videoStatistics (db w')
  = videoStatistics (db w) ++ statRows (clock w) (next_statistic_id w) videoStats /\
  youtube_cache w' = youtube_cache w.
Proof.
  intros H. split.
  - intros ->. discriminate H.
  - apply insertVideoStatistics_returned in H as [_ ->]. auto.
Qed.

(** What each stage of the ingestion leaves of the world. *)
Ltac stages :=
  repeat match goal with
  | H : getUploadsChannelDetail ?env ?u ?w = (_, _) |- _ =>
      let K := fresh "K" in
      pose proof (keeps_getUploadsChannelDetail untouched untouched_lawful
                    untouched_quota env u w) as K;
      rewrite H in K; cbn [snd] in K; clear H
  | H : getPlaylistVideos ?env ?fuel ?p ?w = (_, _) |- _ =>
      let K := fresh "K" in
      pose proof (keeps_getPlaylistVideos untouched untouched_lawful
                    untouched_quota env fuel p w) as K;
      rewrite H in K; cbn [snd] in K; clear H
  | H : getVideoStatistics ?env ?ids ?w = (_, _) |- _ =>
      let K := fresh "K" in
      pose proof (keeps_getVideoStatistics untouched untouched_lawful
                    untouched_quota env ids w) as K;
      rewrite H in K; cbn [snd] in K; clear H
  | H : insertChannel ?env ?a ?b ?c ?d ?e ?f ?g ?w = (_, _) |- _ =>
      let K := fresh "K" in
      pose proof (keeps_insertChannel quiet quiet_lawful quiet_channels
                    env a b c d e f g w) as K;
      rewrite H in K; cbn [snd] in K; clear H
  | H : insertVideos ?env ?vs ?c ?w = (_, _) |- _ =>
      let K := fresh "K" in
      pose proof (keeps_insertVideos quiet quiet_lawful quiet_videos
                    env vs c w) as K;
      rewrite H in K; cbn [snd] in K; clear H
  | H : insertVideoStatistics ?env ?st ?w = (Thrown _, _) |- _ =>
      apply insertVideoStatistics_thrown in H
  end.

(** X7. An ingestion that does not answer with the JSON report.  When its
    status is not 500 (the 400 replies and the 200 "No videos found") it
    has written nothing to any table and has left the cached rollup as it
    was.  A 500 has added no snapshot and has left the cached rollup as it
    was, with one exception: when the store rejects the deletion of the
    cached rollup, the answer is a 500 although the snapshots are in the
    table.  (A 500 may also have written the channel and the videos: the
    insertions are not one transaction.) *)
Theorem ingest_without_report (env : Env) (fuel : nat) (url : option string)
    (w : World) (s : Z) (body : string) (w' : World) :
  get_root env fuel url w = (Returned (IngestText s body), w') ->
  (s <> 500 -> db w' = db w /\ youtube_cache w' = youtube_cache w) /\
  ((videoStatistics (db w') = videoStatistics (db w) /\
    youtube_cache w' = youtube_cache w)
   \/ (delete_rejected env = true /\ s = 500 /\
       exists video,
         video <> [] /\
         videoStatistics (db w')
         = videoStatistics (db w)
           ++ statRows (clock w) (next_statistic_id w) video)).
Proof.
  intros H.
  cbv [get_root bind try_catch modify ret log gets cache_delete throw] in H.
  cbn [fst snd] in H.
  repeat crack H; try discriminate H.
  all: injection H as ? ? ?; subst; stages.
  all: try match goal with
       | H : insertVideoStatistics _ _ _ = (Returned _, _) |- _ =>
           apply insertVideoStatistics_appends in H
       end.
  all: unfold untouched, quiet in *; cbn in *.
  all: repeat match goal with H : _ /\ _ |- _ => destruct H end.
  all: split; [intros; try congruence; split; congruence|].
  all: first [ left; split; congruence
             | right; split; [reflexivity|]; split; [reflexivity|];
               eexists; split; [eassumption|]; congruence ].
Qed.

Lemma playlist_loop_thrown env playlistId : forall fuel videos token w e w',
  playlist_loop env fuel playlistId videos token w = (Thrown e, w') ->
  e = FetchFailed \/ e = TypeError.
Proof.
  induction fuel as [|fuel IH]; intros videos token w e w' H.
  - discriminate H.
  - cbn [playlist_loop] in H.
    cbv [bind fetch ret throw trackQuotaUsage modify] in H.
    destruct (playlistItems env playlistId _) as [|page].
    + injection H as <- _. now left.
    + destruct (page_items page) as [items|].
      * destruct (truthy (nextPageToken page)); [now apply IH in H | discriminate H].
      * injection H as <- _. now right.
Qed.

Lemma getUploadsChannelDetail_thrown env username w e w' :
  getUploadsChannelDetail env username w = (Thrown e, w') ->
  refused env SelectRows = true.
Proof.
  cbv [getUploadsChannelDetail getChannelDetailsFromDB bind execute gets ret
       try_catch fetch trackQuotaUsage modify throw log].
  destruct (refused env SelectRows); [reflexivity|].
  destruct (filter _ _); [|discriminate].
  destruct (channelsForHandle env username) as [|[[|item rest]|]]; discriminate.
Qed.

Lemma insertChannel_thrown env a b c d e f g w err w' :
  insertChannel env a b c d e f g w = (Thrown err, w') ->
  refused env InsertChannel = true.
Proof.
  cbv [insertChannel bind execute gets ret modify throw].
  now destruct (refused env InsertChannel).
Qed.

Lemma insertVideos_thrown env videoDetails channelId w err w' :
  insertVideos env videoDetails channelId w = (Thrown err, w') ->
  videoDetails = [] \/ refused env InsertVideos = true.
Proof.
  cbv [insertVideos bind values execute gets ret modify throw].
  destruct videoDetails as [|video rest]; [now left|].
  destruct (refused env InsertVideos); [now right | discriminate].
Qed.

Lemma insertVideoStatistics_refused env videoStats w err w' :
  insertVideoStatistics env videoStats w = (Thrown err, w') ->
  videoStats = [] \/ refused env InsertVideoStatistics = true.
Proof.
  cbv [insertVideoStatistics try_catch bind values execute modify ret log throw].
  destruct videoStats as [|stat rest]; [now left|].
  destruct (refused env InsertVideoStatistics); [now right | discriminate].
Qed.

(** X8. Where a 500 of the ingestion comes from.  It is one of four: a
    statement that the database refused; a page of the upload playlist
    that could not be fetched or had no [items], and then nothing was
    written; statistics that came back empty (every batch failed or
    answered nothing), so that the insertion of the snapshots is given no
    value, and then no snapshot was written; or the key-value store, which
    rejected the deletion of the cached rollup.  In the second and the
    third case the lookup of the channel had answered. *)
Theorem ingest_500_causes (env : Env) (fuel : nat) (url : option string)
    (w : World) (body : string) (w' : World) :
  get_root env fuel url w = (Returned (IngestText 500 body), w') ->
  (exists st, refused env st = true) \/
  (exists username details w1 e w2,
     Handle.extractUsername (text url) = Some username /\
     getUploadsChannelDetail env username (with_quota 0 w) = (Returned details, w1) /\
     complete details = true /\
     getPlaylistVideos env fuel (text (uploads details)) w1 = (Thrown e, w2) /\
     (e = FetchFailed \/ e = TypeError) /\
     db w' = db w) \/
  (exists username details w1 videos w2 w3,
     Handle.extractUsername (text url) = Some username /\
     getUploadsChannelDetail env username (with_quota 0 w) = (Returned details, w1) /\
     getPlaylistVideos env fuel (text (uploads details)) w1 = (Returned videos, w2) /\
     getVideoStatistics env (map videoId videos) w2 = (Returned [], w3) /\
     videoStatistics (db w') = videoStatistics (db w)) \/
  delete_rejected env = true.
Proof.
  intros H.
  cbv [get_root bind try_catch modify ret log gets cache_delete throw] in H.
  cbn [fst snd] in H.
  repeat crack H; try discriminate H.
  all: injection H as ?; subst.
  all: try match goal with
       | H : getVideoStatistics _ _ _ = (Thrown _, _) |- _ =>
           rewrite BatchFacts.getVideoStatistics_run in H; discriminate H
       end.
  all: try (left; eexists;
            first [ eapply getUploadsChannelDetail_thrown; eassumption
                  | eapply insertChannel_thrown; eassumption ]).
  all: try match goal with
       | H : insertVideos _ ?videos _ _ = (Thrown _, _),
         L : (List.length ?videos =? 0)%nat = false |- _ =>
           apply insertVideos_thrown in H as [-> | H];
             [discriminate L | left; eexists; exact H]
       end.
  all: try (right; right; right; reflexivity).
  all: try match goal with
       | H : getPlaylistVideos _ _ _ _ = (Thrown _, _) |- _ =>
           right; left; do 5 eexists;
           split; [reflexivity|]; split; [eassumption|];
           split; [now apply negb_false_iff|]; split; [exact H|];
           split;
           [ unfold getPlaylistVideos in H; now apply playlist_loop_thrown in H
           | stages; unfold untouched in *; cbn in *;
             repeat match goal with K : _ /\ _ |- _ => destruct K end;
             congruence ]
       end.
  match goal with
  | H : insertVideoStatistics _ _ _ = (Thrown _, _) |- _ =>
      pose proof (insertVideoStatistics_refused _ _ _ _ _ H) as [-> | Hr];
        [|left; eexists; exact Hr]
  end.
  right. right. left. do 6 eexists.
  split; [reflexivity|]. split; [eassumption|]. split; [eassumption|].
  split; [eassumption|].
  stages. unfold untouched, quiet in *. cbn in *.
  repeat match goal with H : _ /\ _ |- _ => destruct H end. congruence.
Qed.

(** X9. A channel lookup that fails is reported as the client's mistake:
    when the handle is no id of the [channels] table and the
    [channels.list] call fails, or answers without an item, the ingestion
    replies 400 "Invalid input"; nothing is written, and the call is
    charged only when it was answered. *)
Theorem ingest_lookup_failure (env : Env) (fuel : nat) (url : option string)
    (w : World) (username : string) :
  truthy url = true ->
  Handle.extractUsername (text url) = Some username ->
  refused env SelectRows = false ->
  filter (fun r => String.eqb (c_id r) username) (channels (db w)) = [] ->
  match channelsForHandle env username with
  | Body (Some (_ :: _)) => False
  | _ => True
  end ->
  fst (get_root env fuel url w) = Returned (IngestText 400 invalid_input) /\
  db (snd (get_root env fuel url w)) = db w /\
  youtube_cache (snd (get_root env fuel url w)) = youtube_cache w /\
  totalQuotaUsed (snd (get_root env fuel url w))
  = match channelsForHandle env username with
    | NetworkError => 0
    | Body _ => 1
    end.
Proof.
  intros Hurl Hname Hdb Hnew Hreply.
  pose proof (extractUsername_nonempty _ _ Hname) as Hne.
  apply String.eqb_neq in Hne.
  cbv [get_root bind try_catch modify ret log gets cache_delete
       getUploadsChannelDetail getChannelDetailsFromDB execute fetch
       trackQuotaUsage throw].
  rewrite Hurl, Hname, Hne. cbn [negb fst snd db with_quota channels].
  rewrite Hdb. cbn [db with_quota]. rewrite Hnew.
  destruct (channelsForHandle env username) as [|[[|item rest]|]];
    try contradiction; cbn; auto.
Qed.

(** X10. No handler lets an error escape: the rollup, the refresh, the
    rankings and the channel listing always answer, and the ingestion
    never ends with an exception. *)
Theorem handlers_answer (env : Env) (w : World) :
  (exists r, fst (get_statistics env w) = Returned r) /\
  (exists r, fst (post_channels_refresh env w) = Returned r) /\
  (forall query complaint, exists r, fst (ranking env query complaint w) = Returned r) /\
  (forall channelId, exists r, fst (get_channels_id env channelId w) = Returned r) /\
  (forall fuel url e, fst (get_root env fuel url w) <> Thrown e).
Proof.
  split; [|split; [|split; [|split]]].
  - destruct (CacheFacts.cache_hit_or_miss w) as [(e & Hc & Ht) | Hmiss].
    + rewrite (CacheFacts.get_statistics_hit env w e) by assumption. cbn. eauto.
    + rewrite CacheFacts.get_statistics_miss by assumption.
      destruct (refused env SelectRows); cbn; eauto.
  - unfold post_channels_refresh. cbv [bind try_catch modify ret log gets].
    cbn [fst snd].
    destruct (refused env SelectRows) eqn:Hdb.
    + unfold refreshAllChannelDetails. cbv [bind execute throw]. rewrite Hdb.
      cbn. eauto.
    + pose proof (RefreshFacts.refreshAllChannelDetails_outcome env
                    (with_quota 0 w) Hdb) as Ho.
      destruct (refreshAllChannelDetails env (with_quota 0 w)) as [[l|e|] w1];
        cbn [fst snd] in *; eauto.
      exfalso.
      destruct (settle _) as [l|e|] eqn:Es; try discriminate Ho.
      clear Ho. revert Es.
      generalize (allChannels (with_quota 0 w)). intros l.
      induction l as [|c l IH]; cbn [map settle fold_right]; [discriminate|].
      change (fold_right _ _ _) with
        (settle (map (fun channel : string * string =>
                        refresh_outcome env (fst channel)) l)).
      pose proof (RefreshFacts.refresh_outcome_finished env (fst c)) as Hc.
      destruct (refresh_outcome env (fst c)); try congruence;
        destruct (settle _); try discriminate; intros _; now apply IH.
  - intros query complaint. unfold ranking.
    cbv [bind try_catch execute throw ret log gets modify].
    destruct (refused env SelectRows); cbn; eauto.
    destruct (query (db w)); cbn; eauto.
  - intros channelId. unfold get_channels_id.
    cbv [bind try_catch execute throw ret log gets modify].
    destruct (String.eqb channelId EmptyString); cbn; eauto.
    destruct (refused env SelectRows); cbn; eauto.
    destruct (has_channel channelId (channels (db w))); cbn; eauto.
  - intros fuel url e H.
    destruct (get_root env fuel url w) as [r w'] eqn:E. cbn [fst] in H. subst r.
    cbv [get_root bind try_catch modify ret log gets cache_delete throw] in E.
    cbn [fst snd] in E.
    repeat crack E; discriminate E.
Qed.

End IngestErrors.

(** ** The pagination loop *)

Module PaginationFacts.
Import Data Effects Upstream Pagination.
Local Open Scope Z_scope.

Lemma with_quota_same w : with_quota (totalQuotaUsed w + 0) w = w.
Proof. destruct w. unfold with_quota. cbn. f_equal. lia. Qed.

Lemma with_quota_twice a b w :
  with_quota (totalQuotaUsed (with_quota a w) + b) (with_quota a w)
  = with_quota (a + b) w.
Proof. reflexivity. Qed.

(** The loop after the pages that name a next page. *)
Lemma playlist_loop_pages env playlistId pages :
  forall fuel videos token w,
    chain env playlistId token pages -> Forall more pages ->
    playlist_loop env (List.length pages + fuel) playlistId videos token w
    = playlist_loop env fuel playlistId (videos ++ items_of pages)
        (last_token token pages)
        (with_quota (totalQuotaUsed w + Z.of_nat (List.length pages)) w).
Proof.
  induction pages as [|page pages IH]; intros fuel videos token w Hc Hm.
  - cbn. now rewrite app_nil_r, with_quota_same.
  - destruct Hc as (Hp & Hi & Hc). inversion Hm as [|? ? Hmore Hm']; subst.
    destruct (page_items page) as [items|] eqn:Ei; [|congruence].
    cbn [List.length Nat.add].
    rewrite (QuotaFacts.playlist_loop_step env _ playlistId videos token w
               page items Hp Ei).
    unfold more in Hmore. rewrite Hmore.
    rewrite IH by assumption. cbn [items_of flat_map last_token fold_left].
    rewrite Ei, app_assoc. f_equal.
    unfold with_quota. cbn. f_equal. lia.
Qed.

(** X11. A playlist of any number of pages: when the successive requests
    are answered with pages that have items, of which only the last names
    no next page, [getPlaylistVideos] returns the items of all pages in
    order and is charged one unit for each page, once the bound on the
    iterations reaches the number of pages; below it the loop has not
    finished. *)
Theorem getPlaylistVideos_pages (env : Env) (fuel : nat) (playlistId : string)
    (w : World) (pages : list PlaylistPage) (last : PlaylistPage) :
  chain env playlistId None (pages ++ [last]) ->
  Forall more pages ->
  truthy (nextPageToken last) = false ->
  ((List.length pages < fuel)%nat ->
   getPlaylistVideos env fuel playlistId w
   = (Returned (items_of (pages ++ [last])),
      with_quota (totalQuotaUsed w + Z.of_nat (List.length (pages ++ [last]))) w)) /\
  ((fuel <= List.length pages)%nat ->
   fst (getPlaylistVideos env fuel playlistId w) = Unfinished).
Proof.
  intros Hc Hm Hlast. unfold getPlaylistVideos.
  assert (Hsplit : chain env playlistId None pages /\
                   chain env playlistId (last_token None pages) [last]).
  { clear Hm Hlast. revert Hc. generalize (@None string).
    induction pages as [|page pages IH]; intros token Hc.
    - split; [exact I | exact Hc].
    - destruct Hc as (Hp & Hi & Hc). apply IH in Hc as [H1 H2].
      split; [split; [|split]; assumption | exact H2]. }
  destruct Hsplit as [Hpages (Hp & Hi & _)].
  split.
  - intros Hfuel.
    replace fuel with (List.length pages + S (fuel - S (List.length pages)))%nat
      by lia.
    rewrite playlist_loop_pages by assumption.
    destruct (page_items last) as [items|] eqn:Ei; [|congruence].
    rewrite (QuotaFacts.playlist_loop_step env _ playlistId _ _ _ last items Hp Ei).
    rewrite Hlast. f_equal.
    + f_equal. unfold items_of. rewrite flat_map_app. cbn. now rewrite Ei, app_nil_r.
    + rewrite length_app. unfold with_quota. cbn. f_equal. lia.
  - intros Hfuel.
    revert Hfuel Hpages Hm. generalize (@nil VideoDetails) (@None string) w.
    clear. revert fuel.
    induction pages as [|page pages IH]; intros fuel videos token w Hfuel Hc Hm.
    + destruct fuel; [reflexivity | cbn in Hfuel; lia].
    + destruct fuel as [|fuel]; [reflexivity|].
      destruct Hc as (Hp & Hi & Hc). inversion Hm as [|? ? Hmore Hm']; subst.
      destruct (page_items page) as [items|] eqn:Ei; [|congruence].
      rewrite (QuotaFacts.playlist_loop_step env _ playlistId videos token w
                 page items Hp Ei).
      unfold more in Hmore. rewrite Hmore. apply IH; [cbn in Hfuel; lia | |];
        assumption.
Qed.

(** X12. A page that cannot be fetched loses the whole playlist: after any
    number of answered pages, a request that fails ends
    [getPlaylistVideos] with the exception, the videos of the pages
    before are not returned, and the pages that were answered stay
    charged. *)
Theorem getPlaylistVideos_page_fails (env : Env) (fuel : nat)
    (playlistId : string) (w : World) (pages : list PlaylistPage) :
  chain env playlistId None pages ->
  Forall more pages ->
  playlistItems env playlistId
    (if truthy (last_token None pages) then last_token None pages else None)
  = NetworkError ->
  (List.length pages < fuel)%nat ->
  getPlaylistVideos env fuel playlistId w
  = (Thrown FetchFailed,
     with_quota (totalQuotaUsed w + Z.of_nat (List.length pages)) w).
Proof.
  intros Hc Hm Hfail Hfuel. unfold getPlaylistVideos.
  replace fuel with (List.length pages + S (fuel - S (List.length pages)))%nat
    by lia.
  rewrite playlist_loop_pages by assumption.
  cbn [playlist_loop]. unfold bind at 1. now rewrite Hfail.
Qed.

End PaginationFacts.

(** ** The order and the cut of the rankings *)

Module OrderFacts.
Import Data Effects Upstream Store Queries Routes RankingFacts.
Local Open Scope Z_scope.

Section Sorting.

Context {A : Type} (le : A -> A -> bool).
Hypothesis le_total : forall a b, le a b = true \/ le b a = true.
Hypothesis le_trans : forall a b c, le a b = true -> le b c = true -> le a c = true.

Lemma insert_by_perm a l : Permutation (insert_by le a l) (a :: l).
Proof.
  induction l as [|b l IH]; cbn [insert_by]; [reflexivity|].
  destruct (le a b); [reflexivity|].
  rewrite IH. apply perm_swap.
Qed.

Lemma order_by_perm l : Permutation (order_by le l) l.
Proof.
  induction l as [|a l IH]; cbn [order_by fold_right]; [reflexivity|].
  fold (order_by le l). rewrite insert_by_perm. now constructor.
Qed.

Lemma insert_by_sorted a l :
  StronglySorted (fun x y => le x y = true) l ->
  StronglySorted (fun x y => le x y = true) (insert_by le a l).
Proof.
  induction 1 as [|b l Hs IH Hb]; cbn [insert_by].
  - constructor; constructor.
  - destruct (le a b) eqn:E.
    + constructor; [now constructor|]. constructor; [assumption|].
      rewrite Forall_forall in *. intros x Hx. eauto.
    + constructor; [assumption|].
      assert (Hba : le b a = true) by (destruct (le_total a b); congruence).
      rewrite Forall_forall in *. intros x Hx.
      apply insert_by_in in Hx as [-> | Hx]; auto.
Qed.

Lemma order_by_sorted l : StronglySorted (fun x y => le x y = true) (order_by le l).
Proof.
  induction l as [|a l IH]; cbn [order_by fold_right]; [constructor|].
  now apply insert_by_sorted.
Qed.

End Sorting.

Lemma sorted_app {A} (R : A -> A -> Prop) l1 l2 :
  StronglySorted R (l1 ++ l2) ->
  StronglySorted R l1 /\ forall x y, In x l1 -> In y l2 -> R x y.
Proof.
  induction l1 as [|a l1 IH]; cbn; intros H.
  - split; [constructor | contradiction].
  - inversion H as [|? ? Hs Ha]; subst. destruct (IH Hs) as [H1 H2].
    split.
    + constructor; [assumption|]. rewrite Forall_forall in *. intros x Hx.
      apply Ha, in_or_app. now left.
    + intros x y [<- | Hx] Hy; [|now apply H2].
      rewrite Forall_forall in Ha. apply Ha, in_or_app. now right.
Qed.

Lemma select_all_length {A B} (f : A -> option B) l rows :
  select_all f l = Some rows -> List.length rows = List.length l.
Proof.
  revert rows. induction l as [|a l IH]; intros rows; cbn.
  - now intros [= <-].
  - destruct (f a); [|discriminate]. destruct (select_all f l); [|discriminate].
    intros [= <-]. cbn. f_equal. now apply IH.
Qed.

Lemma by_value_desc_total a b :
  by_value_desc a b = true \/ by_value_desc b a = true.
Proof. unfold by_value_desc. rewrite !Z.leb_le. lia. Qed.

Lemma by_value_desc_trans a b c :
  by_value_desc a b = true -> by_value_desc b c = true -> by_value_desc a c = true.
Proof. unfold by_value_desc. rewrite !Z.leb_le. lia. Qed.

(** X13. What [/videos/top-views], [/videos/top-likes] and
    [/videos/top-comments] answer, when the query succeeds: the selected
    rows are cut after [limit] rows (all of them when there are fewer),
    the rows kept are in descending order of the value, and no row that
    was left out has a greater value than a row that was kept. *)
Theorem top_query_is_top (field : Statistics -> option string) (limit : nat)
    (d : DB) (rows : list RankedVideo) :
  top_query field limit d = Some rows ->
  exists selected left_out,
    select_all (select_row field) (latest_rows d) = Some selected /\
    Permutation selected (rows ++ left_out) /\
    List.length rows = Nat.min limit (List.length (latest_rows d)) /\
    StronglySorted (fun a b => r_value b <= r_value a) rows /\
    forall kept other, In kept rows -> In other left_out ->
                       r_value other <= r_value kept.
Proof.
  unfold top_query.
  destruct (select_all (select_row field) (latest_rows d)) as [selected|] eqn:E;
    [|discriminate].
  cbn [option_map]. intros [= <-].
  exists selected, (skipn limit (order_by by_value_desc selected)).
  pose proof (order_by_sorted by_value_desc by_value_desc_total
                by_value_desc_trans selected) as Hs.
  rewrite <- (firstn_skipn limit (order_by by_value_desc selected)) in Hs.
  apply sorted_app in Hs as [H1 H2].
  split; [reflexivity|]. split; [|split; [|split]].
  - rewrite firstn_skipn. symmetry. apply order_by_perm.
  - rewrite length_firstn.
    rewrite (Permutation_length (order_by_perm by_value_desc selected)).
    now rewrite (select_all_length _ _ _ E).
  - clear -H1. induction H1 as [|a l Hl IH Ha]; constructor; [assumption|].
    rewrite Forall_forall in *. intros x Hx. specialize (Ha x Hx).
    unfold by_value_desc in Ha. now apply Z.leb_le.
  - intros kept other Hk Ho. specialize (H2 kept other Hk Ho).
    unfold by_value_desc in H2. now apply Z.leb_le.
Qed.

(** *** One row for each channel *)

Lemma compare_lt_trans a b c :
  String.compare a b = Lt -> String.compare b c = Lt -> String.compare a c = Lt.
Proof.
  intros H1 H2. apply OrderedTypeEx.String_as_OT.cmp_lt.
  apply OrderedTypeEx.String_as_OT.cmp_lt in H1. apply OrderedTypeEx.String_as_OT.cmp_lt in H2.
  eapply OrderedTypeEx.String_as_OT.lt_trans; eassumption.
Qed.

Lemma compare_refl a : String.compare a a = Eq.
Proof.
  destruct (String.compare a a) eqn:E; [reflexivity| |];
    pose proof (String.compare_antisym a a) as H; rewrite E in H; discriminate.
Qed.

Lemma by_channel_total a b :
  by_channel_then_value_desc a b = true \/ by_channel_then_value_desc b a = true.
Proof.
  unfold by_channel_then_value_desc.
  rewrite (String.compare_antisym (r_channelId a) (r_channelId b)).
  destruct (String.compare (r_channelId b) (r_channelId a)); cbn [CompOpp]; auto.
  rewrite !Z.leb_le. lia.
Qed.

Lemma by_channel_trans a b c :
  by_channel_then_value_desc a b = true ->
  by_channel_then_value_desc b c = true ->
  by_channel_then_value_desc a c = true.
Proof.
  unfold by_channel_then_value_desc.
  destruct (String.compare (r_channelId a) (r_channelId b)) eqn:E1;
    try discriminate;
    destruct (String.compare (r_channelId b) (r_channelId c)) eqn:E2;
    try discriminate.
  - apply String.compare_eq_iff in E1. apply String.compare_eq_iff in E2.
    rewrite E1, E2, compare_refl, !Z.leb_le. lia.
  - apply String.compare_eq_iff in E1. rewrite E1, E2. auto.
  - apply String.compare_eq_iff in E2. rewrite <- E2, E1. auto.
  - rewrite (compare_lt_trans _ _ _ E1 E2). auto.
Qed.

Lemma seen_spec (acc : list RankedVideo) k :
  existsb (fun a => String.eqb (r_channelId a) k) acc = true
  <-> In k (map r_channelId acc).
Proof.
  rewrite existsb_exists, in_map_iff. split.
  - intros (a & Ha & E). apply String.eqb_eq in E. eauto.
  - intros (a & E & Ha). exists a. split; [assumption|]. now apply String.eqb_eq.
Qed.

(** The [reduce] over rows that are ordered by channel, then by value. *)
Lemma first_per_channel_fold rows :
  StronglySorted (fun x y => by_channel_then_value_desc x y = true) rows ->
  forall acc,
    let result :=
      fold_left (fun acc video =>
                   if existsb (fun a => String.eqb (r_channelId a) (r_channelId video)) acc
                   then acc else acc ++ [video]) rows acc in
    (NoDup (map r_channelId acc) -> NoDup (map r_channelId result)) /\
    (forall x, In x acc \/ In x rows ->
               In (r_channelId x) (map r_channelId result)) /\
    (forall y, In y result ->
       In y acc \/
       (In y rows /\ ~ In (r_channelId y) (map r_channelId acc) /\
        forall x, In x rows -> r_channelId x = r_channelId y ->
                  r_value x <= r_value y)).
Proof.
  induction 1 as [|r rest Hs IH Hr]; intros acc; cbn zeta; cbn [fold_left].
  - split; [auto|]. split; [|auto].
    intros x [Hx | []]. now apply in_map.
  - set (acc' := if existsb _ acc then acc else acc ++ [r]).
    destruct (IH acc') as (I1 & I2 & I3). clear IH.
    assert (Hsub : forall k, In k (map r_channelId acc) -> In k (map r_channelId acc')).
    { intros k Hk. unfold acc'. destruct (existsb _ acc); [assumption|].
      rewrite map_app. apply in_or_app. now left. }
    assert (Hseen : In (r_channelId r) (map r_channelId acc')).
    { unfold acc'. destruct (existsb _ acc) eqn:E.
      - now apply seen_spec.
      - rewrite map_app. apply in_or_app. right. now left. }
    split; [|split].
    + intros Hnd. apply I1. unfold acc'. destruct (existsb _ acc) eqn:E; [assumption|].
      rewrite map_app. cbn.
      apply NoDup_app_remove_l with (l := []). cbn.
      apply Permutation_NoDup with (l := r_channelId r :: map r_channelId acc).
      * apply Permutation_cons_append.
      * constructor; [|assumption]. intros Hin. apply seen_spec in Hin. congruence.
    + intros x [Hx | [<- | Hx]].
      * apply I2. left. unfold acc'. destruct (existsb _ acc); [assumption|].
        apply in_or_app. now left.
      * apply in_map_iff in Hseen as (a & Ea & Ha).
        rewrite <- Ea. apply I2. now left.
      * apply I2. now right.
    + intros y Hy. destruct (I3 y Hy) as [Hacc | (Hrest & Hnew & Hmax)].
      * unfold acc' in Hacc. destruct (existsb _ acc) eqn:E; [now left|].
        apply in_app_or in Hacc as [Hacc | [<- | []]]; [now left|].
        right. split; [now left|]. split.
        { intros Hin. apply seen_spec in Hin. congruence. }
        intros x [<- | Hx] Ex; [lia|].
        rewrite Forall_forall in Hr. specialize (Hr x Hx).
        unfold by_channel_then_value_desc in Hr.
        rewrite Ex, compare_refl in Hr. now apply Z.leb_le.
      * right. split; [now right|]. split; [auto|].
        intros x [<- | Hx] Ex; [|now apply Hmax].
        exfalso. apply Hnew. now rewrite <- Ex.
Qed.

(** X14. What [/videos/top-channel-views] answers, when the query
    succeeds: one row for each channel that has a selected row, no channel
    twice, and the row of a channel is one of its rows with the greatest
    view count. *)
Theorem top_channel_query_best (d : DB) (rows : list RankedVideo) :
  top_channel_query d = Some rows ->
  exists selected,
    select_all (select_row viewCount) (latest_rows d) = Some selected /\
    NoDup (map r_channelId rows) /\
    (forall x, In x selected -> In (r_channelId x) (map r_channelId rows)) /\
    (forall y, In y rows ->
       In y selected /\
       forall x, In x selected -> r_channelId x = r_channelId y ->
                 r_value x <= r_value y).
Proof.
  unfold top_channel_query.
  destruct (select_all (select_row viewCount) (latest_rows d)) as [selected|];
    [|discriminate].
  cbn [option_map]. intros [= <-]. exists selected. split; [reflexivity|].
  pose proof (order_by_sorted by_channel_then_value_desc by_channel_total
                by_channel_trans selected) as Hs.
  destruct (first_per_channel_fold _ Hs []) as (H1 & H2 & H3).
  fold (first_per_channel (order_by by_channel_then_value_desc selected))
    in H1, H2, H3.
  split; [|split].
  - apply H1. constructor.
  - intros x Hx. apply H2. right. now apply order_by_in.
  - intros y Hy. destruct (H3 y Hy) as [[] | (Hin & _ & Hmax)].
    split; [now apply order_by_in in Hin|].
    intros x Hx. apply Hmax. now apply order_by_in.
Qed.

End OrderFacts.

(** ** Reading the counters *)

Module CounterFacts.
Import Num Counters.
Local Open Scope Z_scope.

Ltac each_numeral H :=
  cbv [numerals In] in H;
  repeat (destruct H as [<- | H]; [|]); [.. | contradiction].

Lemma uint_numerals d :
  Forall (fun c => In c numerals) (list_ascii_of_string (NilEmpty.string_of_uint d)).
Proof.
  induction d; cbn [NilEmpty.string_of_uint list_ascii_of_string];
    constructor; try assumption; cbv [numerals In]; tauto.
Qed.

Ltac read_digit :=
  match goal with
  | |- context [digit 10 ?c] =>
      let v := eval vm_compute in (digit 10 c) in
      change (digit 10 c) with v
  end.

Lemma digits_all_acc d : forall acc,
  digits_all 10 (Some (Z.pos acc))
    (list_ascii_of_string (NilEmpty.string_of_uint d))
  = Some (Z.pos (Pos.of_uint_acc d acc)).
Proof.
  induction d as [|d IH|d IH|d IH|d IH|d IH|d IH|d IH|d IH|d IH|d IH];
    intros acc;
    cbn [NilEmpty.string_of_uint list_ascii_of_string digits_all Pos.of_uint_acc];
    [reflexivity | ..]; read_digit; cbv iota beta;
    rewrite <- IH; do 2 f_equal; lia.
Qed.

Lemma digits_all_zero d :
  digits_all 10 (Some 0) (list_ascii_of_string (NilEmpty.string_of_uint d))
  = Some (Z.of_N (Pos.of_uint d)).
Proof.
  induction d as [|d IH|d IH|d IH|d IH|d IH|d IH|d IH|d IH|d IH|d IH];
    cbn [NilEmpty.string_of_uint list_ascii_of_string digits_all Pos.of_uint];
    [reflexivity | ..]; read_digit; cbv iota beta;
    [exact IH | ..]; cbn [Z.mul Z.add Z.of_N]; apply digits_all_acc.
Qed.

Lemma digits_all_uint d :
  digits_all 10 None (list_ascii_of_string (NilZero.string_of_uint d))
  = Some (Z.of_N (N.of_uint d)).
Proof.
  unfold N.of_uint.
  destruct d;
    cbn [NilZero.string_of_uint NilEmpty.string_of_uint list_ascii_of_string
         digits_all Pos.of_uint];
    [reflexivity | ..]; read_digit; cbv iota beta;
    [apply digits_all_zero | ..]; cbn [Z.of_N]; apply digits_all_acc.
Qed.

Lemma digits_prefix_all radix w : forall acc z,
  digits_all radix acc w = Some z -> digits_prefix radix acc w = Some z.
Proof.
  induction w as [|c w IH]; intros acc z; cbn [digits_all digits_prefix]; [auto|].
  destruct (digit radix c); [apply IH | discriminate].
Qed.

Lemma skip_spaces_numerals w :
  Forall (fun c => In c numerals) w -> skip_spaces w = w.
Proof.
  destruct 1 as [|c w Hc Hw]; [reflexivity|].
  cbn [skip_spaces]. each_numeral Hc; reflexivity.
Qed.

Lemma trim_numerals w : Forall (fun c => In c numerals) w -> trim w = w.
Proof.
  intros H. unfold trim. rewrite (skip_spaces_numerals w H).
  rewrite skip_spaces_numerals by now apply Forall_rev.
  apply rev_involutive.
Qed.

Lemma signed_numerals f w :
  Forall (fun c => In c numerals) w -> signed f w = f w.
Proof.
  destruct 1 as [|c w Hc Hw]; [reflexivity|].
  each_numeral Hc; reflexivity.
Qed.

Lemma decimal_numerals n :
  Forall (fun c => In c numerals) (list_ascii_of_string (decimal n)).
Proof.
  unfold decimal, NilZero.string_of_uint.
  destruct (N.to_uint n) eqn:E; try (rewrite <- E; apply uint_numerals).
  constructor; [cbv [numerals In]; tauto | constructor].
Qed.

Lemma decimal_read n :
  digits_all 10 None (list_ascii_of_string (decimal n)) = Some (Z.of_N n).
Proof.
  unfold decimal. rewrite digits_all_uint. now rewrite DecimalN.Unsigned.of_to.
Qed.

Lemma parseInt_decimal n : parseInt (decimal n) = Some (Z.of_N n).
Proof.
  pose proof (decimal_numerals n) as Hn. pose proof (decimal_read n) as Hr.
  unfold parseInt. rewrite skip_spaces_numerals, signed_numerals by assumption.
  apply digits_prefix_all in Hr.
  destruct (list_ascii_of_string (decimal n)) as [|c w] eqn:E; [exact Hr|].
  pose proof (Forall_inv Hn) as Hc. cbv beta in Hc.
  destruct w as [|x w]; [clear Hn E; each_numeral Hc; exact Hr|].
  pose proof (Forall_inv (Forall_inv_tail Hn)) as Hx. cbv beta in Hx.
  assert (Hnot : is_x x = false) by (clear -Hx; each_numeral Hx; reflexivity).
  clear Hx Hn E.
  each_numeral Hc; try exact Hr. rewrite Hnot. exact Hr.
Qed.

Lemma Number_decimal n : Number (decimal n) = Some (Z.of_N n).
Proof.
  pose proof (decimal_numerals n) as Hn. pose proof (decimal_read n) as Hr.
  unfold Number. rewrite trim_numerals by assumption.
  rewrite <- Hr, <- (signed_numerals (digits_all 10 None)) by assumption.
  destruct (list_ascii_of_string (decimal n)) eqn:E; [|reflexivity].
  discriminate Hr.
Qed.

Lemma cast_integer_decimal n :
  cast_integer (decimal n)
  = if (Z.of_N n <=? 2147483647) then Some (Z.of_N n) else None.
Proof.
  pose proof (decimal_numerals n) as Hn. pose proof (decimal_read n) as Hr.
  unfold cast_integer.
  rewrite trim_numerals, signed_numerals, Hr by assumption.
  assert (H : (-2147483648 <=? Z.of_N n) = true) by (apply Z.leb_le; lia).
  now rewrite H.
Qed.

Lemma decimal_nonempty n : decimal n <> EmptyString.
Proof.
  intros E. pose proof (decimal_read n) as Hr. rewrite E in Hr. discriminate Hr.
Qed.

(** X15. The three readers of the program agree on a counter as the API
    writes it.  For a count up to [2^53], written as its decimal text:
    the descriptor of a channel carries the count of subscribers (and
    [null] for the count zero); a snapshot adds the count to the rollup;
    and the rankings rank the snapshot by the count as long as it fits a
    32-bit integer, above 2147483647 their cast is an error. *)
Theorem readers_agree_on_counts (n : N) (item : Data.ChannelItem)
    (s : Data.StatRow) (field : Data.Statistics -> option string) :
  (n <= exact_up_to)%N ->
  (Data.item_subscriberCount item = Some (decimal n) ->
   Data.followersCount (Upstream.channelDetailsOfItem item)
   = if (n =? 0)%N then None else Some (Z.of_N n)) /\
  (field (Data.s_statistics s) = Some (decimal n) ->
   Queries.snapshot_value field s = Z.of_N n /\
   Queries.metric field (Some s)
   = if (Z.of_N n <=? 2147483647) then Some (Z.of_N n) else None).
Proof.
  intros _. split.
  - intros E. unfold Upstream.channelDetailsOfItem. cbn [Data.followersCount].
    rewrite E. cbn [Number_field]. rewrite Number_decimal.
    destruct n; reflexivity.
  - intros E. split.
    + unfold Queries.snapshot_value, parseInt_field.
      now rewrite E, parseInt_decimal.
    + unfold Queries.metric. rewrite E. apply cast_integer_decimal.
Qed.

End CounterFacts.

(** ** Counts that do not fit the cast *)

Module CastFacts.
Import Data Effects Upstream Store Queries Routes QueryFacts RankingFacts Counters
  CounterFacts.
Local Open Scope Z_scope.




End CastFacts.

(** ** The shape of the rollup, and how long it is served *)

Module ShapeFacts.
Import Data Effects Upstream Store Queries Routes Server Keeps Frame
  Invariants Traffic QueryFacts RankingFacts RollupFacts CacheFacts.
Local Open Scope Z_scope.

Lemma has_key_in k m : has_key k m = true <-> In k (map cs_channelId m).
Proof.
  unfold has_key. rewrite existsb_exists, in_map_iff. split.
  - intros (e & He & E). apply String.eqb_eq in E. eauto.
  - intros (e & E & He). exists e. split; [assumption|]. now apply String.eqb_eq.
Qed.

Lemma add_counts_keys k l c m :
  map cs_channelId (add_counts k l c m) = map cs_channelId m.
Proof.
  unfold add_counts. rewrite map_map. apply map_ext. intros e.
  now destruct (String.eqb (cs_channelId e) k).
Qed.

Lemma aggregate_row_keys m row :
  map cs_channelId (aggregate_row m row)
  = if String.eqb (c_id (fst (fst row))) EmptyString then map cs_channelId m
    else if has_key (c_id (fst (fst row))) m then map cs_channelId m
         else map cs_channelId m ++ [c_id (fst (fst row))].
Proof.
  unfold aggregate_row.
  destruct (String.eqb (c_id (fst (fst row))) EmptyString); [reflexivity|].
  destruct (has_key (c_id (fst (fst row))) m);
    destruct (snd row); rewrite ?add_counts_keys, ?map_app; reflexivity.
Qed.

Lemma aggregate_row_nodup m row :
  NoDup (map cs_channelId m) -> NoDup (map cs_channelId (aggregate_row m row)).
Proof.
  intros Hnd. rewrite aggregate_row_keys.
  destruct (String.eqb (c_id (fst (fst row))) EmptyString); [assumption|].
  destruct (has_key (c_id (fst (fst row))) m) eqn:E; [assumption|].
  apply NoDup_app; [assumption | repeat constructor; intros [] |].
  intros x Hx [<- | []]. apply has_key_in in Hx. congruence.
Qed.

Lemma aggregate_row_key_in m row k :
  In k (map cs_channelId (aggregate_row m row))
  <-> In k (map cs_channelId m)
      \/ (k <> EmptyString /\ c_id (fst (fst row)) = k).
Proof.
  rewrite aggregate_row_keys.
  destruct (String.eqb_spec (c_id (fst (fst row))) EmptyString) as [E | E].
  - split; [auto|]. intros [H | [Hk <-]]; [assumption | contradiction].
  - destruct (has_key (c_id (fst (fst row))) m) eqn:Hk.
    + apply has_key_in in Hk. split; [auto|].
      intros [H | [_ <-]]; assumption.
    + rewrite in_app_iff. cbn [In]. split.
      * intros [H | [<- | []]]; auto.
      * intros [H | [_ <-]]; auto.
Qed.

(** The keys of the rollup, whatever the order of the rows. *)
Lemma rows_key_in rows k : forall m,
  In k (map cs_channelId (fold_left aggregate_row rows m))
  <-> In k (map cs_channelId m)
      \/ (k <> EmptyString /\ exists row, In row rows /\ c_id (fst (fst row)) = k).
Proof.
  induction rows as [|row rows IH]; intros m; cbn [fold_left].
  - split; [auto|]. intros [H | (_ & row & [] & _)]. assumption.
  - rewrite IH, aggregate_row_key_in. cbn [In]. split.
    + intros [[H | [Hk E]] | (Hk & r & Hr & E)]; eauto 6.
    + intros [H | (Hk & r & [<- | Hr] & E)]; eauto 6.
Qed.

Lemma rows_nodup rows : forall m,
  NoDup (map cs_channelId m) ->
  NoDup (map cs_channelId (fold_left aggregate_row rows m)).
Proof.
  induction rows as [|row rows IH]; intros m H; cbn [fold_left]; [assumption|].
  now apply IH, aggregate_row_nodup.
Qed.

Lemma aggregate_row_entries cs m row :
  In (fst (fst row)) cs ->
  Forall (of_row cs) m -> Forall (of_row cs) (aggregate_row m row).
Proof.
  intros Hc Hm. unfold aggregate_row.
  destruct (String.eqb (c_id (fst (fst row))) EmptyString); [assumption|].
  assert (H1 : Forall (of_row cs)
                 (if has_key (c_id (fst (fst row))) m then m
                  else m ++ [mkChannelStat (c_id (fst (fst row)))
                               (c_channelName (fst (fst row)))
                               (c_followersCount (fst (fst row)))
                               (c_viewsCount (fst (fst row))) 0 0])).
  { destruct (has_key _ m); [assumption|].
    apply Forall_app. split; [assumption|]. constructor; [|constructor].
    exists (fst (fst row)). cbn. auto. }
  destruct (snd row); [|exact H1].
  unfold add_counts. apply Forall_map. revert H1. apply Forall_impl.
  intros e He. now destruct (String.eqb (cs_channelId e) _).
Qed.

Lemma rows_entries cs rows : forall m,
  (forall row, In row rows -> In (fst (fst row)) cs) ->
  Forall (of_row cs) m -> Forall (of_row cs) (fold_left aggregate_row rows m).
Proof.
  induction rows as [|row rows IH]; intros m Hrows Hm; cbn [fold_left];
    [assumption|].
  apply IH; [intros r Hr; apply Hrows; now right|].
  apply aggregate_row_entries; [apply Hrows; now left | assumption].
Qed.

Lemma statistics_rows_channels d k :
  (exists row, In row (statistics_rows d) /\ c_id (fst (fst row)) = k)
  <-> In k (map c_id (channels d)).
Proof.
  rewrite statistics_rows_by_channel, in_map_iff. split.
  - intros (row & Hrow & E). apply in_flat_map in Hrow as (c & Hc & Hrow).
    apply channel_rows_channel in Hrow. exists c. split; [congruence | assumption].
  - intros (c & E & Hc).
    assert (Hne : channel_rows d c <> []).
    { unfold channel_rows.
      destruct (leftJoin (fun (c0 : ChannelRow) (v : VideoRow) =>
                            String.eqb (v_channelId v) (c_id c0)) [c] (videos d))
        as [|a l] eqn:El.
      - now apply leftJoin_nonempty in El.
      - apply leftJoin_nonempty. }
    destruct (channel_rows d c) as [|row rest] eqn:Er; [congruence|].
    exists row. split.
    + apply in_flat_map. exists c. split; [assumption|]. rewrite Er. now left.
    + assert (Hin : In row (channel_rows d c)) by (rewrite Er; now left).
      apply channel_rows_channel in Hin. congruence.
Qed.

(** X17. The shape of the rollup, in whatever order the join of
    [/statistics] hands over its rows: there is one entry for each channel
    of the table whose id is not empty, a channel without video or without
    snapshot included, and no other entry and no channel twice; an entry
    carries the name and the two counters of the row of its channel. *)
Theorem rollup_one_entry_per_channel (d : DB) (rows : list StatisticsRow) :
  Permutation rows (statistics_rows d) ->
  NoDup (map cs_channelId (fold_left aggregate_row rows [])) /\
  (forall k, In k (map cs_channelId (fold_left aggregate_row rows []))
             <-> k <> EmptyString /\ In k (map c_id (channels d))) /\
  (forall e, In e (fold_left aggregate_row rows []) ->
     exists c, In c (channels d) /\ cs_channelId e = c_id c /\
               cs_channelName e = c_channelName c /\
               cs_followersCount e = c_followersCount c /\
               cs_viewsCount e = c_viewsCount c).
Proof.
  intros Hp. split; [|split].
  - apply rows_nodup. constructor.
  - intros k. rewrite rows_key_in. cbn [map In].
    rewrite <- statistics_rows_channels. split.
    + intros [[] | (Hk & row & Hrow & E)]. split; [assumption|].
      exists row. split; [|assumption]. now apply (Permutation_in _ Hp).
    + intros (Hk & row & Hrow & E). right. split; [assumption|].
      exists row. split; [|assumption].
      now apply (Permutation_in _ (Permutation_sym Hp)).
  - apply Forall_forall. apply rows_entries; [|constructor].
    intros row Hrow. apply (Permutation_in _ Hp) in Hrow.
    rewrite statistics_rows_by_channel in Hrow.
    apply in_flat_map in Hrow as (c & Hc & Hrow).
    apply channel_rows_channel in Hrow. now rewrite Hrow.
Qed.

(** *** How long the cached rollup is served *)

Lemma get_statistics_clock env w : clock (snd (get_statistics env w)) = clock w.
Proof.
  destruct (cache_hit_or_miss w) as [(e & Hc & Ht) | Hmiss].
  - now rewrite (get_statistics_hit env w e).
  - rewrite get_statistics_miss by assumption.
    destruct (refused env SelectRows); reflexivity.
Qed.

Lemma step_clock w r : not_ingest r -> clock w <= clock (step w r).
Proof.
  assert (Hq : forall A (m : M A), keeps quiet m -> clock w <= clock (snd (m w))).
  { intros A m Hm. destruct (Hm w) as (_ & H & _). lia. }
  destruct r; cbn [step not_ingest]; intros Hr.
  - contradiction.
  - rewrite get_statistics_clock. lia.
  - apply Hq, keeps_post_channels_refresh; auto with frame.
  - apply Hq, keeps_ranking; auto with frame.
  - apply Hq, keeps_ranking; auto with frame.
  - apply Hq, keeps_ranking; auto with frame.
  - apply Hq, keeps_ranking; auto with frame.
  - apply Hq, keeps_get_channels_id; auto with frame.
  - cbn. lia.
Qed.

Lemma step_keeps_entry w r e :
  not_ingest r -> youtube_cache w = Some e -> clock (step w r) < expires e ->
  youtube_cache (step w r) = Some e.
Proof.
  assert (Hq : forall A (m : M A), keeps quiet m ->
                 youtube_cache (snd (m w)) = youtube_cache w).
  { intros A m Hm. now destruct (Hm w) as (H & _). }
  destruct r; cbn [step not_ingest]; intros Hr Hc Ht.
  - contradiction.
  - rewrite get_statistics_clock in Ht.
    now rewrite (get_statistics_hit env w e).
  - rewrite <- Hc. apply Hq, keeps_post_channels_refresh; auto with frame.
  - rewrite <- Hc. apply Hq, keeps_ranking; auto with frame.
  - rewrite <- Hc. apply Hq, keeps_ranking; auto with frame.
  - rewrite <- Hc. apply Hq, keeps_ranking; auto with frame.
  - rewrite <- Hc. apply Hq, keeps_ranking; auto with frame.
  - rewrite <- Hc. apply Hq, keeps_get_channels_id; auto with frame.
  - exact Hc.
Qed.

(** X18. A rollup that is in the cache is what [/statistics] answers until
    it expires, whatever requests other than ingestions are served in the
    meantime: a refresh renames channels in the table, and the rollup
    answered still carries the names it was computed with. *)
Theorem cached_rollup_served (w : World) (e : CacheEntry) (later : list Request)
    (env : Env) :
  youtube_cache w = Some e ->
  Forall not_ingest later ->
  clock (run later w) < expires e ->
  get_statistics env (run later w)
  = (Returned (StatisticsOk (cached e) "cache"), run later w).
Proof.
  intros Hc Hl Ht. apply get_statistics_hit; [|assumption].
  revert Hl Ht. induction later as [|r later IH] using rev_ind; intros Hl Ht.
  - exact Hc.
  - apply Forall_app in Hl as [Hl Hr]. apply Forall_inv in Hr.
    rewrite run_snoc in *.
    apply step_keeps_entry; [assumption | | assumption].
    apply IH; [assumption|].
    pose proof (step_clock (run later w) r Hr). lia.
Qed.

End ShapeFacts.

(** ** The listing of a channel *)

Module ListingFacts.
Import Data Effects Upstream Store Queries Routes Server Keeps Frame
  Invariants QueryFacts RankingFacts CacheFacts InvariantFacts.
Local Open Scope Z_scope.

Lemma run_snapshots (requests : list Request) (w : World) :
  snapshots_grow w (run requests w).
Proof.
  induction requests as [|r requests IH] using rev_ind.
  - apply (law_refl _ snapshots_grow_lawful).
  - rewrite run_snoc.
    eapply (law_trans _ snapshots_grow_lawful); [exact IH | apply step_snapshots].
Qed.

Lemma listed_statistics channelId d entry :
  In entry (channel_videos_query channelId d) ->
  In (vws_video entry) (videos d) /\
  v_channelId (vws_video entry) = channelId /\
  vws_statistics entry
  = snapshots_of (v_id (vws_video entry)) (videoStatistics d).
Proof.
  unfold channel_videos_query. cbv zeta. intros H.
  apply in_map_iff in H as (v & <- & Hv).
  apply filter_In in Hv as [Hv Ev]. cbn [vws_video vws_statistics].
  split; [assumption|]. split; [now apply String.eqb_eq|].
  now apply channel_videos_statistics.
Qed.

(** X19. What [/channels/:id] lists.  When it answers 200, after any
    requests, the channel is in the table; the entries are the videos of
    the channel, one entry for each row; the snapshots of an entry are
    all the snapshots of its video that the table holds, each once; and a
    snapshot of the video that was in the table before the requests is
    among them: the whole history, and not only the latest snapshot.  No
    query of the route orders its rows, and nothing is said here of the
    order of the entries or of the snapshots. *)
Theorem channel_listing_full_history (env : Env) (channelId : string)
    (requests : list Request) (w : World) (data : list VideoWithStatistics) :
  fst (get_channels_id env channelId (run requests w))
  = Returned (ChannelVideosOk data) ->
  channelId <> EmptyString /\
  has_channel channelId (channels (db (run requests w))) = true /\
  Permutation (map vws_video data)
    (filter (fun v => String.eqb (v_channelId v) channelId)
            (videos (db (run requests w)))) /\
  (forall entry, In entry data ->
     Permutation (vws_statistics entry)
       (filter (fun s => String.eqb (s_videoId s) (v_id (vws_video entry)))
               (videoStatistics (db (run requests w))))) /\
  (forall entry s, In entry data ->
     In s (videoStatistics (db w)) ->
     s_videoId s = v_id (vws_video entry) ->
     In s (vws_statistics entry)).
Proof.
  intros H. set (w1 := run requests w) in *.
  assert (Hd := get_channels_id_ok env channelId w1 data H).
  assert (Hok : channelId <> EmptyString /\
                has_channel channelId (channels (db w1)) = true).
  { revert H.
    cbv [get_channels_id try_catch bind execute gets ret throw log modify].
    destruct (String.eqb_spec channelId EmptyString) as [E | E]; [discriminate|].
    destruct (refused env SelectRows); [discriminate|]. cbn.
    destruct (has_channel channelId (channels (db w1))); [|discriminate].
    now split. }
  destruct Hok as [E Hc]. clear H.
  split; [assumption|]. split; [assumption|].
  subst data. split; [|split].
  - assert (Hrows : map vws_video (channel_videos_query channelId (db w1))
                    = filter (fun v => String.eqb (v_channelId v) channelId)
                             (videos (db w1))).
    { unfold channel_videos_query. rewrite map_map. cbn [vws_video].
      apply map_id. }
    rewrite Hrows. apply Permutation_refl.
  - intros entry He. apply listed_statistics in He as (_ & _ & ->).
    apply Permutation_refl.
  - intros entry s He Hs Ev. apply listed_statistics in He as (_ & _ & ->).
    unfold snapshots_of. apply filter_In. split.
    + destruct (run_snapshots requests w) as [added Ha].
      fold w1 in Ha. rewrite Ha. apply in_or_app. now left.
    + now apply String.eqb_eq.
Qed.

End ListingFacts.

(** ** Snapshots by id, and the pages of [/all-video] *)

Module ListingsFacts.
Import Data Effects Upstream Store Routes Counters CounterFacts Listings.
Local Open Scope Z_scope.

Lemma split_nonempty s : split s <> [].
Proof.
  destruct s as [|c s]; cbn [split]; [discriminate|].
  destruct (Ascii.eqb c ","); [discriminate|]. destruct (split s); discriminate.
Qed.

Lemma split_comma_free s : comma_free s -> split s = [s].
Proof.
  unfold comma_free. induction s as [|c s IH]; cbn; [reflexivity|].
  intros H. apply andb_true_iff in H as [Hc Hs]. apply negb_true_iff in Hc.
  rewrite Hc, (IH Hs). reflexivity.
Qed.

Lemma split_field s t :
  comma_free s -> split (s ++ String "," t) = s :: split t.
Proof.
  unfold comma_free. induction s as [|c s IH]; cbn; [reflexivity|].
  intros H. apply andb_true_iff in H as [Hc Hs]. apply negb_true_iff in Hc.
  rewrite Hc, (IH Hs). reflexivity.
Qed.

Lemma split_concat ids :
  ids <> [] -> Forall comma_free ids -> split (String.concat "," ids) = ids.
Proof.
  induction ids as [|s ids IH]; intros Hne Hf; [congruence|].
  inversion Hf as [|? ? Hs Hids]; subst. cbn [String.concat].
  destruct ids as [|s' ids]; [now apply split_comma_free|].
  change ("," ++ String.concat "," (s' :: ids))%string
    with (String "," (String.concat "," (s' :: ids))).
  rewrite split_field by assumption. f_equal. apply IH; [discriminate | assumption].
Qed.

(** X20. [/videos/statistics] answers the snapshots of the videos that
    are asked for: for ids without comma, joined by commas into a text
    that is not empty, the data are the snapshots of the table whose video
    is one of the ids, in the order of the table (every snapshot, not the
    latest); a parameter that is missing or empty is answered 400. *)
Theorem videos_statistics_by_ids (env : Env) (ids : list string) (w : World) :
  ids <> [] ->
  Forall comma_free ids ->
  String.concat "," ids <> EmptyString ->
  refused env SelectRows = false ->
  fst (get_videos_statistics env (Some (String.concat "," ids)) w)
  = Returned (SnapshotsOk
                (filter (fun s => existsb (String.eqb (s_videoId s)) ids)
                        (videoStatistics (db w)))) /\
  fst (get_videos_statistics env None w) = Returned SnapshotsBadRequest /\
  fst (get_videos_statistics env (Some EmptyString) w)
  = Returned SnapshotsBadRequest.
Proof.
  intros Hne Hf Htext Hdb. split; [|split; reflexivity].
  unfold get_videos_statistics.
  cbv [try_catch bind execute gets ret throw log modify truthy text].
  apply String.eqb_neq in Htext. rewrite Htext, Hdb. cbn [negb fst].
  now rewrite split_concat.
Qed.

(** *** The pages *)

Lemma pages_concat {A} (size : nat) : forall n (l : list A),
  (List.length l <= n * size)%nat ->
  List.concat (map (fun p => firstn size (skipn (p * size) l)) (seq 0 n)) = l.
Proof.
  induction n as [|n IH]; intros l Hl.
  - destruct l; [reflexivity | cbn in Hl; lia].
  - cbn [seq map List.concat]. rewrite <- seq_shift, map_map.
    cbn [Nat.mul skipn].
    rewrite (map_ext _ (fun p => firstn size (skipn (p * size) (skipn size l)))).
    + rewrite IH by (rewrite length_skipn; lia). apply firstn_skipn.
    + intros p. cbn [Nat.mul]. now rewrite skipn_skipn, Nat.add_comm.
Qed.

Lemma truthy_decimal n : truthy (Some (decimal n)) = true.
Proof.
  cbn [truthy]. apply negb_true_iff, String.eqb_neq, decimal_nonempty.
Qed.

Lemma get_all_video_page env nonpositive (limit : N) (page : nat) w :
  refused env SelectRows = false -> (0 < limit)%N -> (1 <= page)%nat ->
  fst (get_all_video env nonpositive (Some (decimal (N.of_nat page)))
         (Some (decimal limit)) w)
  = Returned (AllVideoOk
                (firstn (N.to_nat limit)
                   (skipn ((page - 1) * N.to_nat limit) (videos (db w))))
                (Some (Z.of_nat page)) (Some (Z.of_N limit))
                (Z.of_nat (List.length (videos (db w))))
                (total_pages (Z.of_nat (List.length (videos (db w))))
                   (Some (Z.of_N limit)))).
Proof.
  intros Hdb Hlimit Hpage. unfold get_all_video.
  rewrite !truthy_decimal. cbn [text]. rewrite !parseInt_decimal.
  cbv [try_catch bind execute gets ret throw log modify].
  rewrite Hdb. cbn [fst snd]. unfold limit_offset, offset_rows.
  assert (H1 : (0 <? Z.of_N limit) = true) by (apply Z.ltb_lt; lia).
  assert (H2 : ((Z.of_N (N.of_nat page) - 1) * Z.of_N limit <? 0) = false)
    by (apply Z.ltb_ge; nia).
  rewrite H1, H2. cbn [option_map fst].
  replace (Z.to_nat ((Z.of_N (N.of_nat page) - 1) * Z.of_N limit))
    with ((page - 1) * N.to_nat limit)%nat by nia.
  replace (Z.to_nat (Z.of_N limit)) with (N.to_nat limit) by lia.
  now rewrite nat_N_Z.
Qed.

(** X21. The pages of [/all-video]: with a page size of at least one and
    a page number of at least one, the reply carries the rows of the table
    from row [(page - 1) * limit] on, at most [limit] of them, with the
    count of the table and the number of pages; the pages from the first
    to the last that the reply announces, put end to end, are the table,
    each video once, and a page after the last is empty. *)
Theorem all_video_pages (env : Env)
    (nonpositive : Z -> option Z -> list VideoRow -> option (list VideoRow))
    (limit : N) (w : World) :
  refused env SelectRows = false ->
  (0 < limit)%N ->
  (forall page, (1 <= page)%nat ->
     fst (get_all_video env nonpositive (Some (decimal (N.of_nat page)))
            (Some (decimal limit)) w)
     = Returned (AllVideoOk
                   (firstn (N.to_nat limit)
                      (skipn ((page - 1) * N.to_nat limit) (videos (db w))))
                   (Some (Z.of_nat page)) (Some (Z.of_N limit))
                   (Z.of_nat (List.length (videos (db w))))
                   (total_pages (Z.of_nat (List.length (videos (db w))))
                      (Some (Z.of_N limit))))) /\
  (forall pages : nat,
     total_pages (Z.of_nat (List.length (videos (db w)))) (Some (Z.of_N limit))
     = Some (Z.of_nat pages) ->
     List.concat (map (page_rows env nonpositive limit w) (seq 1 pages))
     = videos (db w) /\
     forall page, (pages < page)%nat ->
                  page_rows env nonpositive limit w page = []).
Proof.
  intros Hdb Hlimit.
  assert (Hrows : forall page, (1 <= page)%nat ->
            page_rows env nonpositive limit w page
            = firstn (N.to_nat limit)
                (skipn ((page - 1) * N.to_nat limit) (videos (db w)))).
  { intros page Hpage. unfold page_rows.
    now rewrite get_all_video_page by assumption. }
  split; [intros page Hpage; now apply get_all_video_page|].
  intros pages Hpages.
  assert (Hcover : (List.length (videos (db w)) <= pages * N.to_nat limit)%nat).
  { unfold total_pages in Hpages.
    destruct (Z.of_N limit) as [|l|l] eqn:El; try lia.
    injection Hpages as Hp.
    pose proof (Z.div_mod (- Z.of_nat (List.length (videos (db w)))) (Z.pos l)
                  ltac:(lia)) as Hd.
    pose proof (Z.mod_pos_bound (- Z.of_nat (List.length (videos (db w))))
                  (Z.pos l) ltac:(lia)) as Hm.
    nia. }
  split.
  - rewrite <- seq_shift, map_map.
    rewrite (map_ext_in _ (fun p => firstn (N.to_nat limit)
                                      (skipn (p * N.to_nat limit) (videos (db w))))).
    + now apply pages_concat.
    + intros p _. rewrite Hrows by lia. do 2 f_equal. lia.
  - intros page Hpage. rewrite Hrows by lia.
    rewrite skipn_all2; [now rewrite firstn_nil|]. nia.
Qed.

End ListingsFacts.

(** ** The properties at work *)

Module Runs.
Import Data Effects Upstream Store Queries Routes Keeps Server Examples.
Import Columns Invariants Pagination Counters Traffic Listings Cases.
Import UpsertFacts VideoFacts InvariantFacts RefreshWrites IngestErrors
  PaginationFacts OrderFacts CounterFacts CastFacts ShapeFacts ListingFacts
  ListingsFacts.
Local Open Scope Z_scope.
Local Open Scope string_scope.

Ltac distinct :=
  repeat (constructor; [cbn; intuition discriminate|]); constructor.

(** X1 at work: channel [UC1] is ingested again, reported with other
    counters; the row keeps the counters it had. *)
Lemma insertChannel_upsert_witness :
  exists row,
    fst (insertChannel env_up "UC1" "https://img/2" "UU1" 5 6 7 "@uno"
           world_cached) = Returned (Some row) /\
    c_channelName row = "@uno" /\
    channel_fixed row = channel_fixed channel1.
Proof.
  destruct (insertChannel_upsert env_up "UC1" "https://img/2" "UU1" 5 6 7 "@uno"
              world_cached
              (Some (mkChannelRow "UC1" "@uno" (Some "https://img/2")
                       "UU1" 100 1000 1 0 100))
              (snd (insertChannel env_up "UC1" "https://img/2" "UU1" 5 6 7 "@uno"
                      world_cached)))
    as (_ & _ & (row & Hrow & _ & _ & Hname & _ & _ & _ & Hfixed) & _).
  - vm_compute. reflexivity.
  - distinct.
  - exists row. split; [|split; assumption].
    rewrite <- Hrow. vm_compute. reflexivity.
Defined.

(** X2 at work: three videos are inserted for [UC1] beside video A. *)
Lemma insertVideos_upsert_witness :
  exists added,
    Permutation
      (map video_fixed
         (videos (db (snd (insertVideos env_up (video_details 0 3) "UC1"
                             world_cached)))))
      (map video_fixed (videos (db world_cached)) ++ added)%list.
Proof.
  refine (proj1 (insertVideos_upsert env_up (video_details 0 3) "UC1"
                   world_cached _ _ _)).
  - distinct.
  - vm_compute. reflexivity.
Defined.

(** X3 at work: the three videos are inserted at time 100, and again at
    time 900 for another channel. *)
Lemma insertVideos_twice_witness :
  map video_content
    (videos (db (snd (insertVideos env_rename (video_details 0 3) "UC2"
                        (with_clock 900
                           (snd (insertVideos env_up (video_details 0 3) "UC1"
                                   world_cached)))))))
  = map video_content
      (videos (db (snd (insertVideos env_up (video_details 0 3) "UC1"
                          world_cached)))).
Proof.
  refine (proj1 (insertVideos_twice env_up env_rename (video_details 0 3)
                   "UC1" "UC2" world_cached
                   (snd (insertVideos env_up (video_details 0 3) "UC1"
                           world_cached))
                   (with_clock 900
                      (snd (insertVideos env_up (video_details 0 3) "UC1"
                              world_cached)))
                   (snd (insertVideos env_rename (video_details 0 3) "UC2"
                           (with_clock 900
                              (snd (insertVideos env_up (video_details 0 3) "UC1"
                                      world_cached)))))
                   _ _ eq_refl _)).
  - distinct.
  - vm_compute. reflexivity.
  - vm_compute. reflexivity.
Defined.

(** X5 at work: of ten channels the fourth cannot be reached; the rows
    that the refresh has rewritten by then carry the counters they had. *)
Lemma refresh_keeps_counters_witness :
  Permutation
    (map channel_fixed
       (channels (db (snd (post_channels_refresh env_fourth_down
                             (world_of db_ten))))))
    (map channel_fixed (channels db_ten)).
Proof.
  refine (proj1 (refresh_keeps_counters env_fourth_down (world_of db_ten) []
                   (snd (post_channels_refresh env_fourth_down (world_of db_ten)))
                   _)).
  left. reflexivity.
Defined.


(** X7 at work: the channel is reported with no subscriber, the answer is
    the 400, and the cached rollup is still there. *)
Lemma ingest_without_report_witness :
  db (snd (get_root env_no_follower 2 (Some "@one") world_cached))
  = db world_cached /\
  youtube_cache (snd (get_root env_no_follower 2 (Some "@one") world_cached))
  = youtube_cache world_cached.
Proof.
  refine (proj1 (ingest_without_report env_no_follower 2 (Some "@one")
                   world_cached 400 invalid_input _ _) _).
  - vm_compute. reflexivity.
  - discriminate.
Defined.

(** The deletion of the cached rollup is rejected: the answer is the 500,
    the rollup is still cached, and the 101 snapshots are in the table. *)
Lemma ingest_delete_rejected :
  fst (get_root env_delete_down 2 (Some "@one") world_cached)
  = Returned (IngestText 500 "Internal Server Error") /\
  youtube_cache (snd (get_root env_delete_down 2 (Some "@one") world_cached))
  = youtube_cache world_cached /\
  List.length
    (videoStatistics
       (db (snd (get_root env_delete_down 2 (Some "@one") world_cached))))
  = (List.length (videoStatistics (db world_cached)) + 101)%nat.
Proof. repeat split; vm_compute; reflexivity. Qed.

(** No batch of statistics is answered: there is no snapshot to insert,
    the answer is the 500 though no statement was refused, and the channel
    and its videos are in the tables. *)
Lemma ingest_no_statistics :
  fst (get_root env_batches_down 2 (Some "@one") (world_of empty_db))
  = Returned (IngestText 500 "Internal Server Error") /\
  (forall st, refused env_batches_down st = false) /\
  List.length
    (videos (db (snd (get_root env_batches_down 2 (Some "@one")
                        (world_of empty_db)))))
  = 101%nat /\
  videoStatistics
    (db (snd (get_root env_batches_down 2 (Some "@one") (world_of empty_db))))
  = [].
Proof. repeat split; vm_compute; reflexivity. Qed.

(** X8 at work: the second page of the playlist cannot be fetched; no
    statement is refused, and nothing was written. *)
Lemma ingest_500_causes_witness :
  db (snd (get_root env_page_down 2 (Some "@one") world_cached)) = db world_cached.
Proof.
  destruct (ingest_500_causes env_page_down 2 (Some "@one") world_cached
              "Internal Server Error"
              (snd (get_root env_page_down 2 (Some "@one") world_cached)))
    as [[st Hst]
       | [(username & details & w1 & e & w2 & _ & _ & _ & _ & _ & H)
         | [(username & details & w1 & videos & w2 & w3 & Hu & Hd & Hp & _)
           | Hdel]]].
  - vm_compute. reflexivity.
  - discriminate Hst.
  - exact H.
  - vm_compute in Hu. injection Hu as <-.
    vm_compute in Hd. injection Hd as <- <-.
    vm_compute in Hp. discriminate Hp.
  - discriminate Hdel.
Defined.

(** X9 at work: the lookup of [@one] fails. *)
Lemma ingest_lookup_failure_witness :
  fst (get_root env_lookup_down 2 (Some "@one") (world_of empty_db))
  = Returned (IngestText 400 invalid_input).
Proof.
  refine (proj1 (ingest_lookup_failure env_lookup_down 2 (Some "@one")
                   (world_of empty_db) "@one" eq_refl eq_refl eq_refl eq_refl I)).
Defined.

(** X11 at work: a playlist of three pages. *)
Lemma getPlaylistVideos_pages_witness :
  getPlaylistVideos env_three_pages 3 "UU1" (world_of empty_db)
  = (Returned (video_details 0 5), with_quota 3 (world_of empty_db)).
Proof.
  refine (proj1 (getPlaylistVideos_pages env_three_pages 3 "UU1"
                   (world_of empty_db) [pageA; pageB] pageC _ _ eq_refl) _).
  - cbn. repeat split; try reflexivity; discriminate.
  - repeat constructor.
  - repeat constructor.
Defined.

(** X12 at work: the second page cannot be fetched. *)
Lemma getPlaylistVideos_page_fails_witness :
  getPlaylistVideos env_page_down 2 "UU1" (world_of empty_db)
  = (Thrown FetchFailed, with_quota 1 (world_of empty_db)).
Proof.
  refine (getPlaylistVideos_page_fails env_page_down 2 "UU1" (world_of empty_db)
            [page1] _ _ eq_refl _).
  - cbn. repeat split; try reflexivity; discriminate.
  - repeat constructor.
  - repeat constructor.
Defined.

(** X13 at work: the two most viewed of three videos. *)
Lemma top_query_is_top_witness :
  exists rows,
    top_query viewCount 2 db_three = Some rows /\
    map r_videoId rows = ["A"; "B"] /\
    StronglySorted (fun a b => r_value b <= r_value a) rows.
Proof.
  eexists. split; [vm_compute; reflexivity|]. split; [reflexivity|].
  destruct (top_query_is_top viewCount 2 db_three _ eq_refl)
    as (selected & left_out & _ & _ & _ & Hs & _).
  exact Hs.
Defined.

(** X14 at work: one row for [UC1] and one for [UC2]. *)
Lemma top_channel_query_best_witness :
  exists rows,
    top_channel_query db_three = Some rows /\
    map r_videoId rows = ["A"; "C"] /\
    NoDup (map r_channelId rows).
Proof.
  eexists. split; [vm_compute; reflexivity|]. split; [reflexivity|].
  destruct (top_channel_query_best db_three _ eq_refl)
    as (selected & _ & Hnd & _).
  exact Hnd.
Defined.

(** X15 at work: a snapshot of a thousand views. *)
Lemma readers_agree_on_counts_witness :
  snapshot_value viewCount (mkStatRow 0 "A" (counts "1000" "10" "1") 1) = 1000 /\
  metric viewCount (Some (mkStatRow 0 "A" (counts "1000" "10" "1") 1))
  = Some 1000.
Proof.
  refine (proj2 (readers_agree_on_counts 1000%N item1
                   (mkStatRow 0 "A" (counts "1000" "10" "1") 1) viewCount _)
            eq_refl).
  unfold exact_up_to. lia.
Defined.


(** X17 at work: the rows of two channels, read from the last to the
    first. *)
Lemma rollup_one_entry_per_channel_witness :
  NoDup (map cs_channelId
           (fold_left aggregate_row (rev (statistics_rows db_three)) [])).
Proof.
  refine (proj1 (rollup_one_entry_per_channel db_three
                   (rev (statistics_rows db_three)) _)).
  apply Permutation_sym, Permutation_rev.
Defined.

(** X18 at work: the rollup cached until time 3000 is served at time 1600,
    after a refresh that has renamed the channel. *)
Lemma cached_rollup_served_witness :
  get_statistics env_up (run quiet_traffic world_cached)
  = (Returned (StatisticsOk stale "cache"), run quiet_traffic world_cached).
Proof.
  refine (cached_rollup_served world_cached (mkCacheEntry stale 3000)
            quiet_traffic env_up eq_refl _ _).
  - repeat constructor.
  - vm_compute. reflexivity.
Defined.

(** X19 at work: video A has two snapshots, [UC1] is ingested again and
    then listed; the snapshot of time 1 is in the entry of A, the first
    of the entries. *)
Lemma channel_listing_full_history_witness :
  In (mkStatRow 0 "A" (counts "50" "10" "1") 1)
     (vws_statistics
        (hd (mkVideoWithStatistics videoA [])
            (channel_videos_query "UC1"
               (db (run [Ingest env_up 2 (Some "@one")]
                      (world_of db_history)))))).
Proof.
  refine (proj2 (proj2 (proj2 (proj2
            (channel_listing_full_history env_up "UC1"
               [Ingest env_up 2 (Some "@one")] (world_of db_history)
               (channel_videos_query "UC1"
                  (db (run [Ingest env_up 2 (Some "@one")]
                         (world_of db_history))))
               _))))
            (hd (mkVideoWithStatistics videoA [])
                (channel_videos_query "UC1"
                   (db (run [Ingest env_up 2 (Some "@one")]
                          (world_of db_history)))))
            (mkStatRow 0 "A" (counts "50" "10" "1") 1) _ _ _).
  - vm_compute. reflexivity.
  - vm_compute. left. reflexivity.
  - simpl. tauto.
  - vm_compute. reflexivity.
Defined.

(** X20 at work: the snapshots of A and C are asked for. *)
Lemma videos_statistics_by_ids_witness :
  fst (get_videos_statistics env_up (Some "A,C") (world_of db_three))
  = Returned (SnapshotsOk
                (filter (fun s => existsb (String.eqb (s_videoId s)) ["A"; "C"])
                        (videoStatistics db_three))).
Proof.
  refine (proj1 (videos_statistics_by_ids env_up ["A"; "C"] (world_of db_three)
                   _ _ _ eq_refl)).
  - discriminate.
  - repeat constructor.
  - discriminate.
Defined.

(** X21 at work: three videos on pages of two. *)
Lemma all_video_pages_witness :
  List.concat (map (page_rows env_up no_clause 2 (world_of db_three)) (seq 1 2))
  = videos db_three.
Proof.
  refine (proj1 (proj2 (all_video_pages env_up no_clause 2 (world_of db_three)
                          eq_refl eq_refl) 2%nat _)).
  vm_compute. reflexivity.
Defined.

(** X22 at work: an ingestion beside three videos, then a refresh. *)
Lemma ids_stay_unique_witness :
  NoDup (map c_id
           (channels (db (run [Ingest env_up 2 (Some "@one"); Refresh env_rename]
                            (world_of db_three))))).
Proof.
  refine (proj1 (ids_stay_unique [Ingest env_up 2 (Some "@one"); Refresh env_rename]
                   (world_of db_three) _ _)).
  - distinct.
  - distinct.
Defined.

End Runs.
